(** * Ambient-noise cross-correlation pipeline ([compute_cc.py])

    A shallow embedding of the signal-processing core of [compute_cc.py]:
    time alignment ([nearest_step]), the stream conditioner ([process_raw]),
    the windower inside [main], the spectral whitener ([whiten]) and the
    correlation engine ([correlate]), followed by the properties that the
    specification states about them.

    Conventions of the embedding:
    - a Python exception is a value of [exn], and a function that may raise
      returns a [result];
    - an [obspy.UTCDateTime] is its integer count of nanoseconds since the
      epoch (the class stores exactly that); the difference of two time
      stamps is the float that obspy returns, rounded to microseconds, and
      obspy compares two time stamps after rounding each to microseconds
      ([utc_eqb], [utc_ltb]); the windower, whose time stamps are the ticks
      that [nearest_step] returns and the start times of the windows cut
      from them, compares the counts themselves, which is the same
      comparison on whole microseconds;
    - numpy and scipy primitives on floating-point data (FFT, cosine, complex
      modulus, ...) are the operations of a [Numeric] structure; the
      frequencies of [fftfreq], which select bins by comparison, are
      binary64 floats with their rounding; the structural work that the
      Python code does itself (slicing, slice assignment, broadcasting,
      index selection) is written out on lists;
    - helpers of the [noise] package and of obspy that are not part of
      [compute_cc.py] are parameters of the section that uses them. *)

From Equations Require Import Equations.
From Stdlib Require Import Bool String Arith ZArith QArith Qround Lia List.
From Stdlib Require Import Reals Lra.
From Stdlib Require Import Ascii Qabs.
From Stdlib Require Import DecimalString.
Import ListNotations.

Local Open Scope Z_scope.

(** ** Python exceptions and results *)

Inductive exn : Type :=
| ValueError (msg : string)
| IndexError
| AxisError
| BroadcastError
| ZeroDivisionError.

Inductive result (A : Type) : Type :=
| Ok (a : A)
| Raise (e : exn).

Arguments Ok {A} a.
Arguments Raise {A} e.

Definition bind {A B : Type} (m : result A) (k : A -> result B) : result B :=
  match m with
  | Ok a => k a
  | Raise e => Raise e
  end.

Notation "x <- m ;; k" := (bind m (fun x => k))
  (at level 61, m at next level, right associativity).
Notation "' pat <- m ;; k" := (bind m (fun x => match x with pat => k end))
  (at level 61, pat pattern, m at next level, right associativity).

(** The error conditions that the specification names. *)
Definition TooManyTraces : exn := ValueError "Too many traces in Stream"%string.
Definition EmptyStream : exn := ValueError "No traces in Stream"%string.
Definition InvalidTimeRange : exn := ValueError "startime is larger than endtime"%string.
Definition NoCorrelatedData : exn := ValueError "No data cross-correlated"%string.

(** ** Python sequences *)

(** [l[i]] for an integer [i]: negative indices count from the end, and an
    index outside [-len, len) raises [IndexError]. *)
Definition py_getitem {A : Type} (l : list A) (i : Z) : result A :=
  let n := Z.of_nat (length l) in
  let j := if i <? 0 then i + n else i in
  if (0 <=? j) && (j <? n) then
    match nth_error l (Z.to_nat j) with
    | Some a => Ok a
    | None => Raise IndexError
    end
  else Raise IndexError.

(** [l[i] = x]: item assignment, with the same reading of the index. *)
Fixpoint set_nth {A : Type} (l : list A) (n : nat) (x : A) : list A :=
  match l, n with
  | [], _ => []
  | _ :: l', O => x :: l'
  | a :: l', S n' => a :: set_nth l' n' x
  end.

Definition py_setitem {A : Type} (l : list A) (i : Z) (x : A) : result (list A) :=
  let n := Z.of_nat (length l) in
  let j := if i <? 0 then i + n else i in
  if (0 <=? j) && (j <? n) then Ok (set_nth l (Z.to_nat j) x)
  else Raise IndexError.

(** [l.remove(x)]: removes the first element equal to [x], and raises
    [ValueError] when there is none. *)
Fixpoint py_remove {A : Type} (eqb : A -> A -> bool) (x : A) (l : list A)
  : result (list A) :=
  match l with
  | [] => Raise (ValueError "list.remove(x): x not in list"%string)
  | a :: l' =>
      if eqb a x then Ok l'
      else l'' <- py_remove eqb x l' ;; Ok (a :: l'')
  end.

(** Number of elements of [range(start, stop, step)] for a non-zero step. *)
Definition range_len (start stop step : Z) : Z :=
  if 0 <? step then Z.max 0 ((stop - start + step - 1) / step)
  else Z.max 0 ((start - stop - step - 1) / (- step)).

(** [range(start, stop, step)]; a zero step raises [ValueError]. *)
Definition py_range (start stop step : Z) : result (list Z) :=
  if step =? 0 then Raise (ValueError "range() arg 3 must not be zero"%string)
  else Ok (map (fun k => start + Z.of_nat k * step)
               (seq 0 (Z.to_nat (range_len start stop step)))).

(** [np.argmin]: the first index of the minimum. *)
Fixpoint argmin_from (best_i : nat) (best : Z) (i : nat) (l : list Z) : nat :=
  match l with
  | [] => best_i
  | x :: l' =>
      if x <? best then argmin_from i x (S i) l'
      else argmin_from best_i best (S i) l'
  end.

Definition np_argmin (l : list Z) : result nat :=
  match l with
  | [] => Raise (ValueError "attempt to get argmin of an empty sequence"%string)
  | x :: l' => Ok (argmin_from 0 x 1 l')
  end.

(** ** Time alignment: [nearest_step] *)

Abbreviation UTCDateTime := Z (only parsing).

Definition ns_per_s : Z := 1000000000.

(** Adding [s] seconds to a time stamp. *)
Definition add_seconds (t : UTCDateTime) (s : Z) : UTCDateTime := t + s * ns_per_s.

(** [obspy.UTCDateTime(t.year, t.month, t.day)]: midnight of the day of [t]. *)
Definition midnight (t : UTCDateTime) : UTCDateTime :=
  t - t mod (86400 * ns_per_s).

(** obspy compares two time stamps on their nanoseconds rounded to
    microseconds, [round(ns, -3)] on Python integers: the nearest multiple
    of 1000, a tie going to the even one. [round_micro] is that multiple,
    counted in microseconds. *)
Definition round_micro (ns : Z) : Z :=
  let q := ns / 1000 in
  let r := ns mod 1000 in
  if r <? 500 then q
  else if 500 <? r then q + 1
  else if Z.even q then q else q + 1.

(** [a == b] on two time stamps. *)
Definition utc_eqb (a b : UTCDateTime) : bool := round_micro a =? round_micro b.

(** [a < b] on two time stamps. *)
Definition utc_ltb (a b : UTCDateTime) : bool := round_micro a <? round_micro b.

Section TimeAlignment.

(** The difference of two time stamps is the float
    [round((a.ns - b.ns) / 1e9, 6)]: seconds, rounded to microseconds. A
    difference of less than [2^53] ns is a float as it stands and the
    quotient lies within a nanosecond of the exact one, so the rounding
    gives the nearest microsecond. Exactly half-way between two
    microseconds it follows the binary float next to the quotient, which
    lies above the half for some differences and below it for others:
    [half_up d] tells whether the difference [d] is rounded up. A larger
    difference, more than a hundred days, is that of a tick which cannot
    be the nearest: the tick at midnight is within a day. *)
Variable half_up : Z -> bool.

(** [a - b], counted in microseconds. The floats that Python compares
    are ordered as these counts are. *)
Definition utc_sub (a b : UTCDateTime) : Z :=
  let d := a - b in
  let q := d / 1000 in
  let r := d mod 1000 in
  if r <? 500 then q
  else if 500 <? r then q + 1
  else if half_up d then q + 1 else q.

Definition nearest_step (t1 t2 : UTCDateTime) (step : Z)
  : result (UTCDateTime * UTCDateTime) :=
  if utc_eqb t1 t2 then Ok (t1, t2)
  else
    let start1 := midnight t1 in
    let start2 := midnight t2 in
    r1 <- py_range 0 (86400 + step) step ;;
    let t1s := map (fun s => add_seconds start1 s) r1 in
    r2 <- py_range 0 (86400 + step) step ;;
    let t2s := map (fun s => add_seconds start2 s) r2 in
    let t1diff := map (fun t => utc_sub t t1) t1s in
    let t2diff := map (fun t => utc_sub t t2) t2s in
    ind1 <- np_argmin (map Z.abs t1diff) ;;
    ind2 <- np_argmin (map Z.abs t2diff) ;;
    t1' <- py_getitem t1s (Z.of_nat ind1) ;;
    t2' <- py_getitem t2s (Z.of_nat ind2) ;;
    Ok (t1', t2').

End TimeAlignment.

(** A time stamp lies on the step grid of its own day. *)
Definition on_grid (t : UTCDateTime) (step : Z) : Prop :=
  (t - midnight t) mod (step * ns_per_s) = 0.


(** ** Traces and streams (obspy) *)

(** A trace: the header fields that the pipeline reads, and the samples.
    Samples are the integer counts of the recording; [npts] is the length
    of [data]. [delta] is the sample interval in nanoseconds. *)
Record Trace : Type := mkTrace {
  network : string;
  station : string;
  channel : string;
  delta : Z;
  starttime : UTCDateTime;
  data : list Z
}.

(** An obspy [Stream] is a list of traces. *)
Definition Stream : Type := list Trace.

Definition list_Z_eqb (l1 l2 : list Z) : bool :=
  if list_eq_dec Z.eq_dec l1 l2 then true else false.

(** [Trace.__eq__]: same header and same samples. *)
Definition trace_eqb (a b : Trace) : bool :=
  String.eqb (network a) (network b) && String.eqb (station a) (station b) &&
  String.eqb (channel a) (channel b) && (delta a =? delta b) &&
  (starttime a =? starttime b) && list_Z_eqb (data a) (data b).

(** [Stream.remove(trace)] is [list.remove] on the stream's traces. *)
Definition stream_remove (st : Stream) (tr : Trace) : result Stream :=
  py_remove trace_eqb tr st.

(** [a.max()] of a numpy array; an empty array raises [ValueError]. *)
Definition np_max (l : list Z) : result Z :=
  match l with
  | [] => Raise (ValueError "zero-size array to reduction operation maximum which has no identity"%string)
  | x :: l' => Ok (fold_left Z.max l' x)
  end.

(** The largest absolute sample value of a trace (0 for no samples). *)
Definition max_abs (l : list Z) : Z := fold_left Z.max (map Z.abs l) 0.

(** ** Stream conditioner: [process_raw] *)

(** A gap as [noise.getGaps] lists it: the indices [gap[0]] and [gap[1]] of
    the two traces around it, and [gap_samples] for [int(gap[-1])], its
    length in samples. *)
Record Gap : Type := mkGap {
  gap_first : Z;
  gap_second : Z;
  gap_samples : Z
}.

(** The loop [for tr in st: if tr.data.max() == 0: st.remove(tr)].
    Iterating over a stream walks a copy of its trace list, so the loop
    runs over the traces present at its start ([todo]) while [st] shrinks. *)
Fixpoint remove_zero_loop (todo : list Trace) (st : Stream) : result Stream :=
  match todo with
  | [] => Ok st
  | tr :: todo' =>
      m <- np_max (data tr) ;;
      if m =? 0 then
        st' <- stream_remove st tr ;;
        remove_zero_loop todo' st'
      else remove_zero_loop todo' st
  end.

Definition remove_zero_traces (st : Stream) : result Stream :=
  remove_zero_loop st st.

Definition max_gap : Z := 10.

Section StreamConditioner.

(** Helpers of the [noise] package and of obspy, which [compute_cc.py]
    calls and does not define. *)
Variable check_sample : Stream -> result Stream.
Variable downsample : Stream -> Q -> result Stream.
Variable remove_small_traces : Stream -> result Stream.
Variable getGaps : Stream -> list Gap.
(** [a.__add__(b, method=0, fill_value="interpolate")] *)
Variable trace_add_interpolate : Trace -> Trace -> result Trace.
(** [st.merge(method=0, fill_value=np.int32(0))] *)
Variable merge_zero_fill : Stream -> result Stream.
Variable check_and_phase_shift : Trace -> result Trace.

(** One run of [for gap in gaps]: the first gap of at most [max_gap]
    samples is repaired and ends the run ([break]); [too_long] counts the
    gaps passed over before. *)
Fixpoint for_gaps (gaps : list Gap) (st : Stream) (too_long : Z)
  : result (Stream * Z) :=
  match gaps with
  | [] => Ok (st, too_long)
  | gap :: gaps' =>
      if gap_samples gap <=? max_gap then
        a <- py_getitem st (gap_first gap) ;;
        b <- py_getitem st (gap_second gap) ;;
        merged <- trace_add_interpolate a b ;;
        st1 <- py_setitem st (gap_first gap) merged ;;
        victim <- py_getitem st1 (gap_second gap) ;;
        st2 <- stream_remove st1 victim ;;
        Ok (st2, too_long)
      else for_gaps gaps' st (too_long + 1)
  end.

Definition is_nil {A : Type} (l : list A) : bool :=
  match l with [] => true | _ => false end.

(** The condition of [while noise.getGaps(st) and not only_too_long]. *)
Definition loop_cond (st : Stream) (only_too_long : bool) : bool :=
  negb (is_nil (getGaps st)) && negb only_too_long.

Definition loop_measure (st : Stream) (only_too_long : bool) : nat :=
  2 * length st + (if only_too_long then 0 else 1).

(** Item assignment keeps the length of a list, and [remove] takes one
    element away. *)
Lemma set_nth_length {A : Type} (l : list A) (n : nat) (x : A) :
  length (set_nth l n x) = length l.
Proof.
  revert n. induction l as [|a l IH]; intros [|n]; cbn; auto.
Qed.

Lemma py_setitem_length {A : Type} (l l' : list A) (i : Z) (x : A) :
  py_setitem l i x = Ok l' -> length l' = length l.
Proof.
  unfold py_setitem.
  destruct (_ && _); [|discriminate].
  intros [= <-]. apply set_nth_length.
Qed.

Lemma py_remove_length {A : Type} (eqb : A -> A -> bool) (x : A) (l l' : list A) :
  py_remove eqb x l = Ok l' -> S (length l') = length l.
Proof.
  revert l'. induction l as [|a l IH]; intros l'; cbn; [discriminate|].
  destruct (eqb a x).
  - now intros [= <-].
  - destruct (py_remove eqb x l) as [l''|e]; cbn; [|discriminate].
    intros [= <-]. cbn. now rewrite (IH l'').
Qed.

(** What one run of [for_gaps] does to the stream and the counter: either
    nothing was repaired and every gap was counted, or the stream lost one
    trace and the counter stopped short. *)
Lemma for_gaps_outcome (gaps : list Gap) (st st' : Stream) (k k' : Z) :
  for_gaps gaps st k = Ok (st', k') ->
  (st' = st /\ k' = k + Z.of_nat (length gaps)) \/
  (S (length st') = length st /\ k <= k' < k + Z.of_nat (length gaps)).
Proof.
  revert k. induction gaps as [|gap gaps IH]; intros k; cbn [for_gaps].
  - intros [= <- <-]. left. cbn. split; [reflexivity|lia].
  - destruct (gap_samples gap <=? max_gap).
    + destruct (py_getitem st (gap_first gap)) as [a|]; cbn [bind]; [|discriminate].
      destruct (py_getitem st (gap_second gap)) as [b|]; cbn [bind]; [|discriminate].
      destruct (trace_add_interpolate a b) as [m|]; cbn [bind]; [|discriminate].
      destruct (py_setitem st (gap_first gap) m) as [st1|] eqn:Hset; cbn [bind];
        [|discriminate].
      destruct (py_getitem st1 (gap_second gap)) as [v|]; cbn [bind]; [|discriminate].
      destruct (stream_remove st1 v) as [st2|] eqn:Hrm; cbn [bind]; [|discriminate].
      intros [= <- <-]. right.
      apply py_remove_length in Hrm. apply py_setitem_length in Hset.
      cbn [length]. split; lia.
    + intros H. apply IH in H. cbn [length].
      destruct H as [[-> ->]|[Hlen Hk]]; [left|right]; (split; [auto|lia]).
Qed.

(** A value together with the equation that names it, so that a branch of
    [gap_loop] remembers which case it is in. *)
Definition inspect {A : Type} (a : A) : {b : A | a = b} := exist _ a eq_refl.

(** The gap-repair loop
    [while noise.getGaps(st) and not only_too_long: ...].
    Each turn either repairs one gap, which removes a trace, or sets
    [only_too_long]; hence [loop_measure] decreases. *)
Equations? gap_loop (st : Stream) (only_too_long : bool) : result Stream
  by wf (loop_measure st only_too_long) lt :=
  gap_loop st only_too_long with inspect (loop_cond st only_too_long) := {
    | exist _ false _ := Ok st
    | exist _ true Hcond with inspect (for_gaps (getGaps st) st 0) := {
        | exist _ (Raise e) _ := Raise e
        | exist _ (Ok (st', too_long)) Hpass :=
            gap_loop st' (too_long =? Z.of_nat (length (getGaps st))) } }.
Proof.
  unfold loop_cond in Hcond. apply andb_prop in Hcond as [_ Hotl].
  destruct only_too_long; [discriminate|].
  unfold loop_measure.
  apply for_gaps_outcome in Hpass as [[-> ->]|[Hlen Hk]].
  - cbn [Z.add]. rewrite Z.eqb_refl. lia.
  - destruct (_ =? _); lia.
Qed.

(** [process_raw] after its first check. The [if len(noise.getGaps(st)) > 0]
    guard wraps the loop as in the source. The last loop hands every trace
    to [noise.check_and_phase_shift], which works on the trace it is given;
    the conversion to [float64] that follows leaves the values as they are. *)
Definition condition_stream (st : Stream) (downsamp_freq : Q) : result Stream :=
  st <- check_sample st ;;
  st <- remove_zero_traces st ;;
  if (length st =? 0)%nat then Raise EmptyStream else
  st <- downsample st downsamp_freq ;;
  st <- remove_small_traces st ;;
  if (length st =? 0)%nat then Raise EmptyStream else
  st <- (if (0 <? length (getGaps st))%nat then gap_loop st false else Ok st) ;;
  st <- merge_zero_fill st ;;
  (fix phase_shift (todo : list Trace) : result Stream :=
     match todo with
     | [] => Ok []
     | tr :: todo' =>
         tr' <- check_and_phase_shift tr ;;
         rest <- phase_shift todo' ;;
         Ok (tr' :: rest)
     end) st.

Definition process_raw (st : Stream) (downsamp_freq : Q) : result Stream :=
  if (100 <? length st)%nat then Raise TooManyTraces
  else condition_stream st downsamp_freq.

End StreamConditioner.

(** ** numpy index selection *)

(** [np.where(mask)[0]]: the indices at which [mask] holds, in order. *)
Fixpoint where_from (i : nat) (mask : list bool) : list nat :=
  match mask with
  | [] => []
  | b :: mask' => (if b then [i] else []) ++ where_from (S i) mask'
  end.

Definition np_where (mask : list bool) : list nat := where_from 0 mask.

(** [a[ind]] for an array of indices [ind]. *)
Fixpoint np_take {A : Type} (a : list A) (ind : list nat) : result (list A) :=
  match ind with
  | [] => Ok []
  | i :: ind' =>
      x <- py_getitem a (Z.of_nat i) ;;
      rest <- np_take a ind' ;;
      Ok (x :: rest)
  end.

(** ** Windower (in [main]) *)

(** The window bounds [t_start], [t_end] of [main]:
    [t_len = np.arange(0, t2 - t1 - cc_len + step, step)], the window
    starts [t1 + t] and ends [t1 + t + cc_len], and of these only the
    windows that end by [t2]. [cc_len] and [step] are in seconds; on
    integers [np.arange] lists what [range] does. *)
Definition window_times (t1 t2 : UTCDateTime) (cc_len step : Z)
  : result (list UTCDateTime * list UTCDateTime) :=
  t_len <- py_range 0 (t2 - t1 - cc_len * ns_per_s + step * ns_per_s)
                    (step * ns_per_s) ;;
  let t_start := map (fun t => t1 + t) t_len in
  let t_end := map (fun t => t1 + t + cc_len * ns_per_s) t_len in
  let t_ind := np_where (map (fun e => e <=? t2) t_end) in
  t_start' <- np_take t_start t_ind ;;
  t_end' <- np_take t_end t_ind ;;
  Ok (t_start', t_end').

Section Windower.

(** [tr.slide(window_length=cc_len, step=step)] of obspy: the windows of a
    trace, in order. *)
Variable slide : Trace -> Z -> Z -> list Trace.

(** [for win in tr.slide(...): slice += win], from an empty stream. *)
Definition collect_windows (tr : Trace) (cc_len step : Z) : Stream :=
  fold_left (fun slice win => slice ++ [win]) (slide tr cc_len step) [].

(** The "window waveforms" step of [main]. *)
Definition window_waveforms (source receiver : Trace) (cc_len step : Z)
  : result (Stream * Stream) :=
  let source_slice := collect_windows source cc_len step in
  let receiver_slice := collect_windows receiver cc_len step in
  if (length source_slice =? 0)%nat || (length receiver_slice =? 0)%nat
  then Raise EmptyStream
  else Ok (source_slice, receiver_slice).

End Windower.

(** The loop that fills [to_remove]: the indices [ii] in
    [range(len(source_slice))] at which the two start times differ. *)
Fixpoint find_mismatches (todo : list nat) (source_slice receiver_slice : Stream)
    (to_remove : list nat) : result (list nat) :=
  match todo with
  | [] => Ok to_remove
  | ii :: todo' =>
      s <- py_getitem source_slice (Z.of_nat ii) ;;
      r <- py_getitem receiver_slice (Z.of_nat ii) ;;
      if starttime s =? starttime r
      then find_mismatches todo' source_slice receiver_slice to_remove
      else find_mismatches todo' source_slice receiver_slice (to_remove ++ [ii])
  end.

(** The loop [for ii in to_remove[::-1]] with its two [remove] calls;
    [todo] is the reversed list. *)
Fixpoint remove_each (todo : list nat) (source_slice receiver_slice : Stream)
  : result (Stream * Stream) :=
  match todo with
  | [] => Ok (source_slice, receiver_slice)
  | ii :: todo' =>
      s <- py_getitem source_slice (Z.of_nat ii) ;;
      source_slice' <- stream_remove source_slice s ;;
      r <- py_getitem receiver_slice (Z.of_nat ii) ;;
      receiver_slice' <- stream_remove receiver_slice r ;;
      remove_each todo' source_slice' receiver_slice'
  end.

(** The "delete traces with starttimes that do not match" step of [main]. *)
Definition remove_mismatched (source_slice receiver_slice : Stream)
  : result (Stream * Stream) :=
  to_remove <- find_mismatches (seq 0 (length source_slice))
                 source_slice receiver_slice [] ;;
  if (0 <? length to_remove)%nat
  then remove_each (rev to_remove) source_slice receiver_slice
  else Ok (source_slice, receiver_slice).

(** ** numpy arrays and slices *)

(** An array of rank 1 or 2; a 2-D array is the list of its rows, which all
    have the same length. *)
Inductive ndarray (A : Type) : Type :=
| Arr1 (v : list A)
| Arr2 (m : list (list A)).

Arguments Arr1 {A} v.
Arguments Arr2 {A} m.

(** [a.shape[1]] of a 2-D array. *)
Definition ncols {A : Type} (m : list (list A)) : nat :=
  match m with
  | [] => 0
  | row :: _ => length row
  end.

(** The position that a slice bound [i] denotes in a sequence of [n]
    elements: a negative bound counts from the end, and the result is
    clipped to [0, n]. *)
Definition slice_bound (n : nat) (i : Z) : nat :=
  let j := if i <? 0 then i + Z.of_nat n else i in
  Z.to_nat (Z.max 0 (Z.min j (Z.of_nat n))).

(** [l[start:stop]] *)
Definition py_slice {A : Type} (l : list A) (start stop : Z) : list A :=
  let a := slice_bound (length l) start in
  let b := slice_bound (length l) stop in
  firstn (b - a) (skipn a l).

(** [l[start:]] *)
Definition py_slice_from {A : Type} (l : list A) (start : Z) : list A :=
  skipn (slice_bound (length l) start) l.

(** numpy's broadcasting of two sequences along one axis: equal lengths
    pair up, and a length of 1 stretches. *)
Definition broadcast {A B C : Type} (f : A -> B -> C) (x : list A) (y : list B)
  : result (list C) :=
  if (length x =? length y)%nat then Ok (map (fun p => f (fst p) (snd p)) (combine x y))
  else match x, y with
       | [a], _ => Ok (map (fun b => f a b) y)
       | _, [b] => Ok (map (fun a => f a b) x)
       | _, _ => Raise BroadcastError
       end.

(** All results of a list, or the first exception. *)
Fixpoint sequence {A : Type} (l : list (result A)) : result (list A) :=
  match l with
  | [] => Ok []
  | m :: l' => x <- m ;; rest <- sequence l' ;; Ok (x :: rest)
  end.

(** The same for the two axes of 2-D arrays. *)
Definition broadcast2 {A B C : Type} (f : A -> B -> C)
    (x : list (list A)) (y : list (list B)) : result (list (list C)) :=
  rows <- broadcast (fun r s => broadcast f r s) x y ;;
  sequence rows.

(** An elementwise operation on two arrays; a 1-D operand next to a 2-D
    one is read as a single row. *)
Definition np_binop {A B C : Type} (f : A -> B -> C) (a : ndarray A) (b : ndarray B)
  : result (ndarray C) :=
  match a, b with
  | Arr1 x, Arr1 y => v <- broadcast f x y ;; Ok (Arr1 v)
  | Arr2 x, Arr2 y => m <- broadcast2 f x y ;; Ok (Arr2 m)
  | Arr1 x, Arr2 y => m <- broadcast2 f [x] y ;; Ok (Arr2 m)
  | Arr2 x, Arr1 y => m <- broadcast2 f x [y] ;; Ok (Arr2 m)
  end.

Definition np_map {A B : Type} (f : A -> B) (a : ndarray A) : ndarray B :=
  match a with
  | Arr1 v => Arr1 (map f v)
  | Arr2 m => Arr2 (map (map f) m)
  end.

Definition shape {A : Type} (a : ndarray A) : list nat :=
  match a with
  | Arr1 v => [length v]
  | Arr2 m => [length m; ncols m]
  end.

Definition list_nat_eqb (l1 l2 : list nat) : bool :=
  if list_eq_dec Nat.eq_dec l1 l2 then true else false.

(** An in-place operation [a op= b]: the result must have the shape of [a]. *)
Definition np_inplace {A B : Type} (f : A -> B -> A) (a : ndarray A) (b : ndarray B)
  : result (ndarray A) :=
  r <- np_binop f a b ;;
  if list_nat_eqb (shape r) (shape a) then Ok r else Raise BroadcastError.

(** [l[start:stop] = vals] on one axis of a numpy array. *)
Definition assign_slice {A : Type} (l : list A) (start stop : Z) (vals : list A)
  : result (list A) :=
  let a := slice_bound (length l) start in
  let b := slice_bound (length l) stop in
  let n := (b - a)%nat in
  if (length vals =? n)%nat then Ok (firstn a l ++ vals ++ skipn (a + n) l)
  else match vals with
       | [v] => Ok (firstn a l ++ repeat v n ++ skipn (a + n) l)
       | _ => Raise BroadcastError
       end.

(** [l[start:] = vals] *)
Definition assign_slice_from {A : Type} (l : list A) (start : Z) (vals : list A)
  : result (list A) :=
  assign_slice l start (Z.of_nat (length l)) vals.

(** ** Python strings and floats *)

(** [str(n)] of an integer. *)
Definition string_of_Z (n : Z) : string := NilZero.string_of_int (Z.to_int n).

(** A [float64]: a finite one is the rational number it stands for. The
    sign of a zero is not kept; no comparison below tells the two zeros
    apart. *)
Inductive f64 : Type :=
| Finite (q : Q)
| Inf (negative : bool)
| NaN.

(** The integer nearest to [a / b], a tie going to the even one, for
    [0 <= a] and [0 < b]. *)
Definition div_half_even (a b : Z) : Z :=
  let q := a / b in
  match 2 * (a mod b) ?= b with
  | Lt => q
  | Gt => q + 1
  | Eq => if Z.even q then q else q + 1
  end.

(** The float nearest to a rational, a tie going to the even
    significand: 53 bits from the exponent [e] of the number on, the
    exponent no less than [-1022] (gradual underflow), and infinity from
    [2^1024] on. *)
Definition fl_round (x : Q) : f64 :=
  let n := Z.abs (Qnum x) in
  let d := Z.pos (Qden x) in
  if n =? 0 then Finite 0
  else
    let e0 := Z.log2 n - Z.log2 d in
    let below := if 0 <=? e0 then n <? d * 2 ^ e0 else n * 2 ^ (- e0) <? d in
    let e := Z.max (if below then e0 - 1 else e0) (-1022) in
    let p := e - 52 in
    let m := if 0 <=? p then div_half_even n (d * 2 ^ p)
             else div_half_even (n * 2 ^ (- p)) d in
    let s := if Qnum x <? 0 then -1 else 1 in
    if 0 <=? p then
      if 2 ^ 1024 <=? m * 2 ^ p then Inf (Qnum x <? 0)
      else Finite (inject_Z (s * (m * 2 ^ p)))
    else Finite (Qmake (s * m) (Z.to_pos (2 ^ (- p)))).

(** [float(k)], for the sizes that an array can have: all are far below
    [2^1024]. *)
Definition f64_of_nat (k : nat) : f64 := fl_round (inject_Z (Z.of_nat k)).

(** [a * b] *)
Definition f64_mul (a b : f64) : f64 :=
  match a, b with
  | NaN, _ => NaN
  | _, NaN => NaN
  | Finite x, Finite y => fl_round (x * y)
  | Finite x, Inf s => if Qnum x =? 0 then NaN else Inf (xorb s (Qnum x <? 0))
  | Inf s, Finite x => if Qnum x =? 0 then NaN else Inf (xorb s (Qnum x <? 0))
  | Inf s, Inf s' => Inf (xorb s s')
  end.

(** [1.0 / x] on Python floats: a zero divisor raises. *)
Definition f64_inverse (x : f64) : result f64 :=
  match x with
  | NaN => Ok NaN
  | Inf _ => Ok (Finite 0)
  | Finite q => if Qnum q =? 0 then Raise ZeroDivisionError else Ok (fl_round (/ q))
  end.

(** [a <= b]: false when either is not a number. *)
Definition f64_leb (a b : f64) : bool :=
  match a, b with
  | NaN, _ => false
  | _, NaN => false
  | Inf true, _ => true
  | _, Inf false => true
  | Finite x, Finite y => Qle_bool x y
  | Finite _, Inf true => false
  | Inf false, _ => false
  end.

(** [(f >= freqmin) & (f <= freqmax)], the test that selects the band. *)
Definition in_band (freqmin freqmax : Q) (f : f64) : bool :=
  f64_leb (Finite freqmin) f && f64_leb f (Finite freqmax).

(** ** Floating-point primitives *)

(** The numpy and scipy primitives that the whitener and the correlation
    engine apply to samples and spectral bins. [Re] stands for [float64] and
    [Cx] for [complex128]. *)
Class Numeric : Type := {
  Re : Type;
  Cx : Type;
  (** [0j] *)
  czero : Cx;
  (** [z * 0]: zero for a finite [z], not a number for one that is not *)
  cmul0 : Cx -> Cx;
  (** [z.conjugate()], [np.conj(z)] *)
  cconj : Cx -> Cx;
  (** [z * w] *)
  cmul : Cx -> Cx -> Cx;
  (** [z / x] for a real [x] *)
  cdiv_re : Cx -> Re -> Cx;
  (** [x * z] for a real [x] *)
  cscale : Re -> Cx -> Cx;
  (** [np.real(z)] *)
  creal : Cx -> Re;
  (** [np.abs(z)] *)
  cabs : Cx -> Re;
  (** [np.exp(1j * np.angle(z))] *)
  unit_phase : Cx -> Cx;
  (** entry [j] of [np.cos(np.linspace(np.pi / 2., np.pi, n)) ** 2] *)
  taper_left : nat -> nat -> Re;
  (** entry [j] of [np.cos(np.linspace(0., np.pi / 2., n)) ** 2] *)
  taper_right : nat -> nat -> Re;
  (** [x + y], [x ** 2], [0.01 * x] *)
  radd : Re -> Re -> Re;
  rsquare : Re -> Re;
  rhundredth : Re -> Re;
  (** [np.mean] of one row *)
  rmean : list Re -> Re;
  (** bin [k] of [scipy.fftpack.fft(x, n)] *)
  fft_bin : nat -> list Re -> nat -> Cx;
  (** sample [k] of [scipy.fftpack.ifft(x, n)] *)
  ifft_bin : nat -> list Cx -> nat -> Cx
}.

(** ** [next_fast_len] of scipy: the least [2^a 3^b 5^c] from [target] on *)

Fixpoint strip_factor (fuel p n : nat) : nat :=
  match fuel with
  | O => n
  | S fuel' =>
      if ((n mod p =? 0) && (1 <? n))%nat then strip_factor fuel' p (n / p) else n
  end.

Definition is_fast_len (n : nat) : bool :=
  (strip_factor n 5 (strip_factor n 3 (strip_factor n 2 n)) =? 1)%nat.

Fixpoint search_fast_len (fuel n : nat) : nat :=
  if is_fast_len n then n
  else match fuel with
       | O => n
       | S fuel' => search_fast_len fuel' (S n)
       end.

Definition next_fast_len (target : nat) : nat :=
  if (target <=? 6)%nat then target else search_fast_len target target.

(** ** Spectral whitener: [whiten] *)

Section Whitener.

Context {num : Numeric}.

Definition fft (n : nat) (x : list Re) : list Cx := map (fft_bin n x) (seq 0 n).

(** [np.cos(np.linspace(...)) ** 2] for [n] points; [np.linspace] refuses a
    negative number of points. *)
Definition cos_taper (coeff : nat -> nat -> Re) (n : Z) : result (list Re) :=
  if n <? 0
  then Raise (ValueError ("Number of samples, " ++ string_of_Z n
                          ++ ", must be non-negative.")%string)
  else Ok (map (coeff (Z.to_nat n)) (seq 0 (Z.to_nat n))).

(** The band shaping of one row of the spectrum, statement by statement. *)
Definition shape_band (Nfft : nat) (low left right high : Z) (row : list Cx)
  : result (list Cx) :=
  (* FFTRawSign[0:low] *= 0 *)
  row <- assign_slice row 0 low (map cmul0 (py_slice row 0 low)) ;;
  (* FFTRawSign[low:left] = cos(linspace(pi/2, pi, left - low))**2 * exp(1j*angle(...)) *)
  tl <- cos_taper taper_left (left - low) ;;
  v <- broadcast cscale tl (map unit_phase (py_slice row low left)) ;;
  row <- assign_slice row low left v ;;
  (* FFTRawSign[left:right] = exp(1j*angle(FFTRawSign[left:right])) *)
  row <- assign_slice row left right (map unit_phase (py_slice row left right)) ;;
  (* FFTRawSign[right:high] = cos(linspace(0, pi/2, high - right))**2 * exp(1j*angle(...)) *)
  tr <- cos_taper taper_right (high - right) ;;
  v <- broadcast cscale tr (map unit_phase (py_slice row right high)) ;;
  row <- assign_slice row right high v ;;
  (* FFTRawSign[high:Nfft + 1] *= 0 *)
  assign_slice row high (Z.of_nat Nfft + 1)
    (map cmul0 (py_slice row high (Z.of_nat Nfft + 1))).

(** [FFTRawSign[-(Nfft // 2) + 1:] = FFTRawSign[1:(Nfft // 2)].conjugate()[::-1]]
    on a 1-D spectrum: [[::-1]] reverses the bins. *)
Definition hermitian_1d (Nfft : nat) (row : list Cx) : result (list Cx) :=
  let h := Z.of_nat (Nfft / 2) in
  assign_slice_from row (- h + 1) (rev (map cconj (py_slice row 1 h))).

(** [FFTRawSign[:,-(Nfft // 2) + 1:] = FFTRawSign[:,1:(Nfft // 2)].conjugate()[::-1]]
    on a 2-D spectrum: [[::-1]] indexes the first axis, so it reverses the
    order of the rows and leaves the bins of each row in place. *)
Definition hermitian_2d (Nfft : nat) (rows : list (list Cx))
  : result (list (list Cx)) :=
  let h := Z.of_nat (Nfft / 2) in
  let rhs := rev (map (fun row => map cconj (py_slice row 1 h)) rows) in
  sequence (map (fun p => assign_slice_from (fst p) (- h + 1) (snd p))
                (combine rows rhs)).

(** [val = 1.0 / (n * d)] of [fftfreq]: the spacing of the frequencies.
    The division raises [ZeroDivisionError] when [n * d] is zero. *)
Definition grid_spacing (Nfft : nat) (delta : Q) : result f64 :=
  f64_inverse (f64_mul (f64_of_nat Nfft) (Finite delta)).

(** [scipy.fftpack.fftfreq(Nfft, d=delta)[:Nfft // 2]]: the first
    [n // 2] entries of [results * val] are [k * val] for [k = 0, 1, ...],
    each product rounded to a float. *)
Definition freqVec (Nfft : nat) (delta : Q) : result (list f64) :=
  val <- grid_spacing Nfft delta ;;
  Ok (map (fun k => f64_mul (f64_of_nat k) val) (seq 0 (Nfft / 2))).

Definition whiten (data : ndarray Re) (delta freqmin freqmax : Q)
    (to_whiten : bool) (Nfft : option nat) : result (ndarray Cx) :=
  let shape_axis := match data with Arr1 v => length v | Arr2 m => ncols m end in
  let Nfft := match Nfft with Some n => n | None => next_fast_len shape_axis end in
  freqs <- freqVec Nfft delta ;;
  let J := np_where (map (in_band freqmin freqmax) freqs) in
  J0 <- py_getitem J 0 ;;
  let low := Z.of_nat J0 - 100 in
  let low := if low <=? 0 then 1 else low in
  let left := Z.of_nat J0 in
  Jlast <- py_getitem J (-1) ;;
  let right := Z.of_nat Jlast in
  let high := Z.of_nat Jlast + 100 in
  let high := if Z.of_nat Nfft <? 2 * high then Z.of_nat (Nfft / 2) else high in
  if (Nfft =? 0)%nat
  then Raise (ValueError "Invalid number of FFT data points (0) specified"%string)
  else
  match data with
  | Arr2 rows =>
      let FFTRawSign := map (fft Nfft) rows in
      if to_whiten then
        shaped <- sequence (map (shape_band Nfft low left right high) FFTRawSign) ;;
        out <- hermitian_2d Nfft shaped ;;
        Ok (Arr2 out)
      else Ok (Arr2 FFTRawSign)
  | Arr1 v =>
      let FFTRawSign := fft Nfft v in
      if to_whiten then
        shaped <- shape_band Nfft low left right high FFTRawSign ;;
        out <- hermitian_1d Nfft shaped ;;
        Ok (Arr1 out)
      else Ok (Arr1 FFTRawSign)
  end.

End Whitener.

(** ** Correlation engine: [correlate] *)

(** [np.round] of a float: to the nearest integer, ties to the even one. *)
Definition np_round (q : Q) : Z :=
  let f := Qfloor q in
  match (q - inject_Z f ?= 1 # 2)%Q with
  | Lt => f
  | Gt => f + 1
  | Eq => if Z.even f then f else f + 1
  end.

(** [np.arange(start, stop)] on integers. *)
Definition arange (start stop : Z) : list Z :=
  map (fun k => start + Z.of_nat k) (seq 0 (Z.to_nat (stop - start))).

(** [np.concatenate((corr[-Nt//2 + 1:], corr[:Nt//2 + 1]))] along the lag
    axis; [-Nt//2] is the floor of [-Nt/2]. *)
Definition recenter {X : Type} (Nt : nat) (corr : list X) : list X :=
  py_slice_from corr ((- Z.of_nat Nt) / 2 + 1)
  ++ py_slice corr 0 (Z.of_nat Nt / 2 + 1).

(** [ind = np.where(np.abs(tcorr) <= maxlag)[0]] for
    [tcorr = np.arange(-Nt//2 + 1, Nt//2)]. *)
Definition lag_index (Nt : nat) (maxlag : Z) : list nat :=
  let tcorr := arange ((- Z.of_nat Nt) / 2 + 1) (Z.of_nat Nt / 2) in
  np_where (map (fun t => Z.abs t <=? maxlag) tcorr).

(** Re-centering and truncation along the lag axis. *)
Definition lag_window {X : Type} (Nt : nat) (maxlag : Z) (corr : list X)
  : result (list X) :=
  np_take (recenter Nt corr) (lag_index Nt maxlag).

(** The last [m] samples of [corr] followed by its first [m + 1]: the lags
    [-m, ..., m] of a circular correlation, lag 0 in the middle. *)
Definition centered_lags {X : Type} (m : nat) (corr : list X) : list X :=
  skipn (length corr - m) corr ++ firstn (m + 1) corr.

Section CorrelationEngine.

Context {num : Numeric}.

(** Modelled from the spec: [noise.smooth(x, half_win=...)] belongs to the
    [noise] package and not to [compute_cc.py]; the specification says of
    it that it smooths a magnitude spectrum over a half-window of bins. It
    is a parameter acting on one row of bins, and on a 2-D array row by
    row. *)
Variable smooth : list Re -> nat -> list Re.

Definition np_smooth (a : ndarray Re) (half_win : nat) : ndarray Re :=
  match a with
  | Arr1 v => Arr1 (smooth v half_win)
  | Arr2 m => Arr2 (map (fun row => smooth row half_win) m)
  end.

(** [np.mean(a, axis=1)]: a 1-D array has no axis 1. *)
Definition mean_axis1 (a : ndarray Re) : result (list Re) :=
  match a with
  | Arr1 _ => Raise AxisError
  | Arr2 m => Ok (map rmean m)
  end.

(** [x[:, np.newaxis]] *)
Definition column {A : Type} (x : list A) : ndarray A :=
  Arr2 (map (fun v => [v]) x).

(** [0.01 * np.mean(noise.smooth(np.abs(f), half_win=20), axis=1)[:, np.newaxis]] *)
Definition regulariser (f : ndarray Cx) : result (ndarray Re) :=
  m <- mean_axis1 (np_smooth (np_map cabs f) 20) ;;
  Ok (np_map rhundredth (column m)).

(** The divisor of the ['deconv'] branch, as the source computes it:
    [noise.smooth(np.abs(fft2), half_win=20) ** 2
       + 0.01 * np.mean(noise.smooth(np.abs(fft1), half_win=20), axis=1)[:, np.newaxis]]. *)
Definition deconv_divisor (fft1 fft2 : ndarray Cx) : result (ndarray Re) :=
  let power := np_map rsquare (np_smooth (np_map cabs fft2) 20) in
  reg <- regulariser fft1 ;;
  np_binop radd power reg.

(** The divisor of the ['deconv'] branch, in the words of the specification:
    the smoothed squared magnitude of the second spectrum plus 1% of that
    spectrum's row-mean smoothed magnitude. *)
Definition deconv_divisor_spec (fft2 : ndarray Cx) : result (ndarray Re) :=
  let power := np_map rsquare (np_smooth (np_map cabs fft2) 20) in
  reg <- regulariser fft2 ;;
  np_binop radd power reg.

(** A divisor of the ['coherence'] branch:
    [noise.smooth(np.abs(f), half_win=20)
       + 0.01 * np.mean(noise.smooth(np.abs(f), half_win=20), axis=1)[:, np.newaxis]]. *)
Definition coherence_divisor (f : ndarray Cx) : result (ndarray Re) :=
  let amplitude := np_smooth (np_map cabs f) 20 in
  reg <- regulariser f ;;
  np_binop radd amplitude reg.

Definition ifft (n : nat) (x : list Cx) : list Cx := map (ifft_bin n x) (seq 0 n).

Definition transpose (m : list (list Cx)) : list (list Cx) :=
  map (fun j => map (fun row => nth j row czero) m) (seq 0 (ncols m)).

(** [scipy.fftpack.ifft(corr, Nfft, axis=axis)], where [axis] is 1 when
    [along_rows] holds and 0 otherwise. *)
Definition ifft_axis (along_rows : bool) (Nfft : nat) (corr : ndarray Cx)
  : result (ndarray Cx) :=
  if (Nfft =? 0)%nat
  then Raise (ValueError "Invalid number of FFT data points (0) specified"%string)
  else match corr with
       | Arr1 v => if along_rows then Raise AxisError else Ok (Arr1 (ifft Nfft v))
       | Arr2 m =>
           if along_rows then Ok (Arr2 (map (ifft Nfft) m))
           else Ok (Arr2 (transpose (map (ifft Nfft) (transpose m))))
       end.

Definition correlate (fft1 fft2 : ndarray Cx) (maxlag : Q) (Nfft : option nat)
    (method : string) : result (ndarray Re) :=
  (* axis = 0 for a 1-D fft1 and 1 for a 2-D one *)
  let along_rows := match fft1 with Arr1 _ => false | Arr2 _ => true end in
  let Nt := match fft1 with Arr1 v => length v | Arr2 m => ncols m end in
  let Nfft := match Nfft with Some n => n | None => next_fast_len Nt end in
  let maxlag := np_round maxlag in
  corr <- np_binop cmul fft1 (np_map cconj fft2) ;;
  corr <-
    (if String.eqb method "deconv" then
       d <- deconv_divisor fft1 fft2 ;;
       np_inplace cdiv_re corr d
     else if String.eqb method "coherence" then
       d1 <- coherence_divisor fft1 ;;
       corr <- np_inplace cdiv_re corr d1 ;;
       d2 <- coherence_divisor fft2 ;;
       np_inplace cdiv_re corr d2
     else Ok corr) ;;
  corr <- ifft_axis along_rows Nfft corr ;;
  let corr := np_map creal corr in
  match corr with
  | Arr2 m =>
      if along_rows then
        rows <- sequence (map (lag_window Nt maxlag) m) ;;
        Ok (Arr2 rows)
      else
        m' <- lag_window Nt maxlag m ;;
        Ok (Arr2 m')
  | Arr1 v =>
      if along_rows then Raise IndexError
      else
        v' <- lag_window Nt maxlag v ;;
        Ok (Arr1 v')
  end.

(** [correlate] up to its inverse transform:
    [np.real(scipy.fftpack.ifft(corr, Nfft, axis=axis))], where [corr] is
    [fft1 * np.conj(fft2)] after the division that the method asks for. *)
Definition inverse_transform (fft1 fft2 : ndarray Cx) (Nfft : option nat)
    (method : string) : result (ndarray Re) :=
  let along_rows := match fft1 with Arr1 _ => false | Arr2 _ => true end in
  let Nt := match fft1 with Arr1 v => length v | Arr2 m => ncols m end in
  let Nfft := match Nfft with Some n => n | None => next_fast_len Nt end in
  corr <- np_binop cmul fft1 (np_map cconj fft2) ;;
  corr <-
    (if String.eqb method "deconv" then
       d <- deconv_divisor fft1 fft2 ;;
       np_inplace cdiv_re corr d
     else if String.eqb method "coherence" then
       d1 <- coherence_divisor fft1 ;;
       corr <- np_inplace cdiv_re corr d1 ;;
       d2 <- coherence_divisor fft2 ;;
       np_inplace cdiv_re corr d2
     else Ok corr) ;;
  corr <- ifft_axis along_rows Nfft corr ;;
  Ok (np_map creal corr).

End CorrelationEngine.

(** ** The primitives in exact arithmetic

    [float64] read as the real numbers and [complex128] as pairs of reals:
    the instance of [Numeric] in which the examples below are evaluated. *)

Definition RC : Type := (R * R)%type.

Definition RC_zero : RC := (0, 0)%R.
Definition RC_add (z w : RC) : RC := (fst z + fst w, snd z + snd w)%R.
Definition RC_conj (z : RC) : RC := (fst z, - snd z)%R.
Definition RC_mul (z w : RC) : RC :=
  (fst z * fst w - snd z * snd w, fst z * snd w + snd z * fst w)%R.
Definition RC_div_re (z : RC) (x : R) : RC := (fst z / x, snd z / x)%R.
Definition RC_scale (x : R) (z : RC) : RC := (x * fst z, x * snd z)%R.
Definition RC_abs (z : RC) : R := sqrt (fst z * fst z + snd z * snd z).

(** [exp(1j * angle(z))] is [z / |z|], and 1 at [z = 0], where the angle is 0. *)
Definition RC_unit_phase (z : RC) : RC :=
  if Req_dec_T (RC_abs z) 0 then (1, 0)%R
  else (fst z / RC_abs z, snd z / RC_abs z)%R.

(** [exp(1j * theta)] *)
Definition RC_cis (theta : R) : RC := (cos theta, sin theta).

(** Entry [j] of [np.linspace(a, b, n)]. *)
Definition linspace (a b : R) (n j : nat) : R :=
  if (n =? 1)%nat then a
  else (a + IZR (Z.of_nat j) * ((b - a) / IZR (Z.of_nat n - 1)))%R.

Definition cos2 (x : R) : R := (cos x * cos x)%R.

Definition R_mean (l : list R) : R :=
  (fold_right Rplus 0 l / IZR (Z.of_nat (length l)))%R.

Definition RC_sum (l : list RC) : RC := fold_right RC_add RC_zero l.

(** The discrete Fourier transform of [x], cut or zero-padded to [n]
    samples: [y[k] = sum_j x[j] * exp(-2 pi 1j * j * k / n)]. *)
Definition R_fft_bin (n : nat) (x : list R) (k : nat) : RC :=
  RC_sum (map (fun j =>
                 RC_scale (nth j x 0%R)
                   (RC_cis (- (2 * PI * IZR (Z.of_nat j) * IZR (Z.of_nat k)
                               / IZR (Z.of_nat n)))%R))
              (seq 0 n)).

(** Its inverse: [x[k] = 1/n * sum_j y[j] * exp(2 pi 1j * j * k / n)]. *)
Definition R_ifft_bin (n : nat) (y : list RC) (k : nat) : RC :=
  RC_div_re
    (RC_sum (map (fun j =>
                    RC_mul (nth j y RC_zero)
                      (RC_cis (2 * PI * IZR (Z.of_nat j) * IZR (Z.of_nat k)
                               / IZR (Z.of_nat n))%R))
                 (seq 0 n)))
    (IZR (Z.of_nat n)).

#[export] Instance real_numeric : Numeric := {|
  Re := R;
  Cx := RC;
  czero := RC_zero;
  cmul0 := fun _ => RC_zero;
  cconj := RC_conj;
  cmul := RC_mul;
  cdiv_re := RC_div_re;
  cscale := RC_scale;
  creal := fst;
  cabs := RC_abs;
  unit_phase := RC_unit_phase;
  taper_left := fun n j => cos2 (linspace (PI / 2) PI n j);
  taper_right := fun n j => cos2 (linspace 0 (PI / 2) n j);
  radd := Rplus;
  rsquare := fun x => (x * x)%R;
  rhundredth := fun x => (x / 100)%R;
  rmean := R_mean;
  fft_bin := R_fft_bin;
  ifft_bin := R_ifft_bin
|}.

(** A smoothing kernel for the examples: the mean of the bins within
    [half_win] of each bin, the window cut at both ends of the row. *)
Definition boxcar_smooth {num : Numeric} (row : list Re) (half_win : nat) : list Re :=
  map (fun k =>
         rmean (firstn (Nat.min (length row) (k + half_win + 1) - (k - half_win))
                  (skipn (k - half_win) row)))
      (seq 0 (length row)).

(** ** Predicates of the specification *)

(** The test of the zero-trace stage, [tr.data.max() == 0], on a trace
    that holds samples. *)
Definition has_zero_max (tr : Trace) : bool :=
  match np_max (data tr) with
  | Ok m => m =? 0
  | Raise _ => false
  end.

(** [i] is an index of [l] as Python reads it, negative ones included. *)
Definition valid_index {A : Type} (l : list A) (i : Z) : Prop :=
  - Z.of_nat (length l) <= i < Z.of_nat (length l).

(** A gap that the repair loop leaves to the zero-filling merge. *)
Definition oversized (g : Gap) : Prop := max_gap < gap_samples g.


Definition is_2d {A : Type} (a : ndarray A) : bool :=
  match a with Arr1 _ => false | Arr2 _ => true end.

(** [a.shape[axis]] as [correlate] reads it from [fft1]. *)
Definition lag_axis_size {A : Type} (a : ndarray A) : nat :=
  match a with Arr1 v => length v | Arr2 m => ncols m end.

(** The number of points of the transform: [Nfft] when given, else
    [next_fast_len] of the size of the data along the transform axis. *)
Definition fft_size {A : Type} (data : ndarray A) (Nfft : option nat) : nat :=
  match Nfft with
  | Some n => n
  | None => next_fast_len (lag_axis_size data)
  end.

(** [out] holds, along the lag axis, the lags [-m, ..., m] of [corr] with
    lag 0 in the middle: axis 1 when [along_rows] holds, axis 0
    otherwise. *)
Definition centred_on_zero_lag {X : Type} (along_rows : bool) (m : nat)
    (corr out : ndarray X) : Prop :=
  match corr, out with
  | Arr1 c, Arr1 o => o = centered_lags m c
  | Arr2 c, Arr2 o =>
      if along_rows then o = map (centered_lags m) c else o = centered_lags m c
  | _, _ => False
  end.

(** The array that [correlate] returns has the given size along the lag
    axis: axis 1 when [fft1] is 2-D, axis 0 otherwise. *)
Definition lag_axis_length {A : Type} (along_rows : bool) (out : ndarray A) (n : nat)
  : Prop :=
  match out with
  | Arr1 v => length v = n
  | Arr2 m => if along_rows then Forall (fun row => length row = n) m
              else length m = n
  end.

(** Two spectra of one shape: both 1-D of the same length, or both 2-D with
    the same number of rows, all of them of the same length. *)
Definition same_shape {A B : Type} (a : ndarray A) (b : ndarray B) : Prop :=
  match a, b with
  | Arr1 x, Arr1 y => length x = length y
  | Arr2 x, Arr2 y =>
      length x = length y /\
      Forall (fun row => length row = ncols x) x /\
      Forall (fun row => length row = ncols x) y
  | _, _ => False
  end.

(** Conjugate symmetry of a spectrum of [Nfft] bins, row by row: bin [k] is
    the conjugate of bin [Nfft - k] for [k] in [1, Nfft/2). *)
Definition hermitian_row {num : Numeric} (Nfft : nat) (row : list Cx) : Prop :=
  forall k, (1 <= k < Nfft / 2)%nat ->
            nth k row czero = cconj (nth (Nfft - k) row czero).

Definition hermitian {num : Numeric} (Nfft : nat) (spectrum : ndarray Cx) : Prop :=
  match spectrum with
  | Arr1 row => hermitian_row Nfft row
  | Arr2 rows => Forall (hermitian_row Nfft) rows
  end.

(** ** Example data

    Concrete traces, spectra and stand-ins for the helpers that are
    parameters above, on which the examples and the instances of the
    theorems are evaluated. *)

(** A trace of non-positive samples, one of them zero. *)
Definition dipping_trace : Trace :=
  mkTrace "XX"%string "STA"%string "BHZ"%string 50000000 0 [-5; 0; -3].

(** The time of the last sample of a trace. *)
Definition trace_end (tr : Trace) : Z :=
  starttime tr + (Z.of_nat (length (data tr)) - 1) * delta tr.

(** The samples missing between the end of [a] and the start of [b]. *)
Definition samples_between (a b : Trace) : Z :=
  (starttime b - trace_end a) / delta a - 1.

(** A gap detector: for each pair of neighbouring traces, the samples
    missing between them, when there are some. *)
Fixpoint adjacent_gaps_from (i : Z) (st : Stream) : list Gap :=
  match st with
  | [] => []
  | a :: rest =>
      match rest with
      | [] => []
      | b :: _ =>
          (if 0 <? samples_between a b
           then [mkGap i (i + 1) (samples_between a b)] else [])
          ++ adjacent_gaps_from (i + 1) rest
      end
  end.

Definition adjacent_gaps (st : Stream) : list Gap := adjacent_gaps_from 0 st.

(** A trace join: the second trace appended to the first, the gap filled
    with the last sample of the first. *)
Definition join_traces (a b : Trace) : result Trace :=
  Ok (mkTrace (network a) (station a) (channel a) (delta a) (starttime a)
        (data a ++ repeat (last (data a) 0) (Z.to_nat (samples_between a b))
                ++ data b)).

(** A stage that returns the stream as it is. *)
Definition identity_stage (st : Stream) : result Stream := Ok st.

(** Two fragments of one recording, five samples apart. *)
Definition fragment_a : Trace :=
  mkTrace "XX"%string "STA"%string "BHZ"%string 1 0 [1; 2; 3].

Definition fragment_b : Trace :=
  mkTrace "XX"%string "STA"%string "BHZ"%string 1 8 [4; 5].

(** A sliding-window model: the windows of [window_times] over the span of
    the trace, each holding the samples from its start on. *)
Definition example_slide (tr : Trace) (cc_len step : Z) : list Trace :=
  match window_times (starttime tr) (trace_end tr) cc_len step with
  | Ok (starts, _) =>
      map (fun s =>
             mkTrace (network tr) (station tr) (channel tr) (delta tr) s
               (firstn (Z.to_nat (cc_len * ns_per_s / delta tr + 1))
                  (skipn (Z.to_nat ((s - starttime tr) / delta tr)) (data tr))))
          starts
  | Raise _ => []
  end.

(** Two hours of one sample every ten minutes. *)
Definition two_hours : Trace :=
  mkTrace "XX"%string "STA"%string "BHZ"%string (600 * ns_per_s) 0
    (map Z.of_nat (seq 1 13)).

(** A one-hour window that starts at second [s], with two samples [x], [y]. *)
Definition window_at (s x y : Z) : Trace :=
  mkTrace "XX"%string "STA"%string "BHZ"%string (3600 * ns_per_s)
    (s * ns_per_s) [x; y].

(** One frame of eight bins. *)
Definition spectrum8 : ndarray RC :=
  Arr2 [[(1, 0); (0, 1); (-1, 0); (0, -1); (1, 0); (0, 1); (-1, 0); (0, -1)]%R].

(** ** Python strings *)

(** [s[-1]], when [s] is not empty. *)
Fixpoint str_last (s : string) : option ascii :=
  match s with
  | EmptyString => None
  | String c EmptyString => Some c
  | String _ s' => str_last s'
  end.

(** [s[:-1]] *)
Fixpoint str_init (s : string) : string :=
  match s with
  | EmptyString => EmptyString
  | String _ EmptyString => EmptyString
  | String c s' => String c (str_init s')
  end.

(** ** Channel renaming: [xyz_to_zne] *)

(** The trace [tr] after [tr.stats.channel = chan]. *)
Definition set_channel (tr : Trace) (chan : string) : Trace :=
  mkTrace (network tr) (station tr) chan (delta tr) (starttime tr) (data tr).

(** The body of the loop on one channel code: [chan[-1]] raises
    [IndexError] on an empty code. *)
Definition zne_channel (chan : string) : result string :=
  match str_last chan with
  | None => Raise IndexError
  | Some c =>
      if Ascii.eqb c "X" then Ok (str_init chan ++ "E")%string
      else if Ascii.eqb c "Y" then Ok (str_init chan ++ "N")%string
      else Ok chan
  end.

Fixpoint xyz_to_zne (st : Stream) : result Stream :=
  match st with
  | [] => Ok []
  | tr :: st' =>
      chan <- zne_channel (channel tr) ;;
      rest <- xyz_to_zne st' ;;
      Ok (set_channel tr chan :: rest)
  end.

(** [s.split(sep)] for a separator of one character: always at least one
    piece. *)
Fixpoint str_split (sep : ascii) (s : string) : list string :=
  match s with
  | EmptyString => [EmptyString]
  | String c s' =>
      if Ascii.eqb c sep then EmptyString :: str_split sep s'
      else match str_split sep s' with
           | [] => [String c EmptyString]
           | w :: ws => String c w :: ws
           end
  end.

(** [sep not in s] *)
Fixpoint str_free (sep : ascii) (s : string) : bool :=
  match s with
  | EmptyString => true
  | String c s' => negb (Ascii.eqb c sep) && str_free sep s'
  end.

(** [sep.join(l)] *)
Fixpoint str_join (sep : string) (l : list string) : string :=
  match l with
  | [] => EmptyString
  | w :: l' =>
      match l' with
      | [] => w
      | _ :: _ => (w ++ sep ++ str_join sep l')%string
      end
  end.

(** ** Station pairs by distance: [filter_dist] *)

(** ['.'.join(path.split('/')[-3:-1])]: the network and station directories
    of the path of a waveform file. *)
Definition station_key (path : string) : string :=
  str_join "." (py_slice (str_split "/" path) (-3) (-1)).

(** [a < b] on floats. *)
Definition Qlt_bool (a b : Q) : bool := negb (Qle_bool b a).

Section FilterDist.

(** A row of the station table. *)
Variable Loc : Type.
(** [locs.loc[key]] of pandas, which raises for a key that is not there. *)
Variable locs_loc : string -> result Loc.
(** [noise.calc_distance(loc1, loc2)]: distance in km, azimuth and back
    azimuth. *)
Variable calc_distance : Loc -> Loc -> result (Q * Q * Q).

(** The distance looked up for one pair of paths. *)
Definition pair_distance (pr : string * string) : result Q :=
  let netsta1 := station_key (fst pr) in
  let netsta2 := station_key (snd pr) in
  loc1 <- locs_loc netsta1 ;;
  loc2 <- locs_loc netsta2 ;;
  dab <- calc_distance loc1 loc2 ;;
  Ok (fst (fst dab)).

(** The loop of [filter_dist], [new_pairs] being the list built so far. *)
Fixpoint filter_dist_loop (pairs new_pairs : list (string * string))
    (min_dist max_dist : Q) : result (list (string * string)) :=
  match pairs with
  | [] => Ok new_pairs
  | pr :: pairs' =>
      dist <- pair_distance pr ;;
      if Qlt_bool min_dist dist && Qlt_bool dist max_dist
      then filter_dist_loop pairs' (new_pairs ++ [pr]) min_dist max_dist
      else filter_dist_loop pairs' new_pairs min_dist max_dist
  end.

Definition filter_dist (pairs : list (string * string)) (min_dist max_dist : Q)
  : result (list (string * string)) :=
  filter_dist_loop pairs [] min_dist max_dist.

(** The test of [filter_dist] on one pair, false when the lookup raises. *)
Definition within_distance (min_dist max_dist : Q) (pr : string * string) : bool :=
  match pair_distance pr with
  | Ok dist => Qlt_bool min_dist dist && Qlt_bool dist max_dist
  | Raise _ => false
  end.

End FilterDist.

(** ** Header dictionaries: [stats_to_dict], [cross_corr_parameters] *)

(** The values that the parameter dictionary holds. *)
Inductive pyval : Type :=
| PStr (s : string)
| PInt (z : Z)
| PFloat (x : Q)
| PArray (a : list Q).

(** A Python [dict] with string keys: its items in insertion order, no key
    twice. *)
Definition pydict : Type := list (string * pyval).

(** [d[k] = v]: a key that is there keeps its place and takes the new
    value; a new key goes to the end. *)
Fixpoint dict_set (d : pydict) (k : string) (v : pyval) : pydict :=
  match d with
  | [] => [(k, v)]
  | (k', v') :: d' =>
      if String.eqb k' k then (k', v) :: d'
      else (k', v') :: dict_set d' k v
  end.

(** [d.update(other)], and a dictionary display [{k1: v1, ...}], which
    sets its items one after the other. *)
Definition dict_update (d other : pydict) : pydict :=
  fold_left (fun acc kv => dict_set acc (fst kv) (snd kv)) other d.

Definition dict_display (items : list (string * pyval)) : pydict :=
  dict_update [] items.

(** [d.get(k)] *)
Fixpoint dict_get (d : pydict) (k : string) : option pyval :=
  match d with
  | [] => None
  | (k', v) :: d' => if String.eqb k' k then Some v else dict_get d' k
  end.

(** The header entries of a trace that [stats_to_dict] reads: [delta] in
    seconds, [npts] and [sampling_rate], which obspy keeps at [1 / delta]. *)
Definition stats_delta (stats : Trace) : Q := inject_Z (delta stats) / inject_Z ns_per_s.
Definition stats_npts (stats : Trace) : Z := Z.of_nat (length (data stats)).
Definition stats_sampling_rate (stats : Trace) : Q :=
  inject_Z ns_per_s / inject_Z (delta stats).

(** ['{}_network'.format(stat_type)] and the like are [stat_type] followed
    by the field name. *)
Definition stats_to_dict (stats : Trace) (stat_type : string) : pydict :=
  dict_display
    [ ((stat_type ++ "_network")%string, PStr (network stats));
      ((stat_type ++ "_station")%string, PStr (station stats));
      ((stat_type ++ "_channel")%string, PStr (channel stats));
      ((stat_type ++ "_delta")%string, PFloat (stats_delta stats));
      ((stat_type ++ "_npts")%string, PInt (stats_npts stats));
      ((stat_type ++ "_sampling_rate")%string, PFloat (stats_sampling_rate stats)) ].

(** [a[:, j]] of a 2-D array. *)
Fixpoint np_column {A : Type} (a : list (list A)) (j : nat) : result (list A) :=
  match a with
  | [] => Ok []
  | row :: a' =>
      match nth_error row j with
      | Some x => rest <- np_column a' j ;; Ok (x :: rest)
      | None => Raise IndexError
      end
  end.

(** [t - obspy.UTCDateTime(1970,1,1)] as a float: seconds since the epoch. *)
Definition epoch_seconds (t : UTCDateTime) : Q := inject_Z t / inject_Z ns_per_s.

Section CrossCorrParameters.

Variable Loc : Type.
(** [locs.ix[key]] of pandas *)
Variable locs_ix : string -> result Loc.
Variable calc_distance : Loc -> Loc -> result (Q * Q * Q).

Definition cross_corr_parameters (source receiver : Trace)
    (start_end_t : list (list UTCDateTime))
    (source_params receiver_params : list (list Q)) (maxlag : pyval)
  : result pydict :=
  source_loc <- locs_ix (network source ++ "." ++ station source)%string ;;
  receiver_loc <- locs_ix (network receiver ++ "." ++ station receiver)%string ;;
  dab <- calc_distance source_loc receiver_loc ;;
  let dist := fst (fst dab) in
  let azi := snd (fst dab) in
  let baz := snd dab in
  source_mad <- np_column source_params 0 ;;
  source_std <- np_column source_params 1 ;;
  source_nonzero <- np_column source_params 2 ;;
  receiver_mad <- np_column receiver_params 0 ;;
  receiver_std <- np_column receiver_params 1 ;;
  receiver_nonzero <- np_column receiver_params 2 ;;
  starttime <- np_column start_end_t 0 ;;
  let starttime := map epoch_seconds starttime in
  endtime <- np_column start_end_t 1 ;;
  let endtime := map epoch_seconds endtime in
  let source := stats_to_dict source "source" in
  let receiver := stats_to_dict receiver "receiver" in
  let parameters :=
    dict_display
      [ ("source_mad"%string, PArray source_mad);
        ("source_std"%string, PArray source_std);
        ("source_nonzero"%string, PArray source_nonzero);
        ("receiver_mad"%string, PArray receiver_mad);
        ("receiver_std"%string, PArray receiver_std);
        ("receiver_nonzero"%string, PArray receiver_nonzero);
        ("dist"%string, PFloat dist);
        ("azi"%string, PFloat azi);
        ("baz"%string, PFloat baz);
        ("lag"%string, maxlag);
        ("starttime"%string, PArray starttime);
        ("endtime"%string, PArray endtime) ] in
  let parameters := dict_update parameters source in
  let parameters := dict_update parameters receiver in
  Ok parameters.

End CrossCorrParameters.

(** ** The common span of the two traces in [main] *)

(** "Trim data to identical times": both pairs of time stamps are put on
    the grid, the later start and the earlier end are taken, and a start
    after the end raises. *)
Definition common_span (half_up : Z -> bool) (t1 t2 t3 t4 : UTCDateTime) (step : Z)
  : result (UTCDateTime * UTCDateTime) :=
  '(t1, t3) <- nearest_step half_up t1 t3 step ;;
  '(t2, t4) <- nearest_step half_up t2 t4 step ;;
  let t1 := if utc_ltb t1 t3 then t3 else t1 in
  let t2 := if utc_ltb t4 t2 then t4 else t2 in
  if utc_ltb t2 t1 then Raise InvalidTimeRange else Ok (t1, t2).

(** ** Whitener and correlation: sizes and lags *)

(** [fft1 * np.conj(fft2)] on two rows of bins. *)
Definition cross_spectrum {num : Numeric} (r s : list Cx) : list Cx :=
  map (fun q => cmul (fst q) (cconj (snd q))) (combine r s).

(** A 2-D array of [r] rows and [c] columns. *)
Definition has_shape {A : Type} (r c : nat) (m : list (list A)) : Prop :=
  length m = r /\ Forall (fun row => length row = c) m.

(** ** The sample matrix of [process_cc] *)

(** [data[ii, 0:npts[ii]] = trace.data] for every trace, on rows of [Nt]
    zeros. *)
Fixpoint fill_rows {A : Type} (zero : A) (Nt : nat) (traces : list (list A))
  : result (list (list A)) :=
  match traces with
  | [] => Ok []
  | d :: traces' =>
      row <- assign_slice (repeat zero Nt) 0 (Z.of_nat (length d)) d ;;
      rows <- fill_rows zero Nt traces' ;;
      Ok (row :: rows)
  end.

(** [Nt = np.max(npts)], [data = np.zeros([N, Nt])] and the loop that
    fills it, [traces] being the samples of the windows of the stream. *)
Definition sample_matrix {A : Type} (zero : A) (traces : list (list A))
  : result (list (list A)) :=
  let npts := map (fun d => Z.of_nat (length d)) traces in
  Nt <- np_max npts ;;
  fill_rows zero (Z.to_nat Nt) traces.

(** The length of the longest of [traces]. *)
Definition longest {A : Type} (traces : list (list A)) : nat :=
  fold_right Nat.max 0%nat (map (@length A) traces).

(** One frame of eight samples, a pulse. *)
Definition one_frame : list R := [1; 0; 0; 0; 0; 0; 0; 0]%R.

(** What [whiten] returns for [one_frame] at 1 Hz between 0.1 and 0.3 Hz,
    bin by bin. *)
Definition one_frame_whitened : list RC :=
  let X := R_fft_bin 8 one_frame in
  let t := fun j => cos2 (linspace 0 (PI / 2) 2 j) in
  [ RC_zero;
    RC_unit_phase (X 1%nat);
    RC_scale (t 0%nat) (RC_unit_phase (X 2%nat));
    RC_scale (t 1%nat) (RC_unit_phase (X 3%nat));
    RC_zero;
    RC_conj (RC_scale (t 1%nat) (RC_unit_phase (X 3%nat)));
    RC_conj (RC_scale (t 0%nat) (RC_unit_phase (X 2%nat)));
    RC_conj (RC_unit_phase (X 1%nat)) ].

(** ** Further example data *)

(** Three components of one station, named by axis. *)
Definition xyz_stream : Stream :=
  [ mkTrace "XX"%string "STA"%string "BHX"%string 1 0 [1; 2];
    mkTrace "XX"%string "STA"%string "BHY"%string 1 0 [3; 4];
    mkTrace "XX"%string "STA"%string "BHZ"%string 1 0 [5; 6] ].

(** The same three components, named by direction. *)
Definition zne_stream : Stream :=
  [ mkTrace "XX"%string "STA"%string "BHE"%string 1 0 [1; 2];
    mkTrace "XX"%string "STA"%string "BHN"%string 1 0 [3; 4];
    mkTrace "XX"%string "STA"%string "BHZ"%string 1 0 [5; 6] ].

(** A station table of three stations on a plane, in km. *)
Definition example_locs (key : string) : result (Q * Q) :=
  if String.eqb key "XX.STA" then Ok (0, 0)%Q
  else if String.eqb key "XX.STB" then Ok (3, 4)%Q
  else if String.eqb key "XX.STC" then Ok (30, 40)%Q
  else Raise (ValueError "station not in table"%string).

(** A distance for the examples: the sum of the offsets along the two
    axes, with azimuth and back azimuth 0. *)
Definition example_distance (a b : Q * Q) : result (Q * Q * Q) :=
  Ok (Qabs (fst a - fst b) + Qabs (snd a - snd b), 0, 0)%Q.

(** Pairs of waveform files, 7 km, 70 km and 63 km apart. *)
Definition example_pairs : list (string * string) :=
  [ ("/data/XX/STA/BHZ.mseed", "/data/XX/STB/BHZ.mseed");
    ("/data/XX/STA/BHZ.mseed", "/data/XX/STC/BHZ.mseed");
    ("/data/XX/STB/BHZ.mseed", "/data/XX/STC/BHZ.mseed") ]%string.

(** A fragment that starts 27 samples after the end of [fragment_a]. *)
Definition fragment_far : Trace :=
  mkTrace "XX"%string "STA"%string "BHZ"%string 1 30 [6; 7].

(** Two frames of four samples, a pulse each. *)
Definition two_frames : list (list R) := [[1; 0; 0; 0]; [0; 1; 0; 0]]%R.

(** What [whiten] returns for [two_frames] at 1 Hz between 0.1 and 0.3 Hz,
    bin by bin. *)
Definition two_frames_whitened : list (list RC) :=
  let a := R_fft_bin 4 [1; 0; 0; 0]%R 1 in
  let b := R_fft_bin 4 [0; 1; 0; 0]%R 1 in
  let t := cos2 (linspace 0 (PI / 2) 1 0) in
  [ [RC_zero; RC_scale t (RC_unit_phase a); RC_zero;
     RC_conj (RC_scale t (RC_unit_phase b))];
    [RC_zero; RC_scale t (RC_unit_phase b); RC_zero;
     RC_conj (RC_scale t (RC_unit_phase a))] ].

(** The rows of [spectrum8]. *)
Definition spectrum8_rows : list (list RC) :=
  match spectrum8 with
  | Arr2 m => m
  | Arr1 v => [v]
  end.

(** * Properties *)

(** ** Time alignment *)

Lemma argmin_from_spec (l pre : list Z) (bi : nat) (b : Z) :
  (bi < length pre)%nat ->
  nth bi pre 0 = b ->
  (forall x, In x pre -> b <= x) ->
  let r := argmin_from bi b (length pre) l in
  (r < length (pre ++ l))%nat /\
  forall x, In x (pre ++ l) -> nth r (pre ++ l) 0 <= x.
Proof.
  revert pre bi b.
  induction l as [|y l IH]; intros pre bi b Hbi Hnth Hmin; cbn [argmin_from].
  - rewrite app_nil_r. split; [exact Hbi|].
    intros x Hx. rewrite Hnth. now apply Hmin.
  - assert (Hlen : length (pre ++ [y]) = S (length pre))
      by (rewrite length_app; cbn; lia).
    replace (pre ++ y :: l) with ((pre ++ [y]) ++ l)
      by (rewrite <- app_assoc; reflexivity).
    destruct (Z.ltb_spec y b) as [Hlt|Hge].
    + specialize (IH (pre ++ [y]) (length pre) y).
      rewrite Hlen in IH. apply IH.
      * lia.
      * rewrite app_nth2 by lia. now rewrite Nat.sub_diag.
      * intros x Hx. apply in_app_iff in Hx as [Hx|[->|[]]]; [|lia].
        specialize (Hmin x Hx). lia.
    + specialize (IH (pre ++ [y]) bi b).
      rewrite Hlen in IH. apply IH.
      * lia.
      * rewrite app_nth1 by lia. exact Hnth.
      * intros x Hx. apply in_app_iff in Hx as [Hx|[->|[]]]; [|lia].
        now apply Hmin.
Qed.

Lemma np_argmin_spec (l : list Z) :
  l <> [] ->
  exists i, np_argmin l = Ok i /\ (i < length l)%nat /\
            forall x, In x l -> nth i l 0 <= x.
Proof.
  destruct l as [|x l]; [congruence|]. intros _.
  exists (argmin_from 0 x 1 l). split; [reflexivity|].
  apply (argmin_from_spec l [x] 0%nat x); cbn; try lia.
Qed.

Lemma py_range_pos (stop step : Z) :
  0 < step ->
  py_range 0 stop step =
    Ok (map (fun k => Z.of_nat k * step)
            (seq 0 (Z.to_nat (Z.max 0 ((stop + step - 1) / step))))).
Proof.
  intros Hs. unfold py_range, range_len.
  destruct (Z.eqb_spec step 0); [lia|].
  destruct (Z.ltb_spec 0 step); [|lia].
  rewrite Z.sub_0_r. reflexivity.
Qed.

Lemma py_getitem_nth {A : Type} (l : list A) (i : nat) (d : A) :
  (i < length l)%nat -> py_getitem l (Z.of_nat i) = Ok (nth i l d).
Proof.
  intros Hi. unfold py_getitem.
  destruct (Z.ltb_spec (Z.of_nat i) 0); [lia|].
  destruct (Z.leb_spec 0 (Z.of_nat i)); [|lia].
  destruct (Z.ltb_spec (Z.of_nat i) (Z.of_nat (length l))); [|lia].
  cbn [andb]. rewrite Nat2Z.id.
  destruct (nth_error l i) eqn:E.
  - now rewrite (nth_error_nth _ _ d E).
  - apply nth_error_None in E. lia.
Qed.

Lemma nth_map_lt {A B : Type} (f : A -> B) (l : list A) (i : nat) (d : B) (d' : A) :
  (i < length l)%nat -> nth i (map f l) d = f (nth i l d').
Proof.
  intros Hi. rewrite (nth_indep _ d (f d')) by now rewrite length_map.
  apply map_nth.
Qed.

Lemma midnight_multiple (t : Z) :
  exists m, midnight t = (86400 * ns_per_s) * m.
Proof.
  exists (t / (86400 * ns_per_s)). unfold midnight.
  assert (0 < ns_per_s) by reflexivity.
  pose proof (Z.div_mod t (86400 * ns_per_s) ltac:(lia)). lia.
Qed.

(** The difference of two time stamps is within half a microsecond of
    the exact one, and is the exact one when that is a whole number of
    microseconds. *)
Lemma utc_sub_near (half_up : Z -> bool) (a b : Z) :
  Z.abs (1000 * utc_sub half_up a b - (a - b)) <= 500.
Proof.
  unfold utc_sub.
  pose proof (Z.div_mod (a - b) 1000 ltac:(lia)).
  pose proof (Z.mod_pos_bound (a - b) 1000 ltac:(lia)).
  destruct (Z.ltb_spec ((a - b) mod 1000) 500); [lia|].
  destruct (Z.ltb_spec 500 ((a - b) mod 1000)); [lia|].
  destruct (half_up (a - b)); lia.
Qed.

Lemma utc_sub_exact (half_up : Z -> bool) (a b : Z) :
  (a - b) mod 1000 = 0 -> 1000 * utc_sub half_up a b = a - b.
Proof.
  intros Hm. unfold utc_sub. rewrite Hm.
  pose proof (Z.div_mod (a - b) 1000 ltac:(lia)).
  destruct (Z.ltb_spec 0 500); lia.
Qed.

(** One time stamp against the grid of its own day: the selected tick is
    within half a step and half a microsecond; within half a step for a
    time stamp of whole microseconds; and it is the time stamp itself
    when that one is already a tick. *)
Lemma snap_to_grid (half_up : Z -> bool) (t step : Z) :
  0 < step ->
  let ticks := map (fun k => Z.of_nat k * step)
                   (seq 0 (Z.to_nat (Z.max 0 ((86400 + step + step - 1) / step)))) in
  let ts := map (fun s => add_seconds (midnight t) s) ticks in
  exists i r,
    np_argmin (map Z.abs (map (fun x => utc_sub half_up x t) ts)) = Ok i /\
    py_getitem ts (Z.of_nat i) = Ok r /\
    2 * Z.abs (r - t) <= step * ns_per_s + 1000 /\
    (t mod 1000 = 0 -> 2 * Z.abs (r - t) <= step * ns_per_s) /\
    (on_grid t step -> r = t).
Proof.
  intros Hs ticks ts.
  set (n := Z.to_nat (Z.max 0 ((86400 + step + step - 1) / step))) in *.
  set (W := step * ns_per_s).
  set (d := t - midnight t).
  assert (Hns : ns_per_s = 1000000000) by reflexivity.
  assert (HS : 0 < W) by (unfold W; lia).
  assert (Hd : 0 <= d < 86400 * ns_per_s).
  { unfold d, midnight.
    pose proof (Z.mod_pos_bound t (86400 * ns_per_s) ltac:(lia)). lia. }
  (* every tick below the end of the range is a candidate *)
  assert (Hcand : forall k, 0 <= k -> k * step < 86400 + step ->
            In (Z.abs (utc_sub half_up (midnight t + k * W) t))
               (map Z.abs (map (fun x => utc_sub half_up x t) ts))).
  { intros k Hk0 Hk.
    apply in_map. apply in_map_iff. exists (midnight t + k * W).
    split; [reflexivity|].
    unfold ts. apply in_map_iff. exists (k * step). split.
    - unfold add_seconds, W. ring.
    - unfold ticks. apply in_map_iff. exists (Z.to_nat k).
      split; [now rewrite Z2Nat.id|].
      apply in_seq. split; [lia|]. cbn. unfold n.
      apply Z2Nat.inj_lt; [lia|lia|].
      apply Z.max_lt_iff. right.
      pose proof (Z.mul_succ_div_gt (86400 + step + step - 1) step Hs) as Hq.
      nia. }
  assert (Hne : map Z.abs (map (fun x => utc_sub half_up x t) ts) <> []).
  { intros E. specialize (Hcand 0 ltac:(lia) ltac:(lia)). rewrite E in Hcand. exact Hcand. }
  destruct (np_argmin_spec _ Hne) as (i & Hi & Hlt & Hmin).
  rewrite !length_map in Hlt.
  exists i, (nth i ts 0). split; [exact Hi|]. split.
  { apply py_getitem_nth. exact Hlt. }
  assert (Hval : nth i (map Z.abs (map (fun x => utc_sub half_up x t) ts)) 0
                 = Z.abs (utc_sub half_up (nth i ts 0) t)).
  { rewrite (nth_map_lt Z.abs _ i 0 0) by now rewrite length_map.
    now rewrite (nth_map_lt (fun x => utc_sub half_up x t) _ i 0 0). }
  rewrite Hval in Hmin.
  (* the tick selected is a tick of the day *)
  assert (Hr : exists j, nth i ts 0 = midnight t + j * W).
  { assert (Hin : In (nth i ts 0) ts).
    { apply nth_In. exact Hlt. }
    unfold ts, ticks in Hin |- *. apply in_map_iff in Hin as (s & Es & Hin).
    apply in_map_iff in Hin as (j & Ej & _).
    exists (Z.of_nat j). rewrite <- Es, <- Ej. unfold add_seconds, W. ring. }
  destruct Hr as [j Hr]. rewrite Hr in *.
  pose proof (utc_sub_near half_up (midnight t + j * W) t) as Hnear.
  set (a := utc_sub half_up (midnight t + j * W) t) in *.
  replace (midnight t + j * W - t) with (j * W - d) in * by (unfold d; ring).
  split; [|split].
  - (* the tick nearest to [d] *)
    set (k := (2 * d + W) / (2 * W)).
    assert (Hk : 2 * W * k <= 2 * d + W < 2 * W * k + 2 * W).
    { pose proof (Z.mul_div_le (2 * d + W) (2 * W) ltac:(lia)).
      pose proof (Z.mul_succ_div_gt (2 * d + W) (2 * W) ltac:(lia)).
      fold k in H, H0. lia. }
    assert (Hk0 : 0 <= k) by (apply Z.div_pos; lia).
    assert (Hkr : k * step < 86400 + step) by (unfold W in *; nia).
    specialize (Hmin _ (Hcand k Hk0 Hkr)).
    pose proof (utc_sub_near half_up (midnight t + k * W) t) as Hnear'.
    set (b := utc_sub half_up (midnight t + k * W) t) in *.
    replace (midnight t + k * W - t) with (k * W - d) in * by (unfold d; ring).
    assert (HW : W = 1000000000 * step) by (unfold W; lia).
    set (x := k * W - d) in *. set (y := j * W - d) in *.
    assert (Hx : 2 * Z.abs x <= W) by (unfold x; lia).
    lia.
  - (* a time stamp of whole microseconds: the differences are exact *)
    intros Hmicro.
    assert (Hdm : d mod 1000 = 0).
    { unfold d. destruct (midnight_multiple t) as [m ->].
      rewrite Hns. apply Z.mod_divide; [lia|].
      apply Z.divide_sub_r.
      - apply Z.mod_divide; [lia|exact Hmicro].
      - exists (86400000000 * m). ring. }
    assert (Hexact : forall c, 1000 * utc_sub half_up (midnight t + c * W) t = c * W - d).
    { intros c. rewrite utc_sub_exact.
      - unfold d. ring.
      - replace (midnight t + c * W - t) with (c * W - d) by (unfold d; ring).
        apply Z.mod_divide; [lia|]. apply Z.divide_sub_r.
        + unfold W. rewrite Hns. exists (c * step * 1000000). ring.
        + apply Z.mod_divide; [lia|exact Hdm]. }
    set (k := (2 * d + W) / (2 * W)).
    assert (Hk : 2 * W * k <= 2 * d + W < 2 * W * k + 2 * W).
    { pose proof (Z.mul_div_le (2 * d + W) (2 * W) ltac:(lia)).
      pose proof (Z.mul_succ_div_gt (2 * d + W) (2 * W) ltac:(lia)).
      fold k in H, H0. lia. }
    assert (Hk0 : 0 <= k) by (apply Z.div_pos; lia).
    assert (Hkr : k * step < 86400 + step) by (unfold W in *; nia).
    specialize (Hmin _ (Hcand k Hk0 Hkr)).
    pose proof (Hexact k) as Eb. pose proof (Hexact j) as Ea. fold a in Ea.
    set (b := utc_sub half_up (midnight t + k * W) t) in *.
    set (x := k * W - d) in *. set (y := j * W - d) in *.
    assert (Hx : 2 * Z.abs x <= W) by (unfold x; lia).
    lia.
  - intros Hg. unfold on_grid in Hg. fold d W in Hg.
    set (k := d / W).
    assert (Hk : d = W * k) by (apply Z.div_exact; [lia|exact Hg]).
    assert (Hk0 : 0 <= k) by (apply Z.div_pos; lia).
    assert (Hkr : k * step < 86400 + step) by (unfold W in *; nia).
    specialize (Hmin _ (Hcand k Hk0 Hkr)).
    assert (Eb : utc_sub half_up (midnight t + k * W) t = 0).
    { assert (E : 1000 * utc_sub half_up (midnight t + k * W) t
                  = midnight t + k * W - t).
      { apply utc_sub_exact.
        replace (midnight t + k * W - t) with 0 by (unfold d in Hk; lia).
        reflexivity. }
      unfold d in Hk. lia. }
    rewrite Eb in Hmin. cbn [Z.abs] in Hmin.
    assert (Hy : Z.abs (j * W - d) <= 500) by lia.
    assert (HW : 1000000000 <= W) by (unfold W; lia).
    assert (j = k) by nia. subst j. unfold d in Hk. lia.
Qed.

(** C6 (as amended). For a positive step [nearest_step] returns. A time
    stamp that already lies on a multiple of [step] seconds from its own
    midnight is returned unchanged. Each returned time stamp is within
    half a step and half a microsecond of the one given, the differences
    being compared after rounding to microseconds; it is within half a
    step when the time stamp given is a whole number of microseconds. *)
Theorem nearest_step_idempotent_bounded (half_up : Z -> bool) (t1 t2 step : Z) :
  0 < step ->
  exists r1 r2,
    nearest_step half_up t1 t2 step = Ok (r1, r2) /\
    2 * Z.abs (r1 - t1) <= step * ns_per_s + 1000 /\
    2 * Z.abs (r2 - t2) <= step * ns_per_s + 1000 /\
    (t1 mod 1000 = 0 -> 2 * Z.abs (r1 - t1) <= step * ns_per_s) /\
    (t2 mod 1000 = 0 -> 2 * Z.abs (r2 - t2) <= step * ns_per_s) /\
    (on_grid t1 step -> r1 = t1) /\
    (on_grid t2 step -> r2 = t2).
Proof.
  intros Hs. unfold nearest_step.
  destruct (utc_eqb t1 t2).
  - exists t1, t2. rewrite !Z.sub_diag. cbn [Z.abs].
    assert (0 < ns_per_s) by reflexivity. repeat split; auto; nia.
  - rewrite (py_range_pos _ _ Hs). cbn [bind].
    destruct (snap_to_grid half_up t1 step Hs) as (i1 & r1 & Ha1 & Hg1 & Hb1 & Hm1 & Hi1).
    destruct (snap_to_grid half_up t2 step Hs) as (i2 & r2 & Ha2 & Hg2 & Hb2 & Hm2 & Hi2).
    rewrite Ha1. cbn [bind]. rewrite Ha2. cbn [bind].
    rewrite Hg1. cbn [bind]. rewrite Hg2. cbn [bind].
    exists r1, r2. repeat split; assumption.
Qed.

Lemma nearest_step_idempotent_bounded_witness :
  exists r1 r2,
    nearest_step (fun _ => false) 1700000000123456789 1700003600000000000 1800
      = Ok (r1, r2) /\
    2 * Z.abs (r1 - 1700000000123456789) <= 1800 * ns_per_s + 1000 /\
    2 * Z.abs (r2 - 1700003600000000000) <= 1800 * ns_per_s + 1000 /\
    (1700000000123456789 mod 1000 = 0 ->
     2 * Z.abs (r1 - 1700000000123456789) <= 1800 * ns_per_s) /\
    (1700003600000000000 mod 1000 = 0 ->
     2 * Z.abs (r2 - 1700003600000000000) <= 1800 * ns_per_s) /\
    (on_grid 1700000000123456789 1800 -> r1 = 1700000000123456789) /\
    (on_grid 1700003600000000000 1800 -> r2 = 1700003600000000000).
Proof.
  apply (nearest_step_idempotent_bounded (fun _ => false)
           1700000000123456789 1700003600000000000 1800).
  lia.
Defined.

(** C6 (as stated) fails 0.4 microseconds past a quarter of an hour, with
    a step of half an hour: the differences to the ticks at 0 and at 1800
    seconds, -900.0000004 s and 899.9999996 s, both round to 900 s;
    [np.argmin] takes the first, and the time stamp returned is midnight,
    more than half a step away. No difference lies half-way between two
    microseconds there, so this holds however such a one is rounded. *)
Lemma nearest_step_exceeds_half_step :
  ~ (exists half_up : Z -> bool,
       forall t1 t2 step : Z,
         0 < step ->
         exists r1 r2,
           nearest_step half_up t1 t2 step = Ok (r1, r2) /\
           2 * Z.abs (r1 - t1) <= step * ns_per_s /\
           2 * Z.abs (r2 - t2) <= step * ns_per_s /\
           (on_grid t1 step -> r1 = t1) /\
           (on_grid t2 step -> r2 = t2)).
Proof.
  intros [half_up H].
  destruct (H 900000000400 0 1800 ltac:(lia))
    as (r1 & r2 & Hr & Hb & _).
  vm_compute in Hr. injection Hr as <- <-.
  vm_compute in Hb. apply Hb. reflexivity.
Qed.

(** ** Stream conditioner *)

Lemma list_Z_eqb_eq (l1 l2 : list Z) : list_Z_eqb l1 l2 = true <-> l1 = l2.
Proof.
  unfold list_Z_eqb. destruct (list_eq_dec Z.eq_dec l1 l2); split; congruence.
Qed.

Lemma trace_eqb_eq (a b : Trace) : trace_eqb a b = true <-> a = b.
Proof.
  unfold trace_eqb. rewrite !andb_true_iff, !String.eqb_eq, !Z.eqb_eq, list_Z_eqb_eq.
  destruct a, b; cbn. split.
  - intros [[[[[-> ->] ->] ->] ->] ->]. reflexivity.
  - intros [= -> -> -> -> -> ->]. auto 10.
Qed.

Lemma trace_eqb_refl (a : Trace) : trace_eqb a a = true.
Proof. now apply trace_eqb_eq. Qed.

Lemma stream_remove_head_of_tail (kept todo : list Trace) (tr : Trace) :
  (forall x, In x kept -> x <> tr) ->
  stream_remove (kept ++ tr :: todo) tr = Ok (kept ++ todo).
Proof.
  unfold stream_remove. induction kept as [|k kept IH]; intros Hk; cbn.
  - now rewrite trace_eqb_refl.
  - destruct (trace_eqb k tr) eqn:E.
    + apply trace_eqb_eq in E. exfalso. apply (Hk k); [now left|exact E].
    + rewrite IH; [reflexivity|]. intros x Hx. apply Hk. now right.
Qed.

(** The zero-trace loop, on a stream whose traces all hold samples, keeps
    exactly the traces whose [max()] is not zero. *)
Lemma remove_zero_loop_filter (todo kept : list Trace) :
  Forall (fun tr => data tr <> []) todo ->
  Forall (fun tr => has_zero_max tr = false) kept ->
  remove_zero_loop todo (kept ++ todo) =
    Ok (kept ++ filter (fun tr => negb (has_zero_max tr)) todo).
Proof.
  revert kept. induction todo as [|tr todo IH]; intros kept Hne Hk; cbn.
  - reflexivity.
  - inversion Hne as [|? ? Hd Hne']; subst.
    unfold has_zero_max at 1.
    destruct (np_max (data tr)) as [m|e] eqn:Em.
    2:{ destruct (data tr); [congruence|discriminate]. }
    cbn [bind]. destruct (m =? 0) eqn:E0; cbn [negb].
    + rewrite stream_remove_head_of_tail; cbn [bind].
      * now apply IH.
      * intros x Hx ->. rewrite Forall_forall in Hk. specialize (Hk _ Hx).
        unfold has_zero_max in Hk. rewrite Em in Hk. congruence.
    + replace (kept ++ tr :: todo) with ((kept ++ [tr]) ++ todo)
        by (rewrite <- app_assoc; reflexivity).
      rewrite IH; auto.
      * now rewrite <- app_assoc.
      * apply Forall_app. split; [exact Hk|]. constructor; [|constructor].
        unfold has_zero_max. now rewrite Em.
Qed.

Lemma remove_zero_traces_filter (st : Stream) :
  Forall (fun tr => data tr <> []) st ->
  remove_zero_traces st = Ok (filter (fun tr => negb (has_zero_max tr)) st).
Proof.
  intros H. apply (remove_zero_loop_filter st [] H). constructor.
Qed.

(** C4. The zero-trace stage tests [tr.data.max() == 0], not the largest
    absolute value: the trace [dipping_trace], whose largest absolute sample
    is 5, is removed, and the stream is left empty. *)
Theorem zero_trace_filter_drops_nonzero_trace :
  max_abs (data dipping_trace) = 5 /\
  remove_zero_traces [dipping_trace] = Ok [].
Proof. split; reflexivity. Qed.

Section StreamConditionerFacts.

Variable check_sample : Stream -> result Stream.
Variable downsample : Stream -> Q -> result Stream.
Variable remove_small_traces : Stream -> result Stream.
Variable getGaps : Stream -> list Gap.
Variable trace_add_interpolate : Trace -> Trace -> result Trace.
Variable merge_zero_fill : Stream -> result Stream.
Variable check_and_phase_shift : Trace -> result Trace.

(** C5 (as amended). [process_raw] raises [TooManyTraces] exactly on a
    stream of more than 100 traces; a stream of at most 100 traces passes
    the check and goes on to the rest of the conditioning. *)
Theorem process_raw_trace_count_check (st : Stream) (downsamp_freq : Q) :
  ((100 < length st)%nat ->
     process_raw check_sample downsample remove_small_traces getGaps
       trace_add_interpolate merge_zero_fill check_and_phase_shift
       st downsamp_freq = Raise TooManyTraces) /\
  ((length st <= 100)%nat ->
     process_raw check_sample downsample remove_small_traces getGaps
       trace_add_interpolate merge_zero_fill check_and_phase_shift
       st downsamp_freq =
     condition_stream check_sample downsample remove_small_traces getGaps
       trace_add_interpolate merge_zero_fill check_and_phase_shift
       st downsamp_freq).
Proof.
  unfold process_raw. split; intros H.
  - apply Nat.ltb_lt in H. now rewrite H.
  - destruct (Nat.ltb_spec 100 (length st)); [lia|reflexivity].
Qed.

End StreamConditionerFacts.

(** *** The gap-repair loop *)

Section GapRepairFacts.

Variable getGaps : Stream -> list Gap.
Variable trace_add_interpolate : Trace -> Trace -> result Trace.

Lemma py_getitem_valid {A : Type} (l : list A) (i : Z) :
  valid_index l i -> exists a, py_getitem l i = Ok a /\ In a l.
Proof.
  unfold valid_index, py_getitem. intros Hi.
  set (j := if i <? 0 then i + Z.of_nat (length l) else i).
  assert (Hj : 0 <= j < Z.of_nat (length l)).
  { unfold j. destruct (Z.ltb_spec i 0); lia. }
  destruct (Z.leb_spec 0 j); [|lia].
  destruct (Z.ltb_spec j (Z.of_nat (length l))); [|lia].
  cbn [andb]. destruct (nth_error l (Z.to_nat j)) as [a|] eqn:E.
  - exists a. split; [reflexivity|]. eapply nth_error_In, E.
  - apply nth_error_None in E. lia.
Qed.

Lemma py_setitem_valid {A : Type} (l : list A) (i : Z) (x : A) :
  valid_index l i -> exists l', py_setitem l i x = Ok l'.
Proof.
  unfold valid_index, py_setitem. intros Hi.
  set (j := if i <? 0 then i + Z.of_nat (length l) else i).
  assert (Hj : 0 <= j < Z.of_nat (length l)).
  { unfold j. destruct (Z.ltb_spec i 0); lia. }
  destruct (Z.leb_spec 0 j); [|lia].
  destruct (Z.ltb_spec j (Z.of_nat (length l))); [|lia].
  cbn [andb]. eauto.
Qed.

Lemma stream_remove_present (st : Stream) (tr : Trace) :
  In tr st -> exists st', stream_remove st tr = Ok st'.
Proof.
  unfold stream_remove. induction st as [|a st IH]; cbn; [tauto|].
  intros [->|Hin].
  - rewrite trace_eqb_refl. eauto.
  - destruct (trace_eqb a tr); [eauto|].
    destruct (IH Hin) as [st' ->]. cbn. eauto.
Qed.

Lemma for_gaps_all_too_long (gaps : list Gap) (st st' : Stream) (k : Z) :
  for_gaps trace_add_interpolate gaps st k = Ok (st', k + Z.of_nat (length gaps)) ->
  Forall oversized gaps.
Proof.
  revert k. induction gaps as [|gap gaps IH]; intros k H; [constructor|].
  cbn [for_gaps] in H.
  destruct (Z.leb_spec (gap_samples gap) max_gap) as [Hle|Hgt].
  - exfalso.
    assert (Hk : forall p, for_gaps trace_add_interpolate (gap :: gaps) st k = Ok p ->
                           snd p = k).
    { intros p. cbn [for_gaps].
      destruct (Z.leb_spec (gap_samples gap) max_gap); [|lia].
      repeat (match goal with
              | |- context [bind ?m _] => destruct m; cbn [bind]
              end; try discriminate).
      now intros [= <-]. }
    assert (E : for_gaps trace_add_interpolate (gap :: gaps) st k
                = Ok (st', k + Z.of_nat (length (gap :: gaps)))).
    { cbn [for_gaps]. destruct (Z.leb_spec (gap_samples gap) max_gap); [exact H|lia]. }
    apply Hk in E. cbn [snd length] in E. lia.
  - constructor; [exact Hgt|]. apply (IH (k + 1)).
    rewrite H. f_equal. f_equal. cbn [length]. lia.
Qed.

(** What a pass leaves behind, whether or not it raised. *)
Lemma for_gaps_pass (gaps : list Gap) (st st' : Stream) (k : Z) :
  for_gaps trace_add_interpolate gaps st 0 = Ok (st', k) ->
  (S (length st') = length st /\ (k =? Z.of_nat (length gaps)) = false) \/
  (st' = st /\ (k =? Z.of_nat (length gaps)) = true /\ Forall oversized gaps).
Proof.
  intros H. destruct (for_gaps_outcome _ _ _ _ _ _ H) as [[-> ->]|[Hlen Hk]].
  - right. cbn [Z.add]. rewrite Z.eqb_refl. repeat split.
    apply (for_gaps_all_too_long gaps st st 0). exact H.
  - left. split; [exact Hlen|]. apply Z.eqb_neq. lia.
Qed.

Lemma gap_loop_exit (st : Stream) (only_too_long : bool) (st' : Stream) :
  gap_loop getGaps trace_add_interpolate st only_too_long = Ok st' ->
  (only_too_long = true -> Forall oversized (getGaps st)) ->
  (getGaps st' = [] \/ Forall oversized (getGaps st')) /\
  (length st' <= length st)%nat.
Proof.
  funelim (gap_loop getGaps trace_add_interpolate st only_too_long).
  - intros [= <-] Hotl. split; [|lia].
    match goal with Hc : loop_cond _ _ _ = false |- _ =>
      pose proof Hc as Hcond end.
    unfold loop_cond in Hcond. apply andb_false_iff in Hcond as [Hc|Hc].
    + left. destruct (getGaps st); [reflexivity|discriminate].
    + right. apply Hotl. now destruct only_too_long.
  - intros Hres _.
    match goal with Hp : for_gaps _ _ _ _ = Ok _ |- _ =>
      destruct (for_gaps_pass _ _ _ _ Hp) as [[Hlen Hk]|[-> [Hk Hall]]] end.
    + match goal with IH : forall st'', _ -> _ -> _ |- _ =>
        destruct (IH _ Hres) as [Hex Hle] end.
      * rewrite Hk. discriminate.
      * split; [exact Hex|lia].
    + match goal with IH : forall st'', _ -> _ -> _ |- _ =>
        destruct (IH _ Hres) as [Hex Hle] end.
      * intros _. exact Hall.
      * split; [exact Hex|lia].
  - discriminate.
Qed.

Lemma for_gaps_succeeds (gaps : list Gap) (st : Stream) (k : Z) :
  (forall a b, exists m, trace_add_interpolate a b = Ok m) ->
  (forall g, In g gaps -> valid_index st (gap_first g) /\ valid_index st (gap_second g)) ->
  exists p, for_gaps trace_add_interpolate gaps st k = Ok p.
Proof.
  intros Hadd.
  revert k. induction gaps as [|gap gaps IH]; intros k Hv; cbn [for_gaps]; [eauto|].
  destruct (gap_samples gap <=? max_gap).
  - destruct (Hv gap (or_introl eq_refl)) as [H1 H2].
    destruct (py_getitem_valid st _ H1) as (a & -> & _). cbn [bind].
    destruct (py_getitem_valid st _ H2) as (b & -> & _). cbn [bind].
    destruct (Hadd a b) as [m ->]. cbn [bind].
    destruct (py_setitem_valid st _ m H1) as [st1 Hset]. rewrite Hset. cbn [bind].
    assert (H2' : valid_index st1 (gap_second gap)).
    { unfold valid_index in *. now rewrite (py_setitem_length _ _ _ _ Hset). }
    destruct (py_getitem_valid st1 _ H2') as (v & -> & Hin). cbn [bind].
    destruct (stream_remove_present st1 v Hin) as [st2 ->]. cbn [bind]. eauto.
  - apply IH. intros g Hg. apply Hv. now right.
Qed.

Lemma gap_loop_succeeds (st : Stream) (only_too_long : bool) :
  (forall s g, In g (getGaps s) ->
               valid_index s (gap_first g) /\ valid_index s (gap_second g)) ->
  (forall a b, exists m, trace_add_interpolate a b = Ok m) ->
  exists st', gap_loop getGaps trace_add_interpolate st only_too_long = Ok st'.
Proof.
  intros Hvalid Hadd.
  funelim (gap_loop getGaps trace_add_interpolate st only_too_long).
  - eauto.
  - auto.
  - exfalso.
    destruct (for_gaps_succeeds (getGaps st) st 0 Hadd (Hvalid st)) as [p Hp].
    congruence.
Qed.

(** C9. The gap-repair loop terminates on every stream: [gap_loop] is
    defined by recursion on [loop_measure], which every turn decreases.
    Each pass over the gaps either repairs one, which removes a trace and
    keeps the loop going, or finds every gap of more than 10 samples and
    sets the flag that ends the loop. A stream that the loop returns has no
    gap left or only gaps of more than 10 samples, and holds no more traces
    than the given one. The loop does return a stream, and raises no
    exception, when [getGaps] names traces of the stream and the
    interpolating addition succeeds. *)
Theorem gap_repair_loop_terminates (st : Stream) :
  (forall s s' k,
     for_gaps trace_add_interpolate (getGaps s) s 0 = Ok (s', k) ->
     (S (length s') = length s /\ (k =? Z.of_nat (length (getGaps s))) = false) \/
     (s' = s /\ (k =? Z.of_nat (length (getGaps s))) = true /\
      Forall oversized (getGaps s))) /\
  (forall st',
     gap_loop getGaps trace_add_interpolate st false = Ok st' ->
     (getGaps st' = [] \/ Forall oversized (getGaps st')) /\
     (length st' <= length st)%nat) /\
  ((forall s g, In g (getGaps s) ->
                valid_index s (gap_first g) /\ valid_index s (gap_second g)) ->
   (forall a b, exists m, trace_add_interpolate a b = Ok m) ->
   exists st', gap_loop getGaps trace_add_interpolate st false = Ok st').
Proof.
  split; [|split].
  - intros s s' k. apply for_gaps_pass.
  - intros st' Hst'. apply (gap_loop_exit st false st' Hst'). discriminate.
  - intros Hvalid Hadd. now apply gap_loop_succeeds.
Qed.

End GapRepairFacts.

(** *** The repair loop on a concrete gap detector *)

Lemma adjacent_gaps_from_valid (st : Stream) (i : Z) (g : Gap) :
  In g (adjacent_gaps_from i st) ->
  i <= gap_first g /\ gap_second g = gap_first g + 1 /\
  gap_second g < i + Z.of_nat (length st).
Proof.
  revert i. induction st as [|a rest IH]; intros i; cbn [adjacent_gaps_from]; [intros []|].
  destruct rest as [|b rest']; [intros []|].
  intros Hin. apply in_app_iff in Hin as [Hin|Hin].
  - destruct (0 <? samples_between a b); [|destruct Hin].
    destruct Hin as [<-|[]]. cbn. lia.
  - apply IH in Hin. cbn [length] in *. lia.
Qed.

Lemma adjacent_gaps_valid (st : Stream) (g : Gap) :
  In g (adjacent_gaps st) ->
  valid_index st (gap_first g) /\ valid_index st (gap_second g).
Proof.
  intros Hin. apply adjacent_gaps_from_valid in Hin. unfold valid_index. lia.
Qed.

Lemma join_traces_succeeds (a b : Trace) : exists m, join_traces a b = Ok m.
Proof. unfold join_traces. eauto. Qed.

Example gap_loop_repairs_short_gap :
  adjacent_gaps [fragment_a; fragment_b] = [mkGap 0 1 5] /\
  gap_loop adjacent_gaps join_traces [fragment_a; fragment_b] false =
    Ok [mkTrace "XX"%string "STA"%string "BHZ"%string 1 0 [1; 2; 3; 3; 3; 3; 3; 3; 4; 5]].
Proof. split; reflexivity. Qed.

Lemma gap_repair_loop_terminates_witness :
  exists st',
    gap_loop adjacent_gaps join_traces [fragment_a; fragment_b] false = Ok st' /\
    (adjacent_gaps st' = [] \/ Forall oversized (adjacent_gaps st')) /\
    (length st' <= length [fragment_a; fragment_b])%nat.
Proof.
  destruct (gap_repair_loop_terminates adjacent_gaps join_traces
              [fragment_a; fragment_b]) as (_ & Hexit & Hreturns).
  destruct (Hreturns adjacent_gaps_valid join_traces_succeeds) as [st' Hst'].
  exists st'. split; [exact Hst'|]. exact (Hexit st' Hst').
Defined.

(** C5 (as stated) fails at a stream of exactly 100 traces: the check lets
    it through, and with stages that change nothing [process_raw] returns. *)
Lemma process_raw_accepts_100_traces :
  ~ (forall check_sample downsample remove_small_traces getGaps
            trace_add_interpolate merge_zero_fill check_and_phase_shift
            (st : Stream) (downsamp_freq : Q),
        (100 <= length st)%nat ->
        process_raw check_sample downsample remove_small_traces getGaps
          trace_add_interpolate merge_zero_fill check_and_phase_shift
          st downsamp_freq = Raise TooManyTraces).
Proof.
  intros H.
  specialize (H identity_stage (fun st _ => Ok st) identity_stage (fun _ => [])
                join_traces identity_stage (fun tr => Ok tr)
                (repeat fragment_a 100) 1%Q).
  rewrite repeat_length in H. specialize (H (Nat.le_refl _)).
  vm_compute in H. discriminate H.
Qed.

(** ** Windower *)

Lemma np_take_app {A : Type} (a : list A) (i1 i2 : list nat) (r1 r2 : list A) :
  np_take a i1 = Ok r1 -> np_take a i2 = Ok r2 ->
  np_take a (i1 ++ i2) = Ok (r1 ++ r2).
Proof.
  revert r1. induction i1 as [|i i1 IH]; intros r1; cbn [np_take app].
  - now intros [= <-].
  - destruct (py_getitem a (Z.of_nat i)) as [x|]; cbn [bind]; [|discriminate].
    destruct (np_take a i1) as [rest|]; cbn [bind]; [|discriminate].
    intros [= <-] H2. rewrite (IH rest eq_refl H2). reflexivity.
Qed.

Lemma np_take_where_from {A B : Type} (f : B -> A) (p : B -> bool)
    (pre l : list B) :
  np_take (map f (pre ++ l)) (where_from (length pre) (map p l)) =
    Ok (map f (filter p l)).
Proof.
  revert pre. induction l as [|x l IH]; intros pre; cbn [map where_from filter].
  - reflexivity.
  - specialize (IH (pre ++ [x])).
    rewrite <- app_assoc in IH. cbn [app] in IH.
    rewrite length_app in IH. cbn [length] in IH. rewrite Nat.add_1_r in IH.
    destruct (p x).
    + apply (np_take_app _ [length pre] _ [f x]); [|exact IH].
      cbn [np_take].
      rewrite (py_getitem_nth _ (length pre) (f x)).
      * cbn [bind]. rewrite map_app. rewrite app_nth2; rewrite length_map; [|lia].
        now rewrite Nat.sub_diag.
      * rewrite length_map, length_app. cbn. lia.
    + exact IH.
Qed.

Lemma np_take_where {A B : Type} (f : B -> A) (p : B -> bool) (l : list B) :
  np_take (map f l) (np_where (map p l)) = Ok (map f (filter p l)).
Proof. apply (np_take_where_from f p [] l). Qed.

Lemma filter_seq_prefix (p : nat -> bool) (n m : nat) :
  (n <= m)%nat ->
  (forall k, (k < m)%nat -> p k = (k <? n)%nat) ->
  filter p (seq 0 m) = seq 0 n.
Proof.
  revert n. induction m as [|m IH]; intros n Hn Hp.
  - replace n with 0%nat by lia. reflexivity.
  - rewrite seq_S, filter_app. cbn [filter Nat.add].
    rewrite (Hp m) by lia.
    destruct (Nat.ltb_spec m n).
    + assert (n = S m) by lia. subst n. rewrite seq_S. cbn [Nat.add]. f_equal.
      apply IH; [lia|]. intros k Hk. rewrite Hp by lia.
      destruct (Nat.ltb_spec k (S m)), (Nat.ltb_spec k m); auto; lia.
    + rewrite app_nil_r. apply IH; [lia|]. intros k Hk. apply Hp. lia.
Qed.

Lemma collect_windows_slide (slide : Trace -> Z -> Z -> list Trace)
    (tr : Trace) (cc_len step : Z) :
  collect_windows slide tr cc_len step = slide tr cc_len step.
Proof.
  unfold collect_windows.
  enough (H : forall l acc, fold_left (fun slice win => slice ++ [win]) l acc = acc ++ l)
    by apply (H _ []).
  induction l as [|w l IH]; intros acc; cbn.
  - now rewrite app_nil_r.
  - rewrite IH, <- app_assoc. reflexivity.
Qed.

(** C7. On an aligned span with [t2 - t1 >= cc_len] and a positive step,
    the windower lists exactly [floor((t2 - t1 - cc_len)/step) + 1] windows,
    the [k]-th one from [t1 + k*step] to [t1 + k*step + cc_len], each ending
    by [t2]; and the windowing step of the pipeline raises [EmptyStream]
    when sliding yields no window for the source or for the receiver. *)
Theorem windower_window_count
    (slide : Trace -> Z -> Z -> list Trace) (source receiver : Trace)
    (t1 t2 : UTCDateTime) (cc_len step : Z) :
  0 < step ->
  cc_len * ns_per_s <= t2 - t1 ->
  let n := Z.to_nat ((t2 - t1 - cc_len * ns_per_s) / (step * ns_per_s) + 1) in
  let starts := map (fun k => add_seconds t1 (Z.of_nat k * step)) (seq 0 n) in
  let ends :=
    map (fun k => add_seconds (add_seconds t1 (Z.of_nat k * step)) cc_len) (seq 0 n) in
  window_times t1 t2 cc_len step = Ok (starts, ends) /\
  length starts = n /\ length ends = n /\
  Forall (fun e => e <= t2) ends /\
  (slide source cc_len step = [] \/ slide receiver cc_len step = [] ->
   window_waveforms slide source receiver cc_len step = Raise EmptyStream).
Proof.
  intros Hs Hlen n starts ends.
  set (W := step * ns_per_s). set (L := cc_len * ns_per_s). set (D := t2 - t1).
  assert (Hns : 0 < ns_per_s) by reflexivity.
  assert (HW : 0 < W) by (unfold W; lia).
  assert (Hq : 0 <= (D - L) / W) by (apply Z.div_pos; unfold D, L; lia).
  assert (Hends : Forall (fun e => e <= t2) ends).
  { unfold ends. apply Forall_forall. intros e He.
    apply in_map_iff in He as (k & <- & Hk). apply in_seq in Hk.
    unfold add_seconds. fold L.
    assert (Z.of_nat k <= (D - L) / W) by (unfold n in Hk; fold D L W in Hk; lia).
    pose proof (Z.mul_div_le (D - L) W HW).
    assert (Z.of_nat k * W <= D - L) by nia.
    unfold W, D in *. lia. }
  split; [|split; [|split; [|split]]].
  - unfold window_times. fold W L D.
    rewrite (py_range_pos _ _ HW). cbn [bind].
    set (m := Z.to_nat (Z.max 0 ((D - L + W + W - 1) / W))).
    rewrite !map_map.
    rewrite (np_take_where (fun k => t1 + Z.of_nat k * W)
               (fun k => t1 + Z.of_nat k * W + L <=? t2) (seq 0 m)).
    cbn [bind].
    rewrite (np_take_where (fun k => t1 + Z.of_nat k * W + L)
               (fun k => t1 + Z.of_nat k * W + L <=? t2) (seq 0 m)).
    cbn [bind].
    assert (Hnm : (n <= m)%nat).
    { unfold n, m. fold D L W. apply Z2Nat.inj_le; try lia.
      apply Z.le_trans with ((D - L + W + W - 1) / W); [|lia].
      replace (D - L + W + W - 1) with ((D - L + W - 1) + 1 * W) by ring.
      rewrite Z.div_add by lia.
      pose proof (Z.div_le_mono (D - L) (D - L + W - 1) W HW ltac:(lia)). lia. }
    rewrite (filter_seq_prefix _ n m Hnm).
    + f_equal. unfold starts, ends, add_seconds. f_equal.
      * apply map_ext. intros k. unfold W. ring.
      * apply map_ext. intros k. unfold W, L. ring.
    + intros k Hk.
      pose proof (Z.mul_div_le (D - L) W HW).
      pose proof (Z.mul_succ_div_gt (D - L) W HW).
      destruct (Z.leb_spec (t1 + Z.of_nat k * W + L) t2) as [Hle|Hgt];
        destruct (Nat.ltb_spec k n) as [Hkn|Hkn]; auto; exfalso;
        unfold n in Hkn; fold D L W in Hkn; unfold D in *.
      * assert (Z.of_nat k >= (t2 - t1 - L) / W + 1) by lia. nia.
      * assert (Z.of_nat k <= (t2 - t1 - L) / W) by lia. nia.
  - unfold starts. now rewrite length_map, length_seq.
  - unfold ends. now rewrite length_map, length_seq.
  - exact Hends.
  - unfold window_waveforms. rewrite !collect_windows_slide.
    intros [-> | ->]; cbn; [reflexivity|].
    now rewrite orb_true_r.
Qed.

Lemma windower_window_count_witness :
  let n := Z.to_nat ((7200 * ns_per_s - 0 - 3600 * ns_per_s) / (1800 * ns_per_s) + 1) in
  let starts := map (fun k => add_seconds 0 (Z.of_nat k * 1800)) (seq 0 n) in
  let ends :=
    map (fun k => add_seconds (add_seconds 0 (Z.of_nat k * 1800)) 3600) (seq 0 n) in
  window_times 0 (7200 * ns_per_s) 3600 1800 = Ok (starts, ends) /\
  length starts = n /\ length ends = n /\
  Forall (fun e => e <= 7200 * ns_per_s) ends /\
  (example_slide two_hours 3600 1800 = [] \/ example_slide two_hours 3600 1800 = [] ->
   window_waveforms example_slide two_hours two_hours 3600 1800 = Raise EmptyStream).
Proof.
  apply (windower_window_count example_slide two_hours two_hours
           0 (7200 * ns_per_s) 3600 1800).
  - lia.
  - vm_compute. discriminate.
Defined.

Example window_times_two_hours :
  window_times 0 (7200 * ns_per_s) 3600 1800 =
    Ok ([0; 1800 * ns_per_s; 3600 * ns_per_s],
        [3600 * ns_per_s; 5400 * ns_per_s; 7200 * ns_per_s]).
Proof. reflexivity. Qed.

(** *** Removal of the windows whose start times differ *)

Lemma nth_error_lt {A : Type} (l : list A) (i : nat) (a : A) :
  nth_error l i = Some a -> (i < length l)%nat.
Proof. intros E. apply nth_error_Some. congruence. Qed.

Lemma py_getitem_nat {A : Type} (l : list A) (i : nat) :
  py_getitem l (Z.of_nat i) =
    match nth_error l i with Some a => Ok a | None => Raise IndexError end.
Proof.
  unfold py_getitem.
  destruct (Z.ltb_spec (Z.of_nat i) 0); [lia|].
  destruct (Z.leb_spec 0 (Z.of_nat i)); [|lia]. cbn [andb].
  rewrite Nat2Z.id.
  destruct (Z.ltb_spec (Z.of_nat i) (Z.of_nat (length l))); [reflexivity|].
  destruct (nth_error l i) eqn:E; [|reflexivity].
  apply nth_error_lt in E. lia.
Qed.



Lemma py_getitem_In {A : Type} (l : list A) (i : Z) (a : A) :
  py_getitem l i = Ok a -> In a l.
Proof.
  unfold py_getitem. destruct (_ && _); [|discriminate].
  destruct (nth_error l _) eqn:E; [|discriminate].
  intros [= <-]. eapply nth_error_In, E.
Qed.









Example remove_mismatched_drops_middle :
  remove_mismatched
    [window_at 0 1 2; window_at 1800 2 3; window_at 3600 3 4]
    [window_at 0 5 6; window_at 1801 6 7; window_at 3600 7 8]
  = Ok ([window_at 0 1 2; window_at 3600 3 4],
        [window_at 0 5 6; window_at 3600 7 8]).
Proof. reflexivity. Qed.


(** ** Correlation engine *)

Lemma search_fast_len_ge (fuel n : nat) : (n <= search_fast_len fuel n)%nat.
Proof.
  revert n. induction fuel as [|fuel IH]; intros n; cbn [search_fast_len];
    destruct (is_fast_len n); try lia.
  specialize (IH (S n)). lia.
Qed.

Lemma next_fast_len_ge (n : nat) : (n <= next_fast_len n)%nat.
Proof.
  unfold next_fast_len. destruct (n <=? 6)%nat; [lia|apply search_fast_len_ge].
Qed.

Lemma where_from_seq (p : nat -> bool) (i m : nat) :
  where_from i (map p (seq i m)) = filter p (seq i m).
Proof.
  revert i. induction m as [|m IH]; intros i; cbn [seq map where_from filter].
  - reflexivity.
  - rewrite IH. now destruct (p i).
Qed.

Lemma filter_seq_none (p : nat -> bool) (i m : nat) :
  (forall k, (i <= k < i + m)%nat -> p k = false) -> filter p (seq i m) = [].
Proof.
  revert i. induction m as [|m IH]; intros i Hp; cbn [seq filter]; [reflexivity|].
  rewrite (Hp i) by lia. apply IH. intros k Hk. apply Hp. lia.
Qed.

Lemma filter_seq_all (p : nat -> bool) (i m : nat) :
  (forall k, (i <= k < i + m)%nat -> p k = true) -> filter p (seq i m) = seq i m.
Proof.
  revert i. induction m as [|m IH]; intros i Hp; cbn [seq filter]; [reflexivity|].
  rewrite (Hp i) by lia. f_equal. apply IH. intros k Hk. apply Hp. lia.
Qed.

(** A predicate that holds exactly on [a, b) selects that interval. *)
Lemma filter_seq_interval (p : nat -> bool) (a b m : nat) :
  (a <= b <= m)%nat ->
  (forall k, (k < m)%nat -> p k = ((a <=? k) && (k <? b))%nat) ->
  filter p (seq 0 m) = seq a (b - a).
Proof.
  intros Hab Hp.
  replace m with (a + ((b - a) + (m - b)))%nat by lia.
  rewrite !seq_app, !filter_app. cbn [Nat.add].
  rewrite filter_seq_none, filter_seq_all, filter_seq_none.
  - now rewrite app_nil_r.
  - intros k Hk. rewrite Hp by lia.
    destruct (Nat.leb_spec a k), (Nat.ltb_spec k b); auto; lia.
  - intros k Hk. rewrite Hp by lia.
    destruct (Nat.leb_spec a k), (Nat.ltb_spec k b); auto; lia.
  - intros k Hk. rewrite Hp by lia.
    destruct (Nat.leb_spec a k), (Nat.ltb_spec k b); auto; lia.
Qed.

(** The lags kept: [2*maxlag + 1] consecutive indices when [maxlag] fits. *)
Lemma lag_index_interval (Nt : nat) (maxlag : Z) :
  0 <= maxlag -> 2 * maxlag + 2 <= Z.of_nat Nt ->
  lag_index Nt maxlag =
    seq (Z.to_nat (- ((- Z.of_nat Nt) / 2 + 1) - maxlag)) (Z.to_nat (2 * maxlag + 1)).
Proof.
  intros H0 Hfit. unfold lag_index, arange, np_where.
  set (lo := (- Z.of_nat Nt) / 2 + 1).
  set (hi := Z.of_nat Nt / 2).
  assert (Hlo : - Z.of_nat Nt - 1 <= 2 * (lo - 1) <= - Z.of_nat Nt).
  { unfold lo. pose proof (Z.div_mod (- Z.of_nat Nt) 2 ltac:(lia)).
    pose proof (Z.mod_pos_bound (- Z.of_nat Nt) 2 ltac:(lia)). lia. }
  assert (Hhi : 2 * hi <= Z.of_nat Nt <= 2 * hi + 1).
  { unfold hi. pose proof (Z.div_mod (Z.of_nat Nt) 2 ltac:(lia)).
    pose proof (Z.mod_pos_bound (Z.of_nat Nt) 2 ltac:(lia)). lia. }
  rewrite map_map, where_from_seq.
  rewrite (filter_seq_interval _ (Z.to_nat (- lo - maxlag))
             (Z.to_nat (- lo + maxlag + 1))).
  - f_equal. lia.
  - lia.
  - intros k Hk.
    destruct (Z.leb_spec (Z.abs (lo + Z.of_nat k)) maxlag);
      destruct (Nat.leb_spec (Z.to_nat (- lo - maxlag)) k);
      destruct (Nat.ltb_spec k (Z.to_nat (- lo + maxlag + 1))); cbn; auto; lia.
Qed.

Lemma np_take_length {A : Type} (a out : list A) (ind : list nat) :
  np_take a ind = Ok out -> length out = length ind.
Proof.
  revert out. induction ind as [|i ind IH]; intros out; cbn [np_take].
  - now intros [= <-].
  - destruct (py_getitem a (Z.of_nat i)); cbn [bind]; [|discriminate].
    destruct (np_take a ind) as [rest|]; cbn [bind]; [|discriminate].
    intros [= <-]. cbn. now rewrite (IH rest).
Qed.

Lemma np_take_in_range {A : Type} (a : list A) (ind : list nat) :
  Forall (fun i => (i < length a)%nat) ind -> exists out, np_take a ind = Ok out.
Proof.
  induction ind as [|i ind IH]; intros Hall; cbn [np_take]; [eauto|].
  inversion Hall as [|? ? Hi Hall']; subst.
  rewrite py_getitem_nat. destruct (nth_error a i) eqn:E.
  - cbn [bind]. destruct (IH Hall') as [rest ->]. cbn [bind]. eauto.
  - apply nth_error_None in E. lia.
Qed.

Lemma slice_bound_le (n : nat) (i : Z) : (slice_bound n i <= n)%nat.
Proof. unfold slice_bound. destruct (i <? 0); lia. Qed.

Lemma recenter_length {X : Type} (Nt : nat) (corr : list X) :
  (1 <= Nt <= length corr)%nat -> (Nt <= length (recenter Nt corr))%nat.
Proof.
  intros HNt. unfold recenter, py_slice_from, py_slice.
  rewrite length_app, length_skipn, length_firstn, length_skipn.
  pose proof (Z.div_mod (- Z.of_nat Nt) 2 ltac:(lia)).
  pose proof (Z.mod_pos_bound (- Z.of_nat Nt) 2 ltac:(lia)).
  pose proof (Z.div_mod (Z.of_nat Nt) 2 ltac:(lia)).
  pose proof (Z.mod_pos_bound (Z.of_nat Nt) 2 ltac:(lia)).
  unfold slice_bound.
  destruct (Z.ltb_spec ((- Z.of_nat Nt) / 2 + 1) 0);
    destruct (Z.ltb_spec 0 0); destruct (Z.ltb_spec (Z.of_nat Nt / 2 + 1) 0); lia.
Qed.

(** Re-centering and truncation succeed on a lag axis of at least [Nt]
    samples, and leave [2*maxlag + 1] of them. *)
Lemma lag_window_fits {X : Type} (Nt : nat) (maxlag : Z) (corr : list X) :
  0 <= maxlag -> 2 * maxlag + 2 <= Z.of_nat Nt -> (Nt <= length corr)%nat ->
  exists out, lag_window Nt maxlag corr = Ok out /\
              length out = Z.to_nat (2 * maxlag + 1).
Proof.
  intros H0 Hfit Hlen. unfold lag_window.
  destruct (np_take_in_range (recenter Nt corr) (lag_index Nt maxlag)) as [out Hout].
  - rewrite (lag_index_interval Nt maxlag H0 Hfit).
    apply Forall_forall. intros i Hi. apply in_seq in Hi.
    pose proof (recenter_length Nt corr ltac:(lia)).
    pose proof (Z.div_mod (- Z.of_nat Nt) 2 ltac:(lia)).
    pose proof (Z.mod_pos_bound (- Z.of_nat Nt) 2 ltac:(lia)).
    lia.
  - exists out. split; [exact Hout|].
    rewrite (np_take_length _ _ _ Hout), (lag_index_interval Nt maxlag H0 Hfit).
    apply length_seq.
Qed.

Lemma lag_window_length {X : Type} (Nt : nat) (maxlag : Z) (corr out : list X) :
  0 <= maxlag -> 2 * maxlag + 2 <= Z.of_nat Nt ->
  lag_window Nt maxlag corr = Ok out ->
  length out = Z.to_nat (2 * maxlag + 1).
Proof.
  intros H0 Hfit Hout. unfold lag_window in Hout.
  rewrite (np_take_length _ _ _ Hout), (lag_index_interval Nt maxlag H0 Hfit).
  apply length_seq.
Qed.

Lemma sequence_all_ok {A : Type} (l : list (result A)) :
  Forall (fun m => exists x, m = Ok x) l -> exists out, sequence l = Ok out.
Proof.
  induction l as [|m l IH]; intros Hall; cbn [sequence]; [eauto|].
  inversion Hall as [|? ? [x ->] Hall']; subst. cbn [bind].
  destruct (IH Hall') as [rest ->]. cbn [bind]. eauto.
Qed.

Lemma sequence_Forall2 {A : Type} (l : list (result A)) (out : list A) :
  sequence l = Ok out -> Forall2 (fun m x => m = Ok x) l out.
Proof.
  revert out. induction l as [|m l IH]; intros out; cbn [sequence].
  - intros [= <-]. constructor.
  - destruct m as [x|]; cbn [bind]; [|discriminate].
    destruct (sequence l) as [rest|]; cbn [bind]; [|discriminate].
    intros [= <-]. constructor; auto.
Qed.

Lemma Forall2_map_left {A B C : Type} (P : B -> C -> Prop) (f : A -> B)
    (l : list A) (l' : list C) :
  Forall2 P (map f l) l' -> Forall2 (fun a c => P (f a) c) l l'.
Proof.
  revert l'. induction l as [|a l IH]; intros l' H; inversion H; subst;
    constructor; auto.
Qed.

Lemma broadcast_same_length {A B C : Type} (f : A -> B -> C) (x : list A) (y : list B) :
  length x = length y ->
  broadcast f x y = Ok (map (fun p => f (fst p) (snd p)) (combine x y)).
Proof. intros H. unfold broadcast. now rewrite H, Nat.eqb_refl. Qed.

Section CorrelationFacts.

Context {num : Numeric}.
Variable smooth : list Re -> nat -> list Re.

Lemma ifft_length (n : nat) (x : list Cx) : length (ifft n x) = n.
Proof. unfold ifft. now rewrite length_map, length_seq. Qed.

Lemma broadcast2_same_shape {A B C : Type} (f : A -> B -> C)
    (x : list (list A)) (y : list (list B)) (c : nat) :
  length x = length y ->
  Forall (fun row => length row = c) x -> Forall (fun row => length row = c) y ->
  exists m, broadcast2 f x y = Ok m /\
            length m = length x /\ Forall (fun row => length row = c) m.
Proof.
  intros Hlen Hx Hy. unfold broadcast2.
  rewrite (broadcast_same_length _ x y Hlen). cbn [bind].
  revert y Hlen Hy. induction Hx as [|r x Hr Hx IH]; intros [|s y] Hlen Hy;
    try discriminate; cbn [combine map sequence].
  - exists []. repeat split; constructor.
  - inversion Hy as [|? ? Hs Hy']; subst. cbn [fst snd].
    rewrite (broadcast_same_length f r s) by congruence. cbn [bind].
    destruct (IH y ltac:(cbn in Hlen; lia) Hy') as (m & -> & Hm & Hall). cbn [bind].
    eexists. split; [reflexivity|]. cbn [length]. split; [lia|].
    constructor; [|exact Hall].
    rewrite length_map, length_combine. rewrite Hs. apply Nat.min_id.
Qed.

(** What the last step of [correlate] returns, whatever came before. *)
Lemma correlate_returns_lag_window (fft1 fft2 : ndarray Cx) (maxlag : Q)
    (Nfft : option nat) (method : string) (out : ndarray Re) :
  correlate smooth fft1 fft2 maxlag Nfft method = Ok out ->
  match out with
  | Arr1 v =>
      is_2d fft1 = false /\
      exists corr, lag_window (lag_axis_size fft1) (np_round maxlag) corr = Ok v
  | Arr2 m =>
      if is_2d fft1 then
        exists rows,
          Forall2 (fun corr row =>
                     lag_window (lag_axis_size fft1) (np_round maxlag) corr = Ok row)
                  rows m
      else
        exists corr, lag_window (lag_axis_size fft1) (np_round maxlag) corr = Ok m
  end.
Proof.
  unfold correlate.
  destruct (np_binop cmul fft1 (np_map cconj fft2)) as [corr|]; cbn [bind];
    [|discriminate].
  match goal with |- context [bind ?m _] => destruct m as [corr2|] end;
    cbn [bind]; [|discriminate].
  destruct (ifft_axis _ _ corr2) as [corr3|]; cbn [bind]; [|discriminate].
  destruct corr3 as [v|m]; cbn [np_map].
  - destruct fft1 as [x|x]; cbn [is_2d lag_axis_size]; [|discriminate].
    destruct (lag_window _ _ _) as [v'|] eqn:E; cbn [bind]; [|discriminate].
    intros [= <-]. split; [reflexivity|]. eauto.
  - destruct fft1 as [x|x]; cbn [is_2d lag_axis_size].
    + destruct (lag_window _ _ _) as [m'|] eqn:E; cbn [bind]; [|discriminate].
      intros [= <-]. eauto.
    + destruct (sequence _) as [rows|] eqn:E; cbn [bind]; [|discriminate].
      intros [= <-]. apply sequence_Forall2 in E.
      exists (map (map creal) m).
      apply Forall2_map_left in E. exact E.
Qed.

End CorrelationFacts.

Lemma where_from_bound (start : nat) (mask : list bool) :
  Forall (fun i => (start <= i < start + length mask)%nat) (where_from start mask).
Proof.
  revert start. induction mask as [|b mask IH]; intros start; cbn [where_from].
  - constructor.
  - apply Forall_app. split.
    + destruct b; constructor; [cbn; lia|constructor].
    + eapply Forall_impl; [|apply IH]. cbn. intros i Hi. lia.
Qed.

(** Re-centering and truncation succeed on any lag axis of at least [Nt]
    samples: every index kept lies below [Nt - 1]. *)
Lemma lag_window_succeeds {X : Type} (Nt : nat) (maxlag : Z) (corr : list X) :
  (1 <= Nt <= length corr)%nat -> exists out, lag_window Nt maxlag corr = Ok out.
Proof.
  intros HNt. unfold lag_window. apply np_take_in_range.
  pose proof (recenter_length Nt corr HNt) as Hlen.
  unfold lag_index, np_where.
  eapply Forall_impl; [|apply where_from_bound].
  cbn beta. intros i Hi. unfold arange in Hi.
  rewrite !length_map, length_seq in Hi.
  pose proof (Z.div_mod (- Z.of_nat Nt) 2 ltac:(lia)).
  pose proof (Z.mod_pos_bound (- Z.of_nat Nt) 2 ltac:(lia)).
  pose proof (Z.div_mod (Z.of_nat Nt) 2 ltac:(lia)).
  pose proof (Z.mod_pos_bound (Z.of_nat Nt) 2 ltac:(lia)).
  lia.
Qed.

Lemma skipn_nth_error_cons {A : Type} (l : list A) (a : nat) (x : A) :
  nth_error l a = Some x -> skipn a l = x :: skipn (S a) l.
Proof.
  revert a. induction l as [|y l IH]; intros [|a] H; try discriminate.
  - now injection H as ->.
  - cbn [nth_error] in H. cbn [skipn]. rewrite (IH a H). reflexivity.
Qed.

(** Taking a run of consecutive indices is slicing. *)
Lemma np_take_seq {A : Type} (l : list A) (a n : nat) :
  (a + n <= length l)%nat ->
  np_take l (seq a n) = Ok (firstn n (skipn a l)).
Proof.
  revert a. induction n as [|n IH]; intros a Hlen; cbn [seq np_take firstn].
  - reflexivity.
  - rewrite py_getitem_nat.
    destruct (nth_error l a) as [x|] eqn:E.
    + cbn [bind]. rewrite IH by lia. cbn [bind].
      now rewrite (skipn_nth_error_cons l a x E).
    + apply nth_error_None in E. lia.
Qed.

(** Re-centering and truncation give the lags [-maxlag, ..., maxlag] with
    lag 0 in the middle. *)
Lemma lag_window_centered {X : Type} (Nt : nat) (maxlag : Z) (corr : list X) :
  0 <= maxlag -> 2 * maxlag + 2 <= Z.of_nat Nt -> (Nt <= length corr)%nat ->
  lag_window Nt maxlag corr = Ok (centered_lags (Z.to_nat maxlag) corr).
Proof.
  intros H0 Hfit Hlen. unfold lag_window.
  rewrite (lag_index_interval Nt maxlag H0 Hfit).
  set (lo := (- Z.of_nat Nt) / 2 + 1).
  set (hi := Z.of_nat Nt / 2).
  assert (Hlo : - Z.of_nat Nt - 1 <= 2 * (lo - 1) <= - Z.of_nat Nt).
  { unfold lo. pose proof (Z.div_mod (- Z.of_nat Nt) 2 ltac:(lia)).
    pose proof (Z.mod_pos_bound (- Z.of_nat Nt) 2 ltac:(lia)). lia. }
  assert (Hhi : 2 * hi <= Z.of_nat Nt <= 2 * hi + 1).
  { unfold hi. pose proof (Z.div_mod (Z.of_nat Nt) 2 ltac:(lia)).
    pose proof (Z.mod_pos_bound (Z.of_nat Nt) 2 ltac:(lia)). lia. }
  set (L := length corr) in *.
  set (m := Z.to_nat maxlag). assert (Hm : maxlag = Z.of_nat m) by lia.
  assert (Erec : recenter Nt corr =
                 skipn (if lo <? 0 then (L - Z.to_nat (- lo))%nat else 0%nat) corr
                 ++ firstn (Z.to_nat hi + 1) corr).
  { unfold recenter, py_slice_from, py_slice. fold lo hi L. f_equal.
    - f_equal. unfold slice_bound. destruct (Z.ltb_spec lo 0); lia.
    - replace (slice_bound L 0) with 0%nat
        by (unfold slice_bound; destruct (Z.ltb_spec 0 0); lia).
      cbn [skipn]. f_equal. unfold slice_bound.
      destruct (Z.ltb_spec (hi + 1) 0); lia. }
  rewrite Erec. clear Erec.
  replace (Z.to_nat (2 * maxlag + 1)) with (2 * m + 1)%nat by lia.
  unfold centered_lags. fold L.
  destruct (Z.ltb_spec lo 0) as [Hneg|Hzero].
  - set (c := Z.to_nat (- lo)).
    replace (Z.to_nat (- lo - maxlag)) with (c - m)%nat by lia.
    rewrite np_take_seq.
    2:{ rewrite length_app, length_skipn, length_firstn. fold L. lia. }
    f_equal.
    rewrite skipn_app, skipn_skipn, length_skipn. fold L.
    replace (c - m - (L - (L - c)))%nat with 0%nat by lia.
    replace (c - m + (L - c))%nat with (L - m)%nat by lia.
    cbn [skipn].
    rewrite firstn_app, length_skipn. fold L.
    rewrite firstn_all2 by (rewrite length_skipn; fold L; lia).
    replace (2 * m + 1 - (L - (L - m)))%nat with (m + 1)%nat by lia.
    rewrite firstn_firstn. f_equal. f_equal. lia.
  - assert (Em : m = 0%nat) by lia.
    replace (Z.to_nat (- lo - maxlag)) with 0%nat by lia.
    rewrite np_take_seq.
    2:{ rewrite length_app, length_skipn, length_firstn. fold L. lia. }
    f_equal. rewrite Em. cbn [skipn Nat.mul Nat.add].
    rewrite Nat.sub_0_r.
    rewrite (skipn_all2 corr) by (fold L; lia). cbn [app].
    destruct corr as [|x corr]; [cbn in Hlen; lia|]. reflexivity.
Qed.

Lemma sequence_map_ok {A B : Type} (f : A -> result B) (g : A -> B) (l : list A) :
  Forall (fun a => f a = Ok (g a)) l -> sequence (map f l) = Ok (map g l).
Proof.
  intros H. induction H as [|a l Ha _ IH]; cbn [map sequence]; [reflexivity|].
  rewrite Ha. cbn [bind]. rewrite IH. reflexivity.
Qed.

Section CorrelationClaims.

Context {num : Numeric}.
Variable smooth : list Re -> nat -> list Re.

(** Plain cross-correlation of two spectra of one shape returns. *)
Lemma correlate_cross_correlation_returns (fft1 fft2 : ndarray Cx) (maxlag : Q) :
  same_shape fft1 fft2 -> (1 <= lag_axis_size fft1)%nat ->
  exists out,
    correlate smooth fft1 fft2 maxlag None "cross_correlation" = Ok out.
Proof.
  intros Hshape HNt. unfold correlate.
  replace (String.eqb "cross_correlation" "deconv") with false by reflexivity.
  replace (String.eqb "cross_correlation" "coherence") with false by reflexivity.
  destruct fft1 as [x|x], fft2 as [y|y]; cbn [same_shape] in Hshape; try tauto;
    cbn [lag_axis_size] in HNt; cbn [np_map np_binop].
  - rewrite (broadcast_same_length cmul x (map cconj y))
      by now rewrite length_map.
    cbn [bind]. unfold ifft_axis.
    pose proof (next_fast_len_ge (length x)) as Hfast.
    destruct (Nat.eqb_spec (next_fast_len (length x)) 0); [lia|].
    cbn [bind np_map].
    destruct (lag_window_succeeds (length x) (np_round maxlag)
                (map creal (ifft (next_fast_len (length x))
                   (map (fun p => cmul (fst p) (snd p)) (combine x (map cconj y))))))
      as [out ->].
    + rewrite length_map, ifft_length. lia.
    + cbn [bind]. eauto.
  - destruct Hshape as (Hlen & Hx & Hy).
    destruct (broadcast2_same_shape cmul x (map (map cconj) y) (ncols x))
      as (m & -> & Hm & Hall).
    + now rewrite length_map.
    + exact Hx.
    + apply Forall_map. eapply Forall_impl; [|exact Hy].
      cbn beta. intros row Hrow. now rewrite length_map.
    + cbn [bind]. unfold ifft_axis.
      pose proof (next_fast_len_ge (ncols x)) as Hfast.
      destruct (Nat.eqb_spec (next_fast_len (ncols x)) 0); [lia|].
      cbn [bind np_map].
      destruct (sequence_all_ok
                  (map (lag_window (ncols x) (np_round maxlag))
                     (map (map creal) (map (ifft (next_fast_len (ncols x))) m))))
        as [rows ->].
      * rewrite !Forall_map. apply Forall_forall. intros row _.
        apply lag_window_succeeds. rewrite length_map, ifft_length. lia.
      * cbn [bind]. eauto.
Qed.

(** The inverse transform has [Nfft] samples along the lag axis. *)
Lemma ifft_axis_lag_length (along_rows : bool) (Nfft : nat) (c c' : ndarray Cx) :
  ifft_axis along_rows Nfft c = Ok c' ->
  match c' with
  | Arr1 v => length v = Nfft
  | Arr2 m =>
      if along_rows then Forall (fun row => length row = Nfft) m
      else m = [] \/ length m = Nfft
  end.
Proof.
  unfold ifft_axis. destruct (Nfft =? 0)%nat; [discriminate|].
  destruct c as [v|m]; destruct along_rows; try discriminate; intros [= <-].
  - apply ifft_length.
  - apply Forall_map, Forall_forall. intros row _. apply ifft_length.
  - destruct (map (ifft Nfft) (transpose m)) as [|row rows] eqn:E.
    + left. reflexivity.
    + right. unfold transpose. rewrite length_map, length_seq. cbn [ncols].
      assert (Hin : In row (map (ifft Nfft) (transpose m)))
        by (rewrite E; now left).
      apply in_map_iff in Hin as (r & <- & _). apply ifft_length.
Qed.

Lemma lag_window_of_nothing {X : Type} (Nt : nat) (maxlag : Z) (out : list X) :
  0 <= maxlag -> 2 * maxlag + 2 <= Z.of_nat Nt ->
  lag_window Nt maxlag (@nil X) = Ok out -> False.
Proof.
  intros H0 Hfit. unfold lag_window.
  rewrite (lag_index_interval Nt maxlag H0 Hfit).
  destruct (Z.to_nat (2 * maxlag + 1)) as [|k] eqn:E; [lia|].
  cbn [seq np_take]. rewrite py_getitem_nat.
  unfold recenter, py_slice_from, py_slice. cbn [length].
  rewrite !skipn_nil, firstn_nil. cbn [app].
  destruct (Z.to_nat (- _ - maxlag)); cbn [nth_error bind]; discriminate.
Qed.

(** What [correlate] returns is cut, along the lag axis, from the real
    part of the inverse transform: when that has at least [Nt] samples,
    the array returned holds its lags [-m, ..., m], lag 0 in the middle. *)
Lemma correlate_centred (fft1 fft2 : ndarray Cx) (maxlag : Q)
    (Nfft : option nat) (method : string) (out : ndarray Re) :
  0 <= np_round maxlag ->
  2 * np_round maxlag + 2 <= Z.of_nat (lag_axis_size fft1) ->
  (lag_axis_size fft1 <= fft_size fft1 Nfft)%nat ->
  correlate smooth fft1 fft2 maxlag Nfft method = Ok out ->
  exists corr,
    inverse_transform smooth fft1 fft2 Nfft method = Ok corr /\
    centred_on_zero_lag (is_2d fft1) (Z.to_nat (np_round maxlag)) corr out.
Proof.
  intros H0 Hfit HN. unfold correlate, inverse_transform.
  destruct (np_binop cmul fft1 (np_map cconj fft2)) as [c1|]; cbn [bind];
    [|discriminate].
  match goal with |- context [bind ?m _] => destruct m as [c2|] end;
    cbn [bind]; [|discriminate].
  destruct (ifft_axis _ _ c2) as [c3|] eqn:Ei; cbn [bind]; [|discriminate].
  apply ifft_axis_lag_length in Ei.
  intros Hout. exists (np_map creal c3). split; [reflexivity|].
  destruct c3 as [v|m]; cbn [np_map] in *;
    destruct fft1 as [x|x]; cbn [is_2d lag_axis_size fft_size] in *;
    cbn [centred_on_zero_lag].
  - destruct (lag_window _ _ _) as [v'|] eqn:E; cbn [bind] in Hout; [|discriminate].
    injection Hout as <-.
    rewrite lag_window_centered in E; [| assumption | assumption |].
    + now injection E as <-.
    + rewrite length_map. unfold fft_size, lag_axis_size in HN. lia.
  - discriminate.
  - destruct (lag_window _ _ _) as [m'|] eqn:E; cbn [bind] in Hout; [|discriminate].
    injection Hout as <-.
    destruct Ei as [->|Hlen].
    + exfalso. exact (lag_window_of_nothing _ _ _ H0 Hfit E).
    + rewrite lag_window_centered in E; [| assumption | assumption |].
      * now injection E as <-.
      * rewrite length_map. unfold fft_size, lag_axis_size in HN. lia.
  - destruct (sequence _) as [rows|] eqn:E; cbn [bind] in Hout; [|discriminate].
    injection Hout as <-.
    rewrite (sequence_map_ok _ (centered_lags (Z.to_nat (np_round maxlag)))) in E.
    + now injection E as <-.
    + apply Forall_map. eapply Forall_impl; [|exact Ei].
      cbn beta. intros row Hrow.
      apply lag_window_centered; [assumption|assumption|].
      rewrite length_map. unfold fft_size, lag_axis_size in HN. lia.
Qed.

(** C2 (as amended). With [maxlag] rounded to the nearest integer [m] (ties
    to even), [0 <= m] and [2*m + 2 <= Nt] for the [Nt] bins of the lag axis
    of [fft1], every array that [correlate] returns has exactly [2*m + 1]
    samples along the lag axis; when the transform has at least [Nt]
    points, as the default has, these are the lags [-m, ..., m] of the
    real part of the inverse transform, lag 0 in the middle: its last [m]
    samples followed by its first [m + 1]; and for two spectra of one
    shape, with the default transform length, plain cross-correlation
    does return. *)
Theorem correlate_lag_axis_length (fft1 fft2 : ndarray Cx) (maxlag : Q)
    (Nfft : option nat) (method : string) :
  0 <= np_round maxlag ->
  2 * np_round maxlag + 2 <= Z.of_nat (lag_axis_size fft1) ->
  (forall out,
     correlate smooth fft1 fft2 maxlag Nfft method = Ok out ->
     lag_axis_length (is_2d fft1) out (Z.to_nat (2 * np_round maxlag + 1))) /\
  (forall out,
     correlate smooth fft1 fft2 maxlag Nfft method = Ok out ->
     (lag_axis_size fft1 <= fft_size fft1 Nfft)%nat ->
     exists corr,
       inverse_transform smooth fft1 fft2 Nfft method = Ok corr /\
       centred_on_zero_lag (is_2d fft1) (Z.to_nat (np_round maxlag)) corr out) /\
  (same_shape fft1 fft2 ->
   exists out, correlate smooth fft1 fft2 maxlag None "cross_correlation" = Ok out).
Proof.
  intros H0 Hfit. split; [|split].
  - intros out Hout. apply correlate_returns_lag_window in Hout.
    destruct out as [v|m]; cbn [lag_axis_length].
    + destruct Hout as (_ & corr & Hcorr).
      apply (lag_window_length _ _ _ _ H0 Hfit Hcorr).
    + destruct (is_2d fft1).
      * destruct Hout as (rows & Hrows).
        induction Hrows as [|corr row rows m Hcorr Hrows IH]; constructor; auto.
        apply (lag_window_length _ _ _ _ H0 Hfit Hcorr).
      * destruct Hout as (corr & Hcorr).
        apply (lag_window_length _ _ _ _ H0 Hfit Hcorr).
  - intros out Hout HN. now apply correlate_centred.
  - intros Hshape. apply correlate_cross_correlation_returns; [exact Hshape|lia].
Qed.

(** C10. On 1-D spectra the regularisation term of ['deconv'] and
    ['coherence'] takes a mean over axis 1, which a 1-D array does not have:
    for two 1-D spectra of one length, [correlate] raises [AxisError] with
    either method; it never returns with either method, so of the three
    methods only ['cross_correlation'] can complete; and with
    ['cross_correlation'] (default transform length, at least one bin) it
    does return. *)
Theorem correlate_1d_axis_error (x y : list Cx) (maxlag : Q) (Nfft : option nat)
    (method : string) :
  (length x = length y ->
   method = "deconv"%string \/ method = "coherence"%string ->
   correlate smooth (Arr1 x) (Arr1 y) maxlag Nfft method = Raise AxisError) /\
  (forall out,
     correlate smooth (Arr1 x) (Arr1 y) maxlag Nfft method = Ok out ->
     method <> "deconv"%string /\ method <> "coherence"%string /\
     (method = "cross_correlation"%string \/ method = "deconv"%string \/
      method = "coherence"%string -> method = "cross_correlation"%string)) /\
  (length x = length y -> (0 < length x)%nat ->
   exists out,
     correlate smooth (Arr1 x) (Arr1 y) maxlag None "cross_correlation" = Ok out).
Proof.
  split; [|split].
  - intros Hlen Hm. unfold correlate. cbn [np_map np_binop].
    rewrite (broadcast_same_length cmul x (map cconj y))
      by now rewrite length_map.
    cbn [bind]. destruct Hm as [-> | ->]; reflexivity.
  - intros out Hout.
    assert (Hd : method <> "deconv"%string).
    { intros ->. revert Hout. unfold correlate. cbn [np_map np_binop].
      destruct (broadcast cmul x (map cconj y)); cbn [bind]; discriminate. }
    assert (Hc : method <> "coherence"%string).
    { intros ->. revert Hout. unfold correlate. cbn [np_map np_binop].
      destruct (broadcast cmul x (map cconj y)); cbn [bind]; discriminate. }
    repeat split; try assumption.
    intros [H|[H|H]]; [exact H|contradiction|contradiction].
  - intros Hlen Hpos.
    apply correlate_cross_correlation_returns; [exact Hlen|cbn; lia].
Qed.

End CorrelationClaims.

(** ** Spectral whitener *)

Section WhitenerFacts.

Context {num : Numeric}.

(** Two frames of four samples at 1 Hz, whitened between 0.1 and 0.3 Hz:
    the band holds bin 1 alone. In the spectrum returned, bin 3 of each row
    is the conjugate of bin 1 of the other row. *)
Lemma whiten_two_frames (a0 a1 a2 a3 b0 b1 b2 b3 : Re) :
  whiten (Arr2 [[a0; a1; a2; a3]; [b0; b1; b2; b3]]) 1 (1 # 10) (3 # 10) true None =
  Ok (Arr2
        [[cmul0 (fft_bin 4 [a0; a1; a2; a3] 0);
          cscale (taper_right 1 0) (unit_phase (fft_bin 4 [a0; a1; a2; a3] 1));
          cmul0 (fft_bin 4 [a0; a1; a2; a3] 2);
          cconj (cscale (taper_right 1 0)
                   (unit_phase (fft_bin 4 [b0; b1; b2; b3] 1)))];
         [cmul0 (fft_bin 4 [b0; b1; b2; b3] 0);
          cscale (taper_right 1 0) (unit_phase (fft_bin 4 [b0; b1; b2; b3] 1));
          cmul0 (fft_bin 4 [b0; b1; b2; b3] 2);
          cconj (cscale (taper_right 1 0)
                   (unit_phase (fft_bin 4 [a0; a1; a2; a3] 1)))]]).
Proof. vm_compute. reflexivity. Qed.

(** One frame of eight samples, as a 2-D array of one row and as a 1-D
    array, whitened between 0.1 and 0.3 Hz. The 1-D path mirrors bins 1, 2,
    3 into bins 7, 6, 5; the 2-D path copies them into bins 5, 6, 7. *)
Lemma whiten_one_frame_1d (x : list Re) :
  length x = 8%nat ->
  let X := fft_bin 8 x in
  whiten (Arr1 x) 1 (1 # 10) (3 # 10) true None =
  Ok (Arr1
        [cmul0 (X 0%nat);
         unit_phase (X 1%nat);
         cscale (taper_right 2 0) (unit_phase (X 2%nat));
         cscale (taper_right 2 1) (unit_phase (X 3%nat));
         cmul0 (X 4%nat);
         cconj (cscale (taper_right 2 1) (unit_phase (X 3%nat)));
         cconj (cscale (taper_right 2 0) (unit_phase (X 2%nat)));
         cconj (unit_phase (X 1%nat))]).
Proof.
  intros Hlen.
  do 9 (destruct x as [|? x]; try discriminate Hlen). vm_compute. reflexivity.
Qed.

Lemma whiten_one_frame_2d (x : list Re) :
  length x = 8%nat ->
  let X := fft_bin 8 x in
  whiten (Arr2 [x]) 1 (1 # 10) (3 # 10) true None =
  Ok (Arr2
        [[cmul0 (X 0%nat);
          unit_phase (X 1%nat);
          cscale (taper_right 2 0) (unit_phase (X 2%nat));
          cscale (taper_right 2 1) (unit_phase (X 3%nat));
          cmul0 (X 4%nat);
          cconj (unit_phase (X 1%nat));
          cconj (cscale (taper_right 2 0) (unit_phase (X 2%nat)));
          cconj (cscale (taper_right 2 1) (unit_phase (X 3%nat)))]]).
Proof.
  intros Hlen.
  do 9 (destruct x as [|? x]; try discriminate Hlen). vm_compute. reflexivity.
Qed.

Lemma assign_slice_length {A : Type} (l l' : list A) (start stop : Z) (vals : list A) :
  assign_slice l start stop vals = Ok l' -> length l' = length l.
Proof.
  unfold assign_slice.
  pose proof (slice_bound_le (length l) start) as Ha.
  pose proof (slice_bound_le (length l) stop) as Hb.
  set (a := slice_bound (length l) start) in *.
  set (b := slice_bound (length l) stop) in *.
  destruct (Nat.eqb_spec (length vals) (b - a)) as [E|_].
  - intros [= <-]. rewrite !length_app, length_firstn, length_skipn. lia.
  - destruct vals as [|v [|? ?]]; try discriminate.
    intros [= <-].
    rewrite !length_app, length_firstn, repeat_length, length_skipn. lia.
Qed.

Lemma shape_band_length (Nfft : nat) (low left right high : Z) (row row' : list Cx) :
  shape_band Nfft low left right high row = Ok row' -> length row' = length row.
Proof.
  unfold shape_band.
  destruct (assign_slice row 0 low _) as [r1|] eqn:E1; cbn [bind]; [|discriminate].
  destruct (cos_taper taper_left _) as [tl|]; cbn [bind]; [|discriminate].
  destruct (broadcast cscale tl _) as [v1|]; cbn [bind]; [|discriminate].
  destruct (assign_slice r1 low left v1) as [r2|] eqn:E2; cbn [bind]; [|discriminate].
  destruct (assign_slice r2 left right _) as [r3|] eqn:E3; cbn [bind]; [|discriminate].
  destruct (cos_taper taper_right _) as [tr|]; cbn [bind]; [|discriminate].
  destruct (broadcast cscale tr _) as [v2|]; cbn [bind]; [|discriminate].
  destruct (assign_slice r3 right high v2) as [r4|] eqn:E4; cbn [bind]; [|discriminate].
  intros E5.
  apply assign_slice_length in E1, E2, E3, E4, E5. congruence.
Qed.

(** The mirror step of the 1-D branch: bins [1, Nfft/2) stay, and bin
    [Nfft - k] receives the conjugate of bin [k]. *)
Lemma hermitian_1d_mirror (Nfft : nat) (row out : list Cx) :
  length row = Nfft ->
  hermitian_1d Nfft row = Ok out ->
  forall k, (1 <= k < Nfft / 2)%nat ->
    nth k out czero = nth k row czero /\
    nth (Nfft - k) out czero = cconj (nth k row czero).
Proof.
  intros Hlen Hout k Hk.
  pose proof (Nat.Div0.mul_div_le Nfft 2) as Hh.
  set (h := (Nfft / 2)%nat) in *.
  unfold hermitian_1d, assign_slice_from, assign_slice, py_slice in Hout.
  fold h in Hout. rewrite Hlen in Hout.
  assert (Ea : slice_bound Nfft (- Z.of_nat h + 1) = (Nfft - h + 1)%nat).
  { unfold slice_bound. destruct (Z.ltb_spec (- Z.of_nat h + 1) 0); lia. }
  assert (Eb : slice_bound Nfft (Z.of_nat Nfft) = Nfft).
  { unfold slice_bound. destruct (Z.ltb_spec (Z.of_nat Nfft) 0); lia. }
  assert (E1 : slice_bound Nfft 1 = 1%nat).
  { unfold slice_bound. destruct (Z.ltb_spec 1 0); lia. }
  assert (Eh : slice_bound Nfft (Z.of_nat h) = h).
  { unfold slice_bound. destruct (Z.ltb_spec (Z.of_nat h) 0); lia. }
  rewrite Ea, Eb, E1, Eh in Hout.
  set (sl := firstn (h - 1) (skipn 1 row)) in *.
  assert (Hsl : length sl = (h - 1)%nat).
  { unfold sl. rewrite length_firstn, length_skipn. lia. }
  rewrite length_rev, length_map, Hsl in Hout.
  destruct (Nat.eqb_spec (h - 1) (Nfft - (Nfft - h + 1))) as [_|Hne]; [|lia].
  injection Hout as <-.
  assert (Hfirst : length (firstn (Nfft - h + 1) row) = (Nfft - h + 1)%nat)
    by (rewrite length_firstn; lia).
  split.
  - rewrite app_nth1 by lia. rewrite nth_firstn.
    destruct (Nat.ltb_spec k (Nfft - h + 1)); [reflexivity|lia].
  - rewrite app_nth2 by lia. rewrite Hfirst.
    rewrite app_nth1 by (rewrite length_rev, length_map; lia).
    rewrite rev_nth by (rewrite length_map; lia).
    rewrite length_map, Hsl.
    rewrite (nth_map_lt cconj sl _ czero czero) by lia.
    f_equal. unfold sl. rewrite nth_firstn.
    destruct (Nat.ltb_spec (h - 1 - S (Nfft - k - (Nfft - h + 1))) (h - 1)); [|lia].
    rewrite nth_skipn. f_equal. lia.
Qed.

(** The 1-D branch of [whiten] does what its comment says: in the spectrum
    it returns, bin [Nfft - k] is the conjugate of bin [k] for [k] in
    [1, Nfft/2). *)
Lemma whiten_1d_mirrors (x : list Re) (delta freqmin freqmax : Q)
    (Nfft : option nat) (out : list Cx) :
  whiten (Arr1 x) delta freqmin freqmax true Nfft = Ok (Arr1 out) ->
  let n := match Nfft with Some n => n | None => next_fast_len (length x) end in
  forall k, (1 <= k < n / 2)%nat ->
    nth (n - k) out czero = cconj (nth k out czero).
Proof.
  intros Hw n k Hk. unfold whiten in Hw. fold n in Hw.
  destruct (freqVec n delta) as [freqs|]; cbn [bind] in Hw; [|discriminate].
  destruct (py_getitem _ 0) as [J0|]; cbn [bind] in Hw; [|discriminate].
  destruct (py_getitem _ (-1)) as [Jlast|]; cbn [bind] in Hw; [|discriminate].
  destruct (n =? 0)%nat; [discriminate|].
  destruct (shape_band n _ _ _ _ (fft n x)) as [shaped|] eqn:Es;
    cbn [bind] in Hw; [|discriminate].
  destruct (hermitian_1d n shaped) as [out'|] eqn:Eh; cbn [bind] in Hw;
    [|discriminate].
  injection Hw as ->.
  apply shape_band_length in Es.
  assert (Hlen : length shaped = n).
  { rewrite Es. unfold fft. now rewrite length_map, length_seq. }
  destruct (hermitian_1d_mirror n shaped out Hlen Eh k Hk) as [H1 H2].
  now rewrite H2, H1.
Qed.

End WhitenerFacts.

Section DeconvolutionFacts.

Context {num : Numeric}.

(** The divisor of ['deconv'] on two spectra of one row and two bins, with
    the boxcar kernel: the code takes the regularising mean from the first
    spectrum, the specification from the second. *)
Lemma deconv_divisor_one_row (a1 a2 b1 b2 : Cx) :
  deconv_divisor boxcar_smooth (Arr2 [[a1; a2]]) (Arr2 [[b1; b2]]) =
  Ok (Arr2
        [[radd (rsquare (rmean [cabs b1; cabs b2]))
               (rhundredth (rmean [rmean [cabs a1; cabs a2]; rmean [cabs a1; cabs a2]]));
          radd (rsquare (rmean [cabs b1; cabs b2]))
               (rhundredth (rmean [rmean [cabs a1; cabs a2]; rmean [cabs a1; cabs a2]]))]]).
Proof. reflexivity. Qed.

Lemma deconv_divisor_spec_one_row (b1 b2 : Cx) :
  deconv_divisor_spec boxcar_smooth (Arr2 [[b1; b2]]) =
  Ok (Arr2
        [[radd (rsquare (rmean [cabs b1; cabs b2]))
               (rhundredth (rmean [rmean [cabs b1; cabs b2]; rmean [cabs b1; cabs b2]]));
          radd (rsquare (rmean [cabs b1; cabs b2]))
               (rhundredth (rmean [rmean [cabs b1; cabs b2]; rmean [cabs b1; cabs b2]]))]]).
Proof. reflexivity. Qed.

End DeconvolutionFacts.

(** ** Evaluation in exact arithmetic *)

Section ExactArithmetic.

Local Open Scope R_scope.

Lemma RC_abs_of_real (x : R) : 0 <= x -> RC_abs (x, 0) = x.
Proof.
  intros Hx. unfold RC_abs. cbn [fst snd].
  replace (x * x + 0 * 0) with (x * x) by ring. now apply sqrt_square.
Qed.

Lemma RC_abs_minus_i : RC_abs (0, -1) = 1.
Proof.
  unfold RC_abs. cbn [fst snd].
  replace (0 * 0 + -1 * -1) with 1 by ring. apply sqrt_1.
Qed.

Lemma RC_unit_phase_one : RC_unit_phase (1, 0) = (1, 0).
Proof.
  unfold RC_unit_phase. rewrite (RC_abs_of_real 1) by lra.
  destruct (Req_dec_T 1 0); [lra|]. cbn [fst snd]. f_equal; field.
Qed.

Lemma RC_unit_phase_minus_i : RC_unit_phase (0, -1) = (0, -1).
Proof.
  unfold RC_unit_phase. rewrite RC_abs_minus_i.
  destruct (Req_dec_T 1 0); [lra|]. cbn [fst snd]. f_equal; field.
Qed.

Ltac unfold_dft :=
  unfold R_fft_bin, RC_sum;
  cbn [map seq nth fold_right Z.of_nat Pos.of_succ_nat Pos.succ];
  unfold RC_add, RC_scale, RC_cis, RC_zero; cbn [fst snd].

(** The transform of a unit pulse at sample 0 is 1 in every bin, here in
    bin 1 of 4. *)
Lemma fft_pulse_at_0 : R_fft_bin 4 [1; 0; 0; 0] 1 = (1, 0).
Proof.
  unfold_dft.
  replace (- (2 * PI * 0 * 1 / 4)) with 0 by field.
  rewrite cos_0, sin_0. f_equal; ring.
Qed.

(** The transform of a unit pulse at sample 1 is [exp(-2 pi 1j k / 4)], here
    [-1j] in bin 1. *)
Lemma fft_pulse_at_1 : R_fft_bin 4 [0; 1; 0; 0] 1 = (0, -1).
Proof.
  unfold_dft.
  replace (- (2 * PI * 1 * 1 / 4)) with (- (PI / 2)) by field.
  rewrite !cos_neg, !sin_neg, cos_PI2, sin_PI2. f_equal; ring.
Qed.

Lemma taper_right_single : cos2 (linspace 0 (PI / 2) 1 0) = 1.
Proof. unfold cos2, linspace. cbn [Nat.eqb]. rewrite cos_0. ring. Qed.

(** C1. Two frames, a unit pulse at sample 0 and a unit pulse at sample 1,
    whitened between 0.1 and 0.3 Hz at 1 Hz sampling ([Nfft = 4]): the
    returned spectrum is [[0, 1, 0, 1j], [0, -1j, 0, 1]], and its first row
    is not conjugate-symmetric, since bin 3 holds the conjugate of bin 1 of
    the second row. *)
Theorem whiten_2d_rows_not_hermitian :
  whiten (num := real_numeric) (Arr2 [[1; 0; 0; 0]; [0; 1; 0; 0]])
         1 (1 # 10) (3 # 10) true None
    = Ok (Arr2 [[(0, 0); (1, 0); (0, 0); (0, 1)];
                [(0, 0); (0, -1); (0, 0); (1, 0)]]) /\
  ~ hermitian (num := real_numeric) 4
      (Arr2 [[(0, 0); (1, 0); (0, 0); (0, 1)];
             [(0, 0); (0, -1); (0, 0); (1, 0)]]).
Proof.
  split.
  - etransitivity;
      [exact (whiten_two_frames (num := real_numeric) 1 0 0 0 0 1 0 0)|].
    cbn [real_numeric Re Cx czero cscale cconj unit_phase taper_right fft_bin].
    rewrite fft_pulse_at_0, fft_pulse_at_1, RC_unit_phase_one,
      RC_unit_phase_minus_i, taper_right_single.
    unfold RC_zero, RC_conj, RC_scale. cbn [fst snd].
    repeat f_equal; ring.
  - cbn [hermitian]. intros H. inversion H as [|? ? Hrow _]; subst.
    specialize (Hrow 1%nat ltac:(cbn; lia)).
    cbn [nth Nat.sub real_numeric Re Cx czero cconj] in Hrow.
    unfold RC_conj in Hrow. cbn [fst snd] in Hrow.
    injection Hrow as H1 _. lra.
Qed.

Lemma R_mean_pair (x : R) : R_mean [x; x] = x.
Proof. unfold R_mean. cbn [fold_right length Z.of_nat Pos.of_succ_nat Pos.succ]. field. Qed.

(** C3. With first spectrum [[2, 2]] and second spectrum [[1, 1]], the
    divisor that the ['deconv'] branch computes is 1.02 in both bins, the
    smoothed squared magnitude 1 of the second spectrum plus 0.01 times the
    mean smoothed magnitude 2 of the first; the divisor that the
    specification describes is 1.01. *)
Theorem deconv_divisor_takes_mean_of_first_spectrum :
  deconv_divisor (num := real_numeric) boxcar_smooth
      (Arr2 [[(2, 0); (2, 0)]]) (Arr2 [[(1, 0); (1, 0)]])
    = Ok (Arr2 [[102 / 100; 102 / 100]]) /\
  deconv_divisor_spec (num := real_numeric) boxcar_smooth
      (Arr2 [[(1, 0); (1, 0)]])
    = Ok (Arr2 [[101 / 100; 101 / 100]]) /\
  (102 / 100 <> 101 / 100).
Proof.
  split; [|split; [|lra]].
  - etransitivity;
      [exact (deconv_divisor_one_row (num := real_numeric) (2, 0) (2, 0) (1, 0) (1, 0))|].
    cbn [real_numeric Re Cx radd rsquare rhundredth rmean cabs].
    rewrite (RC_abs_of_real 1), (RC_abs_of_real 2) by lra.
    rewrite !R_mean_pair.
    replace (1 * 1 + 2 / 100) with (102 / 100) by field. reflexivity.
  - etransitivity;
      [exact (deconv_divisor_spec_one_row (num := real_numeric) (1, 0) (1, 0))|].
    cbn [real_numeric Re Cx radd rsquare rhundredth rmean cabs].
    rewrite (RC_abs_of_real 1) by lra.
    rewrite !R_mean_pair.
    replace (1 * 1 + 1 / 100) with (101 / 100) by field. reflexivity.
Qed.

Lemma correlate_lag_axis_length_witness :
  (forall out,
     correlate (num := real_numeric) boxcar_smooth spectrum8 spectrum8
       (11 # 4) None "cross_correlation" = Ok out ->
     lag_axis_length (is_2d spectrum8) out (Z.to_nat (2 * np_round (11 # 4) + 1))) /\
  (forall out,
     correlate (num := real_numeric) boxcar_smooth spectrum8 spectrum8
       (11 # 4) None "cross_correlation" = Ok out ->
     (lag_axis_size spectrum8 <= fft_size spectrum8 None)%nat ->
     exists corr,
       inverse_transform (num := real_numeric) boxcar_smooth spectrum8 spectrum8
         None "cross_correlation" = Ok corr /\
       centred_on_zero_lag (is_2d spectrum8) (Z.to_nat (np_round (11 # 4)))
         corr out) /\
  (same_shape spectrum8 spectrum8 ->
   exists out,
     correlate (num := real_numeric) boxcar_smooth spectrum8 spectrum8
       (11 # 4) None "cross_correlation" = Ok out).
Proof.
  apply (correlate_lag_axis_length (num := real_numeric) boxcar_smooth
           spectrum8 spectrum8 (11 # 4) None "cross_correlation").
  - change (0 <= 3)%Z. lia.
  - change (2 * 3 + 2 <= 8)%Z. lia.
Defined.

(** C2 (as stated) fails in two ways on a frame of eight bins. A lag of
    2.75 samples is rounded to 3, not cut to 2: the row has 7 samples, not
    5. A lag of 100 samples exceeds the frame: the row has the 7 samples
    that the lag axis offers, not 201. *)
Lemma correlate_row_length_not_floor :
  (exists row,
     correlate (num := real_numeric) boxcar_smooth spectrum8 spectrum8
       (11 # 4) None "cross_correlation" = Ok (Arr2 [row]) /\
     length row = 7%nat /\
     length row <> Z.to_nat (2 * Qfloor (11 # 4) + 1)) /\
  (exists row,
     correlate (num := real_numeric) boxcar_smooth spectrum8 spectrum8
       (100 # 1) None "cross_correlation" = Ok (Arr2 [row]) /\
     length row = 7%nat /\
     length row <> Z.to_nat (2 * Qfloor (100 # 1) + 1)).
Proof.
  split; eexists; (split; [reflexivity|split; [reflexivity|]]).
  - change (7 <> 5)%nat. discriminate.
  - change (7%nat <> Z.to_nat 201). lia.
Qed.

End ExactArithmetic.

(** ** Channel renaming *)

Lemma str_last_snoc (s : string) (c : ascii) :
  str_last (s ++ String c EmptyString) = Some c.
Proof.
  induction s as [|a s IH]; cbn; [reflexivity|].
  rewrite IH. destruct (s ++ String c EmptyString)%string eqn:E; [|reflexivity].
  destruct s; discriminate.
Qed.

Lemma str_init_snoc (s : string) (c : ascii) :
  str_init (s ++ String c EmptyString) = s.
Proof.
  induction s as [|a s IH]; cbn; [reflexivity|].
  rewrite IH. destruct (s ++ String c EmptyString)%string eqn:E; [|reflexivity].
  destruct s; discriminate.
Qed.

Lemma str_init_last (s : string) (c : ascii) :
  str_last s = Some c -> s = (str_init s ++ String c EmptyString)%string.
Proof.
  induction s as [|a s IH]; cbn; [discriminate|].
  destruct s as [|b s]; [now intros [= ->]|].
  intros H. cbn. f_equal. now apply IH.
Qed.

Lemma str_last_None (s : string) : str_last s = None <-> s = EmptyString.
Proof.
  split; [|now intros ->].
  induction s as [|a s IH]; [reflexivity|]. cbn.
  destruct s; [discriminate|]. intros H. apply IH in H. discriminate.
Qed.

Lemma str_length_snoc (s : string) (c : ascii) :
  String.length (s ++ String c EmptyString) = S (String.length s).
Proof. induction s as [|a s IH]; cbn; [reflexivity|]. now rewrite IH. Qed.

(** What the loop body does to one channel code. *)
Lemma zne_channel_spec (chan chan' : string) :
  zne_channel chan = Ok chan' ->
  String.length chan' = String.length chan /\
  str_init chan' = str_init chan /\
  str_last chan' <> Some "X"%char /\ str_last chan' <> Some "Y"%char /\
  (str_last chan <> Some "X"%char -> str_last chan <> Some "Y"%char -> chan' = chan) /\
  (str_last chan = Some "X"%char -> str_last chan' = Some "E"%char) /\
  (str_last chan = Some "Y"%char -> str_last chan' = Some "N"%char).
Proof.
  unfold zne_channel. destruct (str_last chan) as [c|] eqn:El; [|discriminate].
  pose proof (str_init_last chan c El) as Hc.
  destruct (Ascii.eqb_spec c "X") as [->|HX].
  - intros [= <-]. rewrite str_last_snoc, str_init_snoc.
    rewrite Hc at 2. rewrite !str_length_snoc.
    repeat split; try congruence; discriminate.
  - destruct (Ascii.eqb_spec c "Y") as [->|HY].
    + intros [= <-]. rewrite str_last_snoc, str_init_snoc.
      rewrite Hc at 2. rewrite !str_length_snoc.
      repeat split; try congruence; discriminate.
    + intros [= <-]. rewrite El. repeat split; congruence.
Qed.

Lemma zne_channel_fixed (chan chan' : string) :
  zne_channel chan = Ok chan' -> zne_channel chan' = Ok chan'.
Proof.
  unfold zne_channel at 1. destruct (str_last chan) as [c|] eqn:El; [|discriminate].
  destruct (Ascii.eqb_spec c "X") as [->|HX].
  - intros [= <-]. unfold zne_channel. now rewrite str_last_snoc.
  - destruct (Ascii.eqb_spec c "Y") as [->|HY].
    + intros [= <-]. unfold zne_channel. now rewrite str_last_snoc.
    + intros [= <-]. unfold zne_channel. rewrite El.
      destruct (Ascii.eqb_spec c "X"); [contradiction|].
      destruct (Ascii.eqb_spec c "Y"); [contradiction|reflexivity].
Qed.

(** X1. Renaming is idempotent: a stream that [xyz_to_zne] has returned is
    returned unchanged by a second call. *)
Theorem xyz_to_zne_idempotent (st st' : Stream) :
  xyz_to_zne st = Ok st' -> xyz_to_zne st' = Ok st'.
Proof.
  revert st'. induction st as [|tr st IH]; intros st'; cbn [xyz_to_zne].
  - now intros [= <-].
  - destruct (zne_channel (channel tr)) as [chan|] eqn:Ec; cbn [bind]; [|discriminate].
    destruct (xyz_to_zne st) as [rest|]; cbn [bind]; [|discriminate].
    intros [= <-]. cbn [xyz_to_zne set_channel channel].
    rewrite (zne_channel_fixed _ _ Ec). cbn [bind].
    rewrite (IH rest eq_refl). cbn [bind]. reflexivity.
Qed.

Lemma xyz_to_zne_idempotent_witness : xyz_to_zne zne_stream = Ok zne_stream.
Proof. apply (xyz_to_zne_idempotent xyz_stream zne_stream). reflexivity. Defined.

(** X2. What [xyz_to_zne] changes and what it keeps: the stream keeps its
    traces, in order; of a trace only the last letter of the channel code
    can change, [X] to [E] and [Y] to [N], any other code staying as it is;
    no code returned ends in [X] or [Y]. *)
Theorem xyz_to_zne_renames_last_letter (st st' : Stream) :
  xyz_to_zne st = Ok st' ->
  Forall2 (fun tr tr' =>
             tr' = set_channel tr (channel tr') /\
             String.length (channel tr') = String.length (channel tr) /\
             str_init (channel tr') = str_init (channel tr) /\
             str_last (channel tr') <> Some "X"%char /\
             str_last (channel tr') <> Some "Y"%char /\
             (str_last (channel tr) <> Some "X"%char ->
              str_last (channel tr) <> Some "Y"%char -> tr' = tr) /\
             (str_last (channel tr) = Some "X"%char ->
              str_last (channel tr') = Some "E"%char) /\
             (str_last (channel tr) = Some "Y"%char ->
              str_last (channel tr') = Some "N"%char))
          st st'.
Proof.
  revert st'. induction st as [|tr st IH]; intros st'; cbn [xyz_to_zne].
  - intros [= <-]. constructor.
  - destruct (zne_channel (channel tr)) as [chan|] eqn:Ec; cbn [bind]; [|discriminate].
    destruct (xyz_to_zne st) as [rest|]; cbn [bind]; [|discriminate].
    intros [= <-]. constructor; [|now apply IH].
    apply zne_channel_spec in Ec as (Hlen & Hinit & HX & HY & Hsame & HE & HN).
    cbn [set_channel channel network station delta starttime data].
    repeat split; auto.
    intros H1 H2. rewrite (Hsame H1 H2). now destruct tr.
Qed.

Lemma xyz_to_zne_renames_last_letter_witness :
  Forall2 (fun tr tr' =>
             tr' = set_channel tr (channel tr') /\
             String.length (channel tr') = String.length (channel tr) /\
             str_init (channel tr') = str_init (channel tr) /\
             str_last (channel tr') <> Some "X"%char /\
             str_last (channel tr') <> Some "Y"%char /\
             (str_last (channel tr) <> Some "X"%char ->
              str_last (channel tr) <> Some "Y"%char -> tr' = tr) /\
             (str_last (channel tr) = Some "X"%char ->
              str_last (channel tr') = Some "E"%char) /\
             (str_last (channel tr) = Some "Y"%char ->
              str_last (channel tr') = Some "N"%char))
          xyz_stream zne_stream.
Proof.
  apply (xyz_to_zne_renames_last_letter xyz_stream zne_stream). reflexivity.
Defined.

(** X3. [xyz_to_zne] raises exactly when some trace has an empty channel code,
    and what it raises then is [IndexError]. *)
Theorem xyz_to_zne_empty_channel (st : Stream) :
  (Exists (fun tr => channel tr = EmptyString) st ->
   xyz_to_zne st = Raise IndexError) /\
  (Forall (fun tr => channel tr <> EmptyString) st ->
   exists st', xyz_to_zne st = Ok st').
Proof.
  split.
  - induction st as [|tr st IH]; intros H; inversion H as [? ? H0|? ? H0]; subst;
      cbn [xyz_to_zne].
    + unfold zne_channel. rewrite H0. reflexivity.
    + rewrite (IH H0).
      destruct (zne_channel (channel tr)) as [chan|e] eqn:E; cbn [bind]; [reflexivity|].
      revert E. unfold zne_channel. destruct (str_last (channel tr)) as [c|].
      * destruct (Ascii.eqb c "X"); [discriminate|].
        destruct (Ascii.eqb c "Y"); discriminate.
      * now intros [= <-].
  - induction st as [|tr st IH]; intros H; cbn [xyz_to_zne]; [eauto|].
    inversion H as [|? ? H0 H1]; subst.
    destruct (IH H1) as [rest ->].
    unfold zne_channel. destruct (str_last (channel tr)) as [c|] eqn:El.
    + destruct (Ascii.eqb c "X"); cbn [bind]; [eauto|].
      destruct (Ascii.eqb c "Y"); cbn [bind]; eauto.
    + apply str_last_None in El. contradiction.
Qed.

(** ** Station pairs by distance *)

Lemma str_split_not_nil (sep : ascii) (s : string) : str_split sep s <> [].
Proof.
  induction s as [|c s IH]; cbn; [discriminate|].
  destruct (Ascii.eqb c sep); [discriminate|].
  destruct (str_split sep s); discriminate.
Qed.

(** A string without the separator is one piece. *)
Lemma str_split_free (sep : ascii) (s : string) :
  str_free sep s = true -> str_split sep s = [s].
Proof.
  induction s as [|c s IH]; cbn; [reflexivity|].
  intros H. apply andb_prop in H as [Hc Hs].
  destruct (Ascii.eqb c sep); [discriminate|]. now rewrite (IH Hs).
Qed.

(** Splitting goes through a separator. *)
Lemma str_split_app (sep : ascii) (p b : string) :
  str_split sep (p ++ String sep b) = str_split sep p ++ str_split sep b.
Proof.
  induction p as [|c p IH]; cbn.
  - now rewrite Ascii.eqb_refl.
  - destruct (Ascii.eqb c sep); [now rewrite IH|].
    rewrite IH. pose proof (str_split_not_nil sep p).
    destruct (str_split sep p); [contradiction|reflexivity].
Qed.

Lemma py_slice_last_three {A : Type} (l : list A) (a b c : A) :
  py_slice (l ++ [a; b; c]) (-3) (-1) = [a; b].
Proof.
  unfold py_slice, slice_bound. rewrite length_app. cbn [length].
  destruct (Z.ltb_spec (-3) 0); [|lia]. destruct (Z.ltb_spec (-1) 0); [|lia].
  replace (Z.to_nat (Z.max 0 (Z.min (-3 + Z.of_nat (length l + 3))
                                    (Z.of_nat (length l + 3)))))
    with (length l) by lia.
  replace (Z.to_nat (Z.max 0 (Z.min (-1 + Z.of_nat (length l + 3))
                                    (Z.of_nat (length l + 3)))))
    with (length l + 2)%nat by lia.
  rewrite skipn_app, skipn_all, Nat.sub_diag. cbn [app skipn].
  replace (length l + 2 - length l)%nat with 2%nat by lia. reflexivity.
Qed.

(** X4. The key under which [filter_dist] looks a path up: for a path that ends
    in [.../NET/STA/file] it is [NET.STA], whatever directories come
    before. *)
Theorem station_key_of_path (prefix net sta file : string) :
  str_free "/" net = true -> str_free "/" sta = true -> str_free "/" file = true ->
  station_key (prefix ++ "/" ++ net ++ "/" ++ sta ++ "/" ++ file)
    = (net ++ "." ++ sta)%string /\
  station_key (net ++ "/" ++ sta ++ "/" ++ file) = (net ++ "." ++ sta)%string.
Proof.
  intros Hn Hs Hf. unfold station_key. split.
  - change (prefix ++ "/" ++ net ++ "/" ++ sta ++ "/" ++ file)%string
      with (prefix ++ String "/" (net ++ String "/" (sta ++ String "/" file)))%string.
    rewrite !str_split_app.
    rewrite (str_split_free _ net Hn), (str_split_free _ sta Hs), (str_split_free _ file Hf).
    cbn [app]. now rewrite py_slice_last_three.
  - change (net ++ "/" ++ sta ++ "/" ++ file)%string
      with (net ++ String "/" (sta ++ String "/" file))%string.
    rewrite !str_split_app.
    rewrite (str_split_free _ net Hn), (str_split_free _ sta Hs), (str_split_free _ file Hf).
    cbn [app]. now rewrite (py_slice_last_three [] net sta file : py_slice [net; sta; file] (-3) (-1) = _).
Qed.

Lemma station_key_of_path_witness :
  station_key ("/data/2017" ++ "/" ++ "CI" ++ "/" ++ "PAS" ++ "/" ++ "BHZ.mseed")
    = ("CI" ++ "." ++ "PAS")%string /\
  station_key ("CI" ++ "/" ++ "PAS" ++ "/" ++ "BHZ.mseed") = ("CI" ++ "." ++ "PAS")%string.
Proof.
  apply (station_key_of_path "/data/2017" "CI" "PAS" "BHZ.mseed"); reflexivity.
Defined.

Section FilterDistFacts.

Variable Loc : Type.
Variable locs_loc : string -> result Loc.
Variable calc_distance : Loc -> Loc -> result (Q * Q * Q).

Lemma filter_dist_loop_filter (pairs new_pairs : list (string * string))
    (min_dist max_dist : Q) :
  Forall (fun pr => exists d, pair_distance Loc locs_loc calc_distance pr = Ok d) pairs ->
  filter_dist_loop Loc locs_loc calc_distance pairs new_pairs min_dist max_dist =
    Ok (new_pairs ++ filter (within_distance Loc locs_loc calc_distance min_dist max_dist) pairs).
Proof.
  revert new_pairs. induction pairs as [|pr pairs IH]; intros new_pairs Hall;
    cbn [filter_dist_loop filter].
  - now rewrite app_nil_r.
  - inversion Hall as [|? ? [d Hd] Hall']; subst.
    unfold within_distance at 1. rewrite Hd. cbn [bind].
    destruct (Qlt_bool min_dist d && Qlt_bool d max_dist).
    + rewrite IH by assumption. now rewrite <- app_assoc.
    + now apply IH.
Qed.

(** X5. [filter_dist] keeps, in their order, exactly the pairs whose distance
    lies strictly between the two bounds, when every pair is found in the
    station table. *)
Theorem filter_dist_selects (pairs : list (string * string)) (min_dist max_dist : Q) :
  Forall (fun pr => exists d, pair_distance Loc locs_loc calc_distance pr = Ok d) pairs ->
  filter_dist Loc locs_loc calc_distance pairs min_dist max_dist =
    Ok (filter (within_distance Loc locs_loc calc_distance min_dist max_dist) pairs).
Proof. intros H. apply (filter_dist_loop_filter pairs [] min_dist max_dist H). Qed.

Lemma filter_dist_loop_sound (pairs new_pairs out : list (string * string))
    (min_dist max_dist : Q) :
  filter_dist_loop Loc locs_loc calc_distance pairs new_pairs min_dist max_dist = Ok out ->
  out = new_pairs ++ filter (within_distance Loc locs_loc calc_distance min_dist max_dist) pairs.
Proof.
  revert new_pairs. induction pairs as [|pr pairs IH]; intros new_pairs;
    cbn [filter_dist_loop filter].
  - intros [= <-]. now rewrite app_nil_r.
  - unfold within_distance at 1.
    destruct (pair_distance Loc locs_loc calc_distance pr) as [d|]; cbn [bind];
      [|discriminate].
    destruct (Qlt_bool min_dist d && Qlt_bool d max_dist); intros H; apply IH in H.
    + now rewrite <- app_assoc in H.
    + exact H.
Qed.

(** X6. Both bounds of [filter_dist] are strict: a pair it returns has a
    distance [d] with [min_dist < d < max_dist], so a pair exactly at a
    bound is left out, and nothing is returned when [max_dist <= min_dist]. *)
Theorem filter_dist_bounds_strict (pairs out : list (string * string))
    (min_dist max_dist : Q) :
  filter_dist Loc locs_loc calc_distance pairs min_dist max_dist = Ok out ->
  (forall pr, In pr out ->
     In pr pairs /\
     exists d, pair_distance Loc locs_loc calc_distance pr = Ok d /\
               (min_dist < d)%Q /\ (d < max_dist)%Q) /\
  ((max_dist <= min_dist)%Q -> out = []).
Proof.
  intros H. apply (filter_dist_loop_sound pairs [] out) in H. cbn [app] in H. subst out.
  assert (Hin : forall pr, In pr (filter (within_distance Loc locs_loc calc_distance min_dist max_dist) pairs) ->
     In pr pairs /\
     exists d, pair_distance Loc locs_loc calc_distance pr = Ok d /\
               (min_dist < d)%Q /\ (d < max_dist)%Q).
  { intros pr Hpr. apply filter_In in Hpr as [Hpairs Hw]. split; [exact Hpairs|].
    unfold within_distance in Hw.
    destruct (pair_distance Loc locs_loc calc_distance pr) as [d|]; [|discriminate].
    exists d. split; [reflexivity|].
    apply andb_prop in Hw as [H1 H2]. unfold Qlt_bool in H1, H2.
    apply negb_true_iff in H1, H2. split.
    - apply Qnot_le_lt. intros Hle. apply Qle_bool_iff in Hle. congruence.
    - apply Qnot_le_lt. intros Hle. apply Qle_bool_iff in Hle. congruence. }
  split; [exact Hin|].
  intros Hle. destruct (filter _ pairs) as [|pr rest] eqn:E; [reflexivity|].
  exfalso. destruct (Hin pr (or_introl eq_refl)) as (_ & d & _ & H1 & H2).
  apply (Qlt_irrefl d). eapply Qlt_le_trans; [exact H2|].
  eapply Qle_trans; [exact Hle|]. now apply Qlt_le_weak.
Qed.

End FilterDistFacts.

Lemma filter_dist_selects_witness :
  filter_dist (Q * Q) example_locs example_distance example_pairs 5 65 =
    Ok (filter (within_distance (Q * Q) example_locs example_distance 5 65)
               example_pairs).
Proof.
  apply (filter_dist_selects (Q * Q) example_locs example_distance example_pairs 5 65).
  repeat constructor; eexists; reflexivity.
Defined.

Lemma filter_dist_bounds_strict_witness :
  (forall pr,
     In pr [ ("/data/XX/STA/BHZ.mseed", "/data/XX/STB/BHZ.mseed");
             ("/data/XX/STB/BHZ.mseed", "/data/XX/STC/BHZ.mseed") ]%string ->
     In pr example_pairs /\
     exists d, pair_distance (Q * Q) example_locs example_distance pr = Ok d /\
               (5 < d)%Q /\ (d < 65)%Q) /\
  ((65 <= 5)%Q ->
   [ ("/data/XX/STA/BHZ.mseed", "/data/XX/STB/BHZ.mseed");
     ("/data/XX/STB/BHZ.mseed", "/data/XX/STC/BHZ.mseed") ]%string = []).
Proof.
  apply (filter_dist_bounds_strict (Q * Q) example_locs example_distance
           example_pairs _ 5 65).
  reflexivity.
Defined.

(** ** Header dictionaries *)

Lemma str_eqb_app_l (p a b : string) :
  String.eqb (p ++ a) (p ++ b) = String.eqb a b.
Proof.
  induction p as [|c p IH]; cbn [String.append String.eqb]; [reflexivity|].
  now rewrite Ascii.eqb_refl.
Qed.

Lemma str_length_app (p s : string) :
  String.length (p ++ s) = (String.length p + String.length s)%nat.
Proof. induction p as [|c p IH]; cbn; [reflexivity|now rewrite IH]. Qed.

Lemma str_app_inv_tail (s p q : string) :
  (p ++ s = q ++ s)%string -> p = q.
Proof.
  revert q. induction p as [|c p IH]; intros [|d q] H; cbn in H.
  - reflexivity.
  - exfalso. apply (f_equal String.length) in H. cbn in H.
    rewrite str_length_app in H. lia.
  - exfalso. apply (f_equal String.length) in H. cbn in H.
    rewrite str_length_app in H. lia.
  - injection H as -> H. f_equal. now apply IH.
Qed.

Lemma str_last_app (p : string) (c : ascii) (s : string) :
  str_last (p ++ String c s) = str_last (String c s).
Proof.
  induction p as [|d p IH]; [reflexivity|].
  cbn [String.append]. change (str_last (String d (p ++ String c s)))
    with (match (p ++ String c s)%string with
          | EmptyString => Some d
          | String _ _ => str_last (p ++ String c s)
          end).
  destruct (p ++ String c s)%string eqn:E; [|exact IH].
  destruct p; discriminate.
Qed.

(** The six field names of [stats_to_dict]. *)
Lemma stats_to_dict_keys (stats : Trace) (stat_type : string) :
  map fst (stats_to_dict stats stat_type) =
    map (fun f => (stat_type ++ f)%string)
      ["_network"; "_station"; "_channel"; "_delta"; "_npts"; "_sampling_rate"]%string.
Proof.
  unfold stats_to_dict, dict_display, dict_update.
  cbn [fold_left dict_set fst snd].
  repeat (rewrite !str_eqb_app_l;
          cbn [dict_set String.eqb Ascii.eqb Bool.eqb]).
  reflexivity.
Qed.

(** X7. For every prefix the dictionary of [stats_to_dict] has six
    entries, and reading each field name back gives the header field. *)
Theorem stats_to_dict_lookup (stats : Trace) (stat_type : string) :
  length (stats_to_dict stats stat_type) = 6%nat /\
  dict_get (stats_to_dict stats stat_type) (stat_type ++ "_network") =
    Some (PStr (network stats)) /\
  dict_get (stats_to_dict stats stat_type) (stat_type ++ "_station") =
    Some (PStr (station stats)) /\
  dict_get (stats_to_dict stats stat_type) (stat_type ++ "_channel") =
    Some (PStr (channel stats)) /\
  dict_get (stats_to_dict stats stat_type) (stat_type ++ "_delta") =
    Some (PFloat (stats_delta stats)) /\
  dict_get (stats_to_dict stats stat_type) (stat_type ++ "_npts") =
    Some (PInt (stats_npts stats)) /\
  dict_get (stats_to_dict stats stat_type) (stat_type ++ "_sampling_rate") =
    Some (PFloat (stats_sampling_rate stats)).
Proof.
  unfold stats_to_dict, dict_display, dict_update.
  cbn [fold_left dict_set fst snd].
  repeat (rewrite !str_eqb_app_l;
          cbn [dict_set String.eqb Ascii.eqb Bool.eqb]).
  cbn [dict_get length]. rewrite !str_eqb_app_l.
  repeat split; reflexivity.
Qed.

Lemma dict_get_keys (d : pydict) (k : string) :
  dict_get d k <> None -> In k (map fst d).
Proof.
  induction d as [|[k' v] d IH]; cbn [dict_get map fst In]; [congruence|].
  destruct (String.eqb k' k) eqn:E.
  - apply String.eqb_eq in E. now left.
  - intros H. right. now apply IH.
Qed.

Lemma dict_get_not_key (d : pydict) (k : string) :
  ~ In k (map fst d) -> dict_get d k = None.
Proof.
  intros H. destruct (dict_get d k) eqn:E; [|reflexivity].
  exfalso. apply H, dict_get_keys. congruence.
Qed.

(** Two field names with different prefixes never coincide. *)
Lemma stats_keys_disjoint (p q f g : string) :
  In f ["_network"; "_station"; "_channel"; "_delta"; "_npts"; "_sampling_rate"]%string ->
  In g ["_network"; "_station"; "_channel"; "_delta"; "_npts"; "_sampling_rate"]%string ->
  (p ++ f = q ++ g)%string -> p = q.
Proof.
  intros Hf Hg H.
  assert (Hl : str_last (p ++ f) = str_last (q ++ g)) by now rewrite H.
  cbn [In] in Hf, Hg.
  repeat match goal with
         | H : _ \/ _ |- _ => destruct H as [H|H]
         | H : False |- _ => destruct H
         end; subst f g;
    first [ now apply str_app_inv_tail in H
          | rewrite !str_last_app in Hl; discriminate Hl ].
Qed.

(** X8. The dictionaries that [stats_to_dict] builds for two different prefixes
    share no key, so neither overwrites the other in an update. *)
Theorem stats_to_dict_prefix_disjoint (s r : Trace) (p q k : string) :
  p <> q ->
  dict_get (stats_to_dict s p) k <> None ->
  dict_get (stats_to_dict r q) k = None.
Proof.
  intros Hpq Hk. apply dict_get_not_key. intros Hin.
  apply dict_get_keys in Hk.
  rewrite stats_to_dict_keys in Hk, Hin.
  apply in_map_iff in Hk as (f & <- & Hf).
  apply in_map_iff in Hin as (g & Hg & Hg').
  apply Hpq. symmetry. exact (stats_keys_disjoint q p g f Hg' Hf Hg).
Qed.

Lemma stats_to_dict_prefix_disjoint_witness :
  dict_get (stats_to_dict fragment_b "receiver") "source_npts" = None.
Proof.
  apply (stats_to_dict_prefix_disjoint fragment_a fragment_b "source" "receiver"
           "source_npts").
  - discriminate.
  - vm_compute. discriminate.
Defined.

Section CrossCorrParametersFacts.

Variable Loc : Type.
Variable locs_ix : string -> result Loc.
Variable calc_distance : Loc -> Loc -> result (Q * Q * Q).

(** X9. The two updates of [cross_corr_parameters] overwrite none of the
    twelve correlation entries and none of each other's: the result has
    twenty-four keys, the twelve of the display followed by the two
    headers as [stats_to_dict] gives them, and [lag] holds [maxlag]. *)
Theorem cross_corr_parameters_keeps_all (source receiver : Trace)
    (start_end_t : list (list UTCDateTime))
    (source_params receiver_params : list (list Q)) (maxlag : pyval)
    (d : pydict) :
  cross_corr_parameters Loc locs_ix calc_distance source receiver start_end_t
    source_params receiver_params maxlag = Ok d ->
  map fst d =
    ["source_mad"; "source_std"; "source_nonzero";
     "receiver_mad"; "receiver_std"; "receiver_nonzero";
     "dist"; "azi"; "baz"; "lag"; "starttime"; "endtime";
     "source_network"; "source_station"; "source_channel";
     "source_delta"; "source_npts"; "source_sampling_rate";
     "receiver_network"; "receiver_station"; "receiver_channel";
     "receiver_delta"; "receiver_npts"; "receiver_sampling_rate"]%string /\
  skipn 12 d = stats_to_dict source "source" ++ stats_to_dict receiver "receiver" /\
  dict_get d "lag" = Some maxlag.
Proof.
  unfold cross_corr_parameters.
  repeat match goal with
         | |- bind ?m _ = Ok _ -> _ => destruct m; cbn [bind]; [|discriminate]
         end.
  intros [= <-]. repeat split; reflexivity.
Qed.

End CrossCorrParametersFacts.

Lemma cross_corr_parameters_keeps_all_witness :
  exists d,
    cross_corr_parameters (Q * Q) example_locs example_distance
      fragment_a fragment_b [[0; 3600 * ns_per_s]] [[1; 2; 3]%Q] [[4; 5; 6]%Q]
      (PInt 100) = Ok d /\
    map fst d =
      ["source_mad"; "source_std"; "source_nonzero";
       "receiver_mad"; "receiver_std"; "receiver_nonzero";
       "dist"; "azi"; "baz"; "lag"; "starttime"; "endtime";
       "source_network"; "source_station"; "source_channel";
       "source_delta"; "source_npts"; "source_sampling_rate";
       "receiver_network"; "receiver_station"; "receiver_channel";
       "receiver_delta"; "receiver_npts"; "receiver_sampling_rate"]%string /\
    skipn 12 d = stats_to_dict fragment_a "source" ++ stats_to_dict fragment_b "receiver" /\
    dict_get d "lag" = Some (PInt 100).
Proof.
  eexists. split; [reflexivity|].
  apply (cross_corr_parameters_keeps_all (Q * Q) example_locs example_distance
           fragment_a fragment_b [[0; 3600 * ns_per_s]] [[1; 2; 3]%Q] [[4; 5; 6]%Q]
           (PInt 100)).
  reflexivity.
Defined.

(** ** Time alignment, continued *)

(** The grid of one day, as [nearest_step] builds it. *)
Lemma grid_ticks (t step r : Z) :
  0 < step ->
  In r (map (fun s => add_seconds (midnight t) s)
          (map (fun k => Z.of_nat k * step)
             (seq 0 (Z.to_nat (Z.max 0 ((86400 + step + step - 1) / step)))))) ->
  exists k, 0 <= k /\ r = midnight t + k * (step * ns_per_s).
Proof.
  intros Hs Hin. apply in_map_iff in Hin as (s & <- & Hin).
  apply in_map_iff in Hin as (k & <- & _).
  exists (Z.of_nat k). split; [lia|]. unfold add_seconds. ring.
Qed.

(** When the step divides the day, every tick lies on the grid of the day
    it falls in, also the last one, which is the next midnight. *)
Lemma tick_on_grid (t step k : Z) :
  0 < step -> (step | 86400) ->
  on_grid (midnight t + k * (step * ns_per_s)) step.
Proof.
  intros Hs [c Hc]. unfold on_grid.
  assert (Hns : 0 < ns_per_s) by reflexivity.
  set (W := step * ns_per_s). assert (HW : 0 < W) by (unfold W; lia).
  assert (HD : 86400 * ns_per_s = W * c) by (unfold W; rewrite Hc; ring).
  destruct (midnight_multiple t) as [m Hm].
  set (r := midnight t + k * W).
  replace (r - midnight r) with (r mod (86400 * ns_per_s))
    by (unfold midnight; ring).
  assert (Hr : r = W * (c * m + k)) by (unfold r; rewrite Hm, HD; ring).
  rewrite HD.
  assert (Hc0 : 0 < c) by nia.
  rewrite Hr, Zmult_mod_distr_l.
  rewrite Z.mul_comm. apply Z_mod_mult.
Qed.

Lemma nearest_step_on_grid (half_up : Z -> bool) (t1 t2 step : Z) :
  0 < step -> on_grid t1 step -> on_grid t2 step ->
  nearest_step half_up t1 t2 step = Ok (t1, t2).
Proof.
  intros Hs H1 H2. unfold nearest_step.
  destruct (utc_eqb t1 t2); [reflexivity|].
  rewrite (py_range_pos _ _ Hs). cbn [bind].
  destruct (snap_to_grid half_up t1 step Hs) as (i1 & r1 & Ha1 & Hg1 & _ & _ & Hi1).
  destruct (snap_to_grid half_up t2 step Hs) as (i2 & r2 & Ha2 & Hg2 & _ & _ & Hi2).
  rewrite Ha1. cbn [bind]. rewrite Ha2. cbn [bind].
  rewrite Hg1. cbn [bind]. rewrite Hg2. cbn [bind].
  now rewrite (Hi1 H1), (Hi2 H2).
Qed.

(** The time stamps that [nearest_step] returns for two stamps that do
    not compare equal are ticks of the grids of their days. *)
Lemma nearest_step_ticks (half_up : Z -> bool) (t1 t2 step r1 r2 : Z) :
  0 < step -> utc_eqb t1 t2 = false ->
  nearest_step half_up t1 t2 step = Ok (r1, r2) ->
  (exists k, 0 <= k /\ r1 = midnight t1 + k * (step * ns_per_s)) /\
  (exists k, 0 <= k /\ r2 = midnight t2 + k * (step * ns_per_s)).
Proof.
  intros Hs Hne. unfold nearest_step. rewrite Hne.
  rewrite (py_range_pos _ _ Hs). cbn [bind].
  destruct (np_argmin _) as [i1|]; cbn [bind]; [|discriminate].
  destruct (np_argmin _) as [i2|]; cbn [bind]; [|discriminate].
  destruct (py_getitem _ (Z.of_nat i1)) as [a1|] eqn:E1; cbn [bind]; [|discriminate].
  destruct (py_getitem _ (Z.of_nat i2)) as [a2|] eqn:E2; cbn [bind]; [|discriminate].
  intros [= <- <-].
  apply py_getitem_In in E1, E2.
  split; eapply grid_ticks; eassumption.
Qed.

(** X10. When the step divides the day, [nearest_step] is idempotent: what
    it returns, it returns unchanged when applied again, also when a time
    stamp has been moved to the midnight that ends its day. *)
Theorem nearest_step_twice (half_up : Z -> bool) (t1 t2 step r1 r2 : Z) :
  0 < step -> (step | 86400) ->
  nearest_step half_up t1 t2 step = Ok (r1, r2) ->
  nearest_step half_up r1 r2 step = Ok (r1, r2).
Proof.
  intros Hs Hdiv H.
  destruct (utc_eqb t1 t2) eqn:Heq.
  - unfold nearest_step in H. rewrite Heq in H. injection H as <- <-.
    unfold nearest_step. now rewrite Heq.
  - destruct (nearest_step_ticks half_up t1 t2 step r1 r2 Hs Heq H)
      as [(k1 & _ & ->) (k2 & _ & ->)].
    apply nearest_step_on_grid; [exact Hs| |]; now apply tick_on_grid.
Qed.

Lemma nearest_step_twice_witness :
  nearest_step (fun _ => false) 1699999200000000000 1700002800000000000 1800 =
    Ok (1699999200000000000, 1700002800000000000).
Proof.
  apply (nearest_step_twice (fun _ => false)
           1700000000123456789 1700003600000000000 1800).
  - lia.
  - exists 48. reflexivity.
  - vm_compute. reflexivity.
Defined.

(** X11. With a step that is not positive, [nearest_step] on two time stamps
    that do not compare equal finds no tick and raises [ValueError] as
    long as [-86400 <= step]; below that the only tick is midnight, and
    both stamps are put back to the midnights of their days. *)
Theorem nearest_step_nonpositive_step (half_up : Z -> bool) (t1 t2 step : Z) :
  utc_eqb t1 t2 = false -> step <= 0 ->
  (-86400 <= step ->
   exists msg, nearest_step half_up t1 t2 step = Raise (ValueError msg)) /\
  (step < -86400 ->
   nearest_step half_up t1 t2 step = Ok (midnight t1, midnight t2)).
Proof.
  intros Hne Hs. unfold nearest_step. rewrite Hne.
  unfold py_range, range_len.
  destruct (Z.eqb_spec step 0) as [->|Hs0].
  - split; [intros _; eexists; reflexivity|lia].
  - destruct (Z.ltb_spec 0 step); [lia|].
    replace (0 - (86400 + step) - step - 1) with (2 * (- step) - 86401) by ring.
    split; intros Hb.
    + assert (Hq : (2 * - step - 86401) / - step <= 0).
      { apply Z.lt_succ_r. apply Z.div_lt_upper_bound; lia. }
      rewrite Z.max_l by lia. cbn. eexists; reflexivity.
    + assert (Hq : (2 * - step - 86401) / - step = 1).
      { symmetry. apply (Z.div_unique _ _ 1 (- step - 86401)); lia. }
      rewrite Hq. change (Z.to_nat (Z.max 0 1)) with 1%nat.
      cbn [seq map np_argmin argmin_from bind].
      unfold py_getitem. cbn [length Z.of_nat Z.ltb Z.leb Z.compare andb
        Z.to_nat nth_error bind].
      unfold add_seconds. cbn [Z.of_nat Z.mul]. now rewrite !Z.add_0_r.
Qed.

Lemma nearest_step_nonpositive_step_witness :
  (-86400 <= -1800 ->
   exists msg,
     nearest_step (fun _ => false) 0 (3600 * ns_per_s) (-1800) =
       Raise (ValueError msg)) /\
  (-1800 < -86400 ->
   nearest_step (fun _ => false) 0 (3600 * ns_per_s) (-1800) =
     Ok (midnight 0, midnight (3600 * ns_per_s))).
Proof.
  apply (nearest_step_nonpositive_step (fun _ => false) 0 (3600 * ns_per_s) (-1800)).
  - reflexivity.
  - lia.
Defined.

Lemma round_micro_whole (t : Z) : t mod 1000 = 0 -> round_micro t = t / 1000.
Proof. intros H. unfold round_micro. rewrite H. reflexivity. Qed.

(** A time stamp on the grid is a whole number of microseconds. *)
Lemma on_grid_whole_micro (t step : Z) :
  0 < step -> on_grid t step -> t mod 1000 = 0.
Proof.
  intros Hs H. unfold on_grid in H.
  assert (Hns : ns_per_s = 1000 * 1000000) by reflexivity.
  destruct (midnight_multiple t) as [m Hm].
  apply Z.mod_divide in H; [|rewrite Hns; lia].
  destruct H as [k Hk].
  apply Z.mod_divide; [lia|].
  exists (k * step * 1000000 + 86400 * 1000000 * m).
  rewrite Hns in Hm, Hk. lia.
Qed.

(** On whole microseconds obspy's order is that of the nanosecond counts. *)
Lemma utc_ltb_whole (a b : Z) :
  a mod 1000 = 0 -> b mod 1000 = 0 -> utc_ltb a b = (a <? b).
Proof.
  intros Ha Hb. unfold utc_ltb. rewrite !round_micro_whole by assumption.
  pose proof (Z.div_mod a 1000 ltac:(lia)).
  pose proof (Z.div_mod b 1000 ltac:(lia)).
  destruct (Z.ltb_spec (a / 1000) (b / 1000)), (Z.ltb_spec a b); lia.
Qed.

(** X12. For traces whose start and end times are already on the grid, the
    common span of [main] is the intersection of the two time ranges,
    from the later start to the earlier end, and the error is raised
    exactly when the ranges do not meet. *)
Theorem common_span_on_grid (half_up : Z -> bool) (t1 t2 t3 t4 step : Z) :
  0 < step ->
  on_grid t1 step -> on_grid t2 step -> on_grid t3 step -> on_grid t4 step ->
  (Z.max t1 t3 <= Z.min t2 t4 ->
   common_span half_up t1 t2 t3 t4 step = Ok (Z.max t1 t3, Z.min t2 t4)) /\
  (Z.min t2 t4 < Z.max t1 t3 ->
   common_span half_up t1 t2 t3 t4 step = Raise InvalidTimeRange).
Proof.
  intros Hs H1 H2 H3 H4. unfold common_span.
  rewrite (nearest_step_on_grid half_up t1 t3 step Hs H1 H3). cbn [bind].
  rewrite (nearest_step_on_grid half_up t2 t4 step Hs H2 H4). cbn [bind].
  apply (on_grid_whole_micro _ _ Hs) in H1, H2, H3, H4.
  rewrite (utc_ltb_whole t1 t3), (utc_ltb_whole t4 t2) by assumption.
  destruct (Z.ltb_spec t1 t3), (Z.ltb_spec t4 t2);
    rewrite utc_ltb_whole by assumption;
    split; intros Hle;
    match goal with
    | |- (if ?a <? ?b then _ else _) = _ => destruct (Z.ltb_spec a b)
    end; try lia; try reflexivity; f_equal; f_equal; lia.
Qed.

Lemma common_span_on_grid_witness :
  (Z.max 0 (1800 * ns_per_s) <= Z.min (7200 * ns_per_s) (9000 * ns_per_s) ->
   common_span (fun _ => false) 0 (7200 * ns_per_s) (1800 * ns_per_s)
     (9000 * ns_per_s) 1800 =
     Ok (Z.max 0 (1800 * ns_per_s), Z.min (7200 * ns_per_s) (9000 * ns_per_s))) /\
  (Z.min (7200 * ns_per_s) (9000 * ns_per_s) < Z.max 0 (1800 * ns_per_s) ->
   common_span (fun _ => false) 0 (7200 * ns_per_s) (1800 * ns_per_s)
     (9000 * ns_per_s) 1800 =
     Raise InvalidTimeRange).
Proof.
  apply (common_span_on_grid (fun _ => false) 0 (7200 * ns_per_s)
           (1800 * ns_per_s) (9000 * ns_per_s) 1800); [lia|reflexivity..].
Defined.



(** ** Stream conditioner, continued *)

Lemma remove_zero_loop_empty_trace (todo kept : list Trace) :
  Exists (fun tr => data tr = []) todo ->
  Forall (fun tr => has_zero_max tr = false) kept ->
  exists msg, remove_zero_loop todo (kept ++ todo) = Raise (ValueError msg).
Proof.
  revert kept. induction todo as [|tr todo IH]; intros kept Hex Hk.
  - inversion Hex.
  - cbn [remove_zero_loop].
    destruct (np_max (data tr)) as [m|e] eqn:Em.
    2:{ destruct (data tr); [|discriminate]. injection Em as <-.
        cbn [bind]. eauto. }
    assert (Hex' : Exists (fun tr => data tr = []) todo).
    { inversion Hex as [? ? Hd|]; subst; [|assumption].
      rewrite Hd in Em. discriminate. }
    cbn [bind]. destruct (m =? 0) eqn:E0.
    + rewrite stream_remove_head_of_tail; cbn [bind].
      * now apply IH.
      * intros x Hx ->. rewrite Forall_forall in Hk. specialize (Hk _ Hx).
        unfold has_zero_max in Hk. rewrite Em in Hk. congruence.
    + replace (kept ++ tr :: todo) with ((kept ++ [tr]) ++ todo)
        by (rewrite <- app_assoc; reflexivity).
      apply IH; [exact Hex'|].
      apply Forall_app. split; [exact Hk|]. constructor; [|constructor].
      unfold has_zero_max. now rewrite Em.
Qed.

(** X14. The zero-trace loop of [process_raw] on any stream: when every trace
    holds samples, it keeps, in their order, exactly the traces whose
    [max()] is not zero; a trace without samples makes [max()] raise
    [ValueError]. Removing while iterating skips no trace, since the loop
    walks a copy of the trace list. *)
Theorem remove_zero_traces_spec (st : Stream) :
  (Forall (fun tr => data tr <> []) st ->
   remove_zero_traces st = Ok (filter (fun tr => negb (has_zero_max tr)) st)) /\
  (Exists (fun tr => data tr = []) st ->
   exists msg, remove_zero_traces st = Raise (ValueError msg)).
Proof.
  split; intros H.
  - apply (remove_zero_loop_filter st [] H). constructor.
  - apply (remove_zero_loop_empty_trace st [] H). constructor.
Qed.

Section StreamConditionerMore.

Variable check_sample : Stream -> result Stream.
Variable downsample : Stream -> Q -> result Stream.
Variable remove_small_traces : Stream -> result Stream.
Variable getGaps : Stream -> list Gap.
Variable trace_add_interpolate : Trace -> Trace -> result Trace.
Variable merge_zero_fill : Stream -> result Stream.
Variable check_and_phase_shift : Trace -> result Trace.

(** X15. A stream of at most 100 traces in which, after [check_sample], every
    trace has [max()] zero, is refused with [EmptyStream] before any
    resampling. *)
Theorem process_raw_all_zero (st st1 : Stream) (downsamp_freq : Q) :
  (length st <= 100)%nat ->
  check_sample st = Ok st1 ->
  Forall (fun tr => has_zero_max tr = true) st1 ->
  process_raw check_sample downsample remove_small_traces getGaps
    trace_add_interpolate merge_zero_fill check_and_phase_shift
    st downsamp_freq = Raise EmptyStream.
Proof.
  intros Hlen Hcs Hz. unfold process_raw, condition_stream.
  destruct (Nat.ltb_spec 100 (length st)); [lia|].
  rewrite Hcs. cbn [bind].
  unfold remove_zero_traces.
  rewrite (remove_zero_loop_filter st1 [] : _ -> _ ->
             remove_zero_loop st1 st1 = _); [| | constructor ].
  - cbn [bind app].
    replace (filter (fun tr => negb (has_zero_max tr)) st1) with (@nil Trace);
      [reflexivity|].
    symmetry. clear Hcs. induction Hz as [|tr st1 Htr Hz IH]; cbn [filter];
      [reflexivity|].
    now rewrite Htr.
  - apply Forall_forall. intros tr Htr. rewrite Forall_forall in Hz.
    specialize (Hz tr Htr). unfold has_zero_max in Hz.
    intros E. rewrite E in Hz. discriminate.
Qed.

End StreamConditionerMore.

Lemma process_raw_all_zero_witness :
  process_raw identity_stage (fun st _ => Ok st) identity_stage adjacent_gaps
    join_traces identity_stage (fun tr => Ok tr)
    [dipping_trace] 1 = Raise EmptyStream.
Proof.
  apply (process_raw_all_zero identity_stage (fun st _ => Ok st) identity_stage
           adjacent_gaps join_traces identity_stage (fun tr => Ok tr)
           [dipping_trace] [dipping_trace] 1).
  - cbn. lia.
  - reflexivity.
  - repeat constructor.
Defined.

Section GapRepairMore.

Variable getGaps : Stream -> list Gap.
Variable trace_add_interpolate : Trace -> Trace -> result Trace.

Lemma for_gaps_oversized (gaps : list Gap) (st : Stream) (k : Z) :
  Forall oversized gaps ->
  for_gaps trace_add_interpolate gaps st k = Ok (st, k + Z.of_nat (length gaps)).
Proof.
  intros H. revert k. induction H as [|g gaps Hg _ IH]; intros k; cbn [for_gaps length].
  - now rewrite Z.add_0_r.
  - unfold oversized in Hg.
    destruct (Z.leb_spec (gap_samples g) max_gap); [lia|].
    rewrite IH. do 2 f_equal. lia.
Qed.

(** X16. Gaps of more than 10 samples are never interpolated: on a stream
    whose gaps are all that long, the repair loop makes one pass, touches
    no trace and returns the stream as it is. *)
Theorem gap_loop_leaves_long_gaps (st : Stream) (only_too_long : bool) :
  Forall oversized (getGaps st) ->
  gap_loop getGaps trace_add_interpolate st only_too_long = Ok st.
Proof.
  funelim (gap_loop getGaps trace_add_interpolate st only_too_long); intros Hall.
  - reflexivity.
  - match goal with Hp : for_gaps _ _ _ _ = Ok _ |- _ =>
      pose proof Hp as Hpass' end.
    rewrite (for_gaps_oversized _ st 0 Hall) in Hpass'.
    injection Hpass' as Est _.
    match goal with IH : Forall oversized _ -> _ |- _ =>
      rewrite IH; [now rewrite Est|now rewrite <- Est] end.
  - match goal with Hp : for_gaps _ _ _ _ = Raise _ |- _ =>
      pose proof Hp as Hpass' end.
    rewrite (for_gaps_oversized _ st 0 Hall) in Hpass'. discriminate Hpass'.
Qed.

End GapRepairMore.

Lemma gap_loop_leaves_long_gaps_witness :
  gap_loop adjacent_gaps join_traces [fragment_a; fragment_far] false =
    Ok [fragment_a; fragment_far].
Proof.
  apply (gap_loop_leaves_long_gaps adjacent_gaps join_traces
           [fragment_a; fragment_far] false).
  repeat constructor.
Defined.

(** ** Spectral whitener, continued *)

Lemma where_from_none (i : nat) (mask : list bool) :
  Forall (fun b => b = false) mask -> where_from i mask = [].
Proof.
  intros H. revert i. induction H as [|b mask -> _ IH]; intros i; cbn [where_from app].
  - reflexivity.
  - apply IH.
Qed.

Lemma py_slice_length {A : Type} (l : list A) (start stop : Z) :
  length (py_slice l start stop) =
    (slice_bound (length l) stop - slice_bound (length l) start)%nat.
Proof.
  unfold py_slice. rewrite length_firstn, length_skipn.
  pose proof (slice_bound_le (length l) stop). lia.
Qed.

Lemma assign_slice_fits {A : Type} (l : list A) (start stop : Z) (vals : list A) :
  length vals = (slice_bound (length l) stop - slice_bound (length l) start)%nat ->
  exists l', assign_slice l start stop vals = Ok l'.
Proof.
  intros H. unfold assign_slice. rewrite H, Nat.eqb_refl. eauto.
Qed.

Lemma Forall2_right_Forall {A B : Type} (P : A -> B -> Prop) (Q : B -> Prop)
    (l : list A) (l' : list B) :
  Forall2 P l l' -> (forall a b, In a l -> P a b -> Q b) -> Forall Q l'.
Proof.
  intros H. induction H as [|a b l l' Hab _ IH]; intros HPQ; constructor.
  - apply (HPQ a b); [now left|exact Hab].
  - apply IH. intros a' b' Ha'. apply HPQ. now right.
Qed.

Section WhitenerMore.

Context {num : Numeric}.

Lemma fft_length (n : nat) (x : list Re) : length (fft n x) = n.
Proof. unfold fft. now rewrite length_map, length_seq. Qed.

Lemma hermitian_1d_length (Nfft : nat) (row out : list Cx) :
  hermitian_1d Nfft row = Ok out -> length out = length row.
Proof. unfold hermitian_1d, assign_slice_from. apply assign_slice_length. Qed.

Lemma hermitian_2d_shape (Nfft : nat) (rows out : list (list Cx)) (n : nat) :
  Forall (fun row => length row = n) rows ->
  hermitian_2d Nfft rows = Ok out ->
  length out = length rows /\ Forall (fun row => length row = n) out.
Proof.
  intros Hrows. unfold hermitian_2d. intros H.
  apply sequence_Forall2, Forall2_map_left in H. split.
  - rewrite <- (Forall2_length H), length_combine, length_rev, length_map.
    apply Nat.min_id.
  - eapply Forall2_right_Forall; [exact H|].
    intros [row vals] o Hin Ho. cbn [fst snd] in Ho.
    apply in_combine_l in Hin. rewrite Forall_forall in Hrows.
    unfold assign_slice_from in Ho. apply assign_slice_length in Ho.
    rewrite Ho. now apply Hrows.
Qed.

(** X17. [whiten] keeps the shape of the transform: what it returns has the
    dimension of the data, as many rows, and [Nfft] bins along the
    transform axis, whether or not the band is shaped. *)
Theorem whiten_keeps_shape (data : ndarray Re) (delta freqmin freqmax : Q)
    (to_whiten : bool) (Nfft : option nat) (out : ndarray Cx) :
  whiten data delta freqmin freqmax to_whiten Nfft = Ok out ->
  match data, out with
  | Arr1 _, Arr1 o => length o = fft_size data Nfft
  | Arr2 m, Arr2 o =>
      length o = length m /\
      Forall (fun row => length row = fft_size data Nfft) o
  | _, _ => False
  end.
Proof.
  unfold whiten.
  change (match Nfft with
          | Some n => n
          | None => next_fast_len
              match data with Arr1 v => length v | Arr2 m => ncols m end
          end) with (fft_size data Nfft).
  set (n := fft_size data Nfft). cbv zeta.
  destruct (freqVec n delta) as [freqs|]; cbn [bind]; [|discriminate].
  destruct (py_getitem _ 0) as [J0|]; cbn [bind]; [|discriminate].
  destruct (py_getitem _ (-1)) as [Jlast|]; cbn [bind]; [|discriminate].
  destruct (n =? 0)%nat; [discriminate|].
  destruct data as [v|m].
  - destruct to_whiten.
    + destruct (shape_band n _ _ _ _ (fft n v)) as [shaped|] eqn:Es;
        cbn [bind]; [|discriminate].
      destruct (hermitian_1d n shaped) as [o|] eqn:Eh; cbn [bind]; [|discriminate].
      intros [= <-].
      apply shape_band_length in Es. apply hermitian_1d_length in Eh.
      rewrite Eh, Es. apply fft_length.
    + intros [= <-]. apply fft_length.
  - destruct to_whiten.
    + destruct (sequence _) as [shaped|] eqn:Es; cbn [bind]; [|discriminate].
      destruct (hermitian_2d n shaped) as [o|] eqn:Eh; cbn [bind]; [|discriminate].
      intros [= <-].
      apply sequence_Forall2, Forall2_map_left, Forall2_map_left in Es.
      assert (Hshaped : Forall (fun row => length row = n) shaped).
      { eapply Forall2_right_Forall; [exact Es|].
        intros r s _ Hs. apply shape_band_length in Hs.
        rewrite Hs. apply fft_length. }
      destruct (hermitian_2d_shape n shaped o n Hshaped Eh) as [Hlen Hall].
      split; [|exact Hall].
      rewrite Hlen. symmetry. apply (Forall2_length Es).
    + intros [= <-]. rewrite length_map. split; [reflexivity|].
      apply Forall_map, Forall_forall. intros r _. apply fft_length.
Qed.

(** The frequencies are floats: with [Nfft = 10] and [delta = 1.0] bin 3
    is at [3 * 0.1 = 0.30000000000000004], one float above [0.3]. A band
    that is this float alone holds bin 3, and the band that is [0.3] alone
    holds no bin. *)
Lemma freqVec_float_grid :
  exists freqs,
    freqVec 10 1 = Ok freqs /\
    nth_error freqs 3 = Some (Finite (5404319552844596 # 18014398509481984)) /\
    np_where (map (in_band (5404319552844596 # 18014398509481984)
                           (5404319552844596 # 18014398509481984)) freqs) =
      [3%nat] /\
    np_where (map (in_band (5404319552844595 # 18014398509481984)
                           (5404319552844595 # 18014398509481984)) freqs) = [].
Proof. eexists. split; [vm_compute; reflexivity|]. vm_compute. auto. Qed.

(** A transform of no point makes [fftfreq] divide by zero, and so does
    a sampling interval of zero. *)
Lemma freqVec_no_point (delta : Q) : freqVec 0 delta = Raise ZeroDivisionError.
Proof. reflexivity. Qed.

Lemma freqVec_zero_interval (Nfft : nat) (q : Q) :
  f64_of_nat Nfft = Finite q -> freqVec Nfft 0 = Raise ZeroDivisionError.
Proof.
  intros E. unfold freqVec, grid_spacing. rewrite E.
  unfold f64_mul, fl_round. cbn [Qmult Qnum]. rewrite Z.mul_0_r. reflexivity.
Qed.

(** X18. When [fftfreq] returns the frequencies, the floats
    [k * (1.0 / (Nfft * delta))] for [k < Nfft // 2], and the band holds
    none of them, [whiten] raises [IndexError] at [J[0]], also with
    [to_whiten=False], when nothing of the band is used. *)
Theorem whiten_empty_band (data : ndarray Re) (delta freqmin freqmax : Q)
    (to_whiten : bool) (Nfft : option nat) (freqs : list f64) :
  freqVec (fft_size data Nfft) delta = Ok freqs ->
  Forall (fun f => in_band freqmin freqmax f = false) freqs ->
  whiten data delta freqmin freqmax to_whiten Nfft = Raise IndexError.
Proof.
  intros Hfreqs Hband. unfold whiten.
  change (match Nfft with
          | Some n => n
          | None => next_fast_len
              match data with Arr1 v => length v | Arr2 m => ncols m end
          end) with (fft_size data Nfft).
  set (n := fft_size data Nfft) in *. cbv zeta.
  rewrite Hfreqs. cbn [bind].
  unfold np_where. rewrite where_from_none; [reflexivity|].
  apply Forall_map. exact Hband.
Qed.

Lemma shape_band_from_dc (Nfft : nat) (right high : Z) (row : list Cx) :
  shape_band Nfft 1 0 right high row =
    Raise (ValueError "Number of samples, -1, must be non-negative.").
Proof.
  unfold shape_band.
  destruct (assign_slice_fits row 0 1 (map cmul0 (py_slice row 0 1)))
    as [r1 ->].
  - now rewrite length_map, py_slice_length.
  - reflexivity.
Qed.

(** X19. A band that starts at or below 0 Hz cannot be whitened: when the
    spacing [1.0 / (Nfft * delta)] of the frequencies is a finite float,
    bin 0 is at 0 Hz and is the first bin of the band, the left taper is
    asked for [-1] points, and [np.linspace] raises [ValueError]. *)
Theorem whiten_band_from_dc (data : ndarray Re) (delta freqmin freqmax : Q)
    (Nfft : option nat) (val : Q) :
  (2 <= fft_size data Nfft)%nat ->
  grid_spacing (fft_size data Nfft) delta = Ok (Finite val) ->
  (freqmin <= 0)%Q -> (0 <= freqmax)%Q ->
  data <> Arr2 [] ->
  whiten data delta freqmin freqmax true Nfft =
    Raise (ValueError "Number of samples, -1, must be non-negative.").
Proof.
  intros Hn Hval Hmin Hmax Hrows. unfold whiten.
  change (match Nfft with
          | Some n => n
          | None => next_fast_len
              match data with Arr1 v => length v | Arr2 m => ncols m end
          end) with (fft_size data Nfft).
  set (n := fft_size data Nfft) in *. cbv zeta.
  unfold freqVec. rewrite Hval. cbn [bind].
  assert (HJ : exists rest,
             np_where (map (in_band freqmin freqmax)
                           (map (fun k => f64_mul (f64_of_nat k) (Finite val))
                                (seq 0 (n / 2)))) = 0%nat :: rest).
  { destruct (n / 2)%nat as [|h] eqn:Eh.
    - exfalso. pose proof (Nat.div_str_pos n 2). lia.
    - cbn [seq map]. unfold np_where. cbn [where_from].
      change (f64_mul (f64_of_nat 0) (Finite val)) with (Finite 0).
      unfold in_band, f64_leb.
      assert (H1 : Qle_bool freqmin 0 = true) by now apply Qle_bool_iff.
      assert (H2 : Qle_bool 0 freqmax = true) by now apply Qle_bool_iff.
      rewrite H1, H2. cbn [andb app]. eauto. }
  destruct HJ as [rest ->].
  change (py_getitem (0%nat :: rest) 0)
    with (py_getitem (0%nat :: rest) (Z.of_nat 0)).
  rewrite (py_getitem_nat (0%nat :: rest) 0). cbn [nth_error bind].
  destruct (py_getitem_valid (0%nat :: rest) (-1)) as (Jlast & -> & _).
  { unfold valid_index. cbn [length]. lia. }
  cbn [bind]. change (Z.of_nat 0 - 100 <=? 0) with true. cbv iota.
  change (Z.of_nat 0) with 0.
  destruct (Nat.eqb_spec n 0); [lia|].
  destruct data as [v|[|r m]]; [| congruence |].
  - now rewrite shape_band_from_dc.
  - cbn [map sequence]. now rewrite shape_band_from_dc.
Qed.

Lemma Forall2_nth_pair {A B : Type} (P : A -> B -> Prop) (l : list A) (l' : list B)
    (i : nat) (d : A) (d' : B) :
  Forall2 P l l' -> (i < length l)%nat -> P (nth i l d) (nth i l' d').
Proof.
  intros H. revert i. induction H as [|a b l l' Hab _ IH]; intros i Hi.
  - cbn in Hi. lia.
  - destruct i as [|i]; [exact Hab|]. cbn [nth]. apply IH. cbn in Hi. lia.
Qed.

(** The mirror step of the 2-D branch, bin by bin: bins [1, Nfft/2) of
    every row stay, and bin [Nfft - Nfft/2 + j] of row [i] receives the
    conjugate of bin [j] of row [R - 1 - i]. *)
Lemma hermitian_2d_mirror (Nfft : nat) (rows out : list (list Cx)) :
  Forall (fun row => length row = Nfft) rows ->
  hermitian_2d Nfft rows = Ok out ->
  forall i j, (i < length rows)%nat -> (1 <= j < Nfft / 2)%nat ->
    nth j (nth i out []) czero = nth j (nth i rows []) czero /\
    nth (Nfft - Nfft / 2 + j) (nth i out []) czero =
      cconj (nth j (nth (length rows - 1 - i) rows []) czero).
Proof.
  intros Hrows Hout i j Hi Hj.
  pose proof (Nat.Div0.mul_div_le Nfft 2) as Hh.
  set (h := (Nfft / 2)%nat) in *.
  unfold hermitian_2d in Hout. fold h in Hout.
  set (rhs := rev (map (fun row => map cconj (py_slice row 1 (Z.of_nat h))) rows)) in *.
  assert (Hrhs : length rhs = length rows)
    by (unfold rhs; now rewrite length_rev, length_map).
  apply sequence_Forall2, Forall2_map_left in Hout.
  pose proof (Forall2_nth_pair _ _ _ i ([], []) [] Hout) as Hi'.
  cbv beta in Hi'. rewrite length_combine, Hrhs, Nat.min_id in Hi'.
  specialize (Hi' Hi).
  rewrite combine_nth in Hi' by (symmetry; exact Hrhs).
  cbn [fst snd] in Hi'.
  set (row := nth i rows []) in *.
  set (mirror := nth (length rows - 1 - i) rows []).
  assert (Hlen_row : length row = Nfft).
  { rewrite Forall_forall in Hrows. apply Hrows. apply nth_In. exact Hi. }
  assert (Hlen_mirror : length mirror = Nfft).
  { rewrite Forall_forall in Hrows. apply Hrows. apply nth_In. lia. }
  assert (Evals : nth i rhs [] = map cconj (py_slice mirror 1 (Z.of_nat h))).
  { unfold rhs. rewrite rev_nth by (rewrite length_map; lia).
    rewrite length_map.
    rewrite (nth_map_lt (fun row => map cconj (py_slice row 1 (Z.of_nat h)))
               rows _ [] []) by lia.
    unfold mirror. do 3 f_equal. lia. }
  rewrite Evals in Hi'. clear Evals.
  unfold assign_slice_from, assign_slice, py_slice in Hi'.
  rewrite Hlen_row, Hlen_mirror in Hi'.
  assert (Ea : slice_bound Nfft (- Z.of_nat h + 1) = (Nfft - h + 1)%nat).
  { unfold slice_bound. destruct (Z.ltb_spec (- Z.of_nat h + 1) 0); lia. }
  assert (Eb : slice_bound Nfft (Z.of_nat Nfft) = Nfft).
  { unfold slice_bound. destruct (Z.ltb_spec (Z.of_nat Nfft) 0); lia. }
  assert (E1 : slice_bound Nfft 1 = 1%nat).
  { unfold slice_bound. destruct (Z.ltb_spec 1 0); lia. }
  assert (Eh : slice_bound Nfft (Z.of_nat h) = h).
  { unfold slice_bound. destruct (Z.ltb_spec (Z.of_nat h) 0); lia. }
  rewrite Ea, Eb, E1, Eh in Hi'.
  set (sl := firstn (h - 1) (skipn 1 mirror)) in *.
  assert (Hsl : length sl = (h - 1)%nat).
  { unfold sl. rewrite length_firstn, length_skipn. lia. }
  rewrite length_map, Hsl in Hi'.
  destruct (Nat.eqb_spec (h - 1) (Nfft - (Nfft - h + 1))) as [_|Hne]; [|lia].
  injection Hi' as Hout_i. rewrite <- Hout_i.
  assert (Hfirst : length (firstn (Nfft - h + 1) row) = (Nfft - h + 1)%nat)
    by (rewrite length_firstn; lia).
  split.
  - rewrite app_nth1 by lia. rewrite nth_firstn.
    destruct (Nat.ltb_spec j (Nfft - h + 1)); [reflexivity|lia].
  - rewrite app_nth2 by lia. rewrite Hfirst.
    rewrite app_nth1 by (rewrite length_map; lia).
    rewrite (nth_map_lt cconj sl _ czero czero) by lia.
    f_equal. unfold sl. rewrite nth_firstn.
    destruct (Nat.ltb_spec (Nfft - h + j - (Nfft - h + 1)) (h - 1)); [|lia].
    rewrite nth_skipn. f_equal. lia.
Qed.

(** X20. What the 2-D branch of [whiten] returns in the upper bins: with [R]
    rows of [Nfft] bins, bin [Nfft - Nfft/2 + j] of row [i] is the
    conjugate of bin [j] of row [R - 1 - i], for [j] in [1, Nfft/2). The
    reversal [[::-1]] acts on the rows: the bins are copied in rising
    order, from the row at the opposite end of the array. *)
Theorem whiten_2d_mirrors_rows (rows : list (list Re)) (delta freqmin freqmax : Q)
    (Nfft : option nat) (out : list (list Cx)) :
  whiten (Arr2 rows) delta freqmin freqmax true Nfft = Ok (Arr2 out) ->
  let n := fft_size (Arr2 rows) Nfft in
  forall i j, (i < length rows)%nat -> (1 <= j < n / 2)%nat ->
    nth (n - n / 2 + j) (nth i out []) czero =
      cconj (nth j (nth (length rows - 1 - i) out []) czero).
Proof.
  intros Hw n i j Hi Hj. unfold whiten in Hw.
  change (match Nfft with
          | Some n => n
          | None => next_fast_len (ncols rows)
          end) with n in Hw.
  cbv zeta in Hw.
  destruct (freqVec n delta) as [freqs|]; cbn [bind] in Hw; [|discriminate].
  destruct (py_getitem _ 0) as [J0|]; cbn [bind] in Hw; [|discriminate].
  destruct (py_getitem _ (-1)) as [Jlast|]; cbn [bind] in Hw; [|discriminate].
  destruct (n =? 0)%nat; [discriminate|].
  destruct (sequence _) as [shaped|] eqn:Es; cbn [bind] in Hw; [|discriminate].
  destruct (hermitian_2d n shaped) as [o|] eqn:Eh; cbn [bind] in Hw; [|discriminate].
  injection Hw as ->.
  apply sequence_Forall2, Forall2_map_left, Forall2_map_left in Es.
  assert (Hshaped : Forall (fun row => length row = n) shaped).
  { eapply Forall2_right_Forall; [exact Es|].
    intros r s _ Hs. apply shape_band_length in Hs.
    rewrite Hs. apply fft_length. }
  assert (Hlen : length shaped = length rows)
    by (symmetry; apply (Forall2_length Es)).
  destruct (hermitian_2d_mirror n shaped out Hshaped Eh i j) as [_ H2];
    [lia|exact Hj|].
  destruct (hermitian_2d_mirror n shaped out Hshaped Eh (length rows - 1 - i) j)
    as [H1 _]; [lia|exact Hj|].
  rewrite H2, H1, Hlen. reflexivity.
Qed.

Lemma slice_bound_pos (n : nat) (i : Z) :
  (1 <= n)%nat -> 1 <= i -> (1 <= slice_bound n i)%nat.
Proof. intros Hn Hi. unfold slice_bound. destruct (Z.ltb_spec i 0); lia. Qed.

(** A slice assignment leaves the items before the slice as they are. *)
Lemma assign_slice_before {A : Type} (l l' : list A) (start stop : Z)
    (vals : list A) (k : nat) (d : A) :
  assign_slice l start stop vals = Ok l' ->
  (k < slice_bound (length l) start)%nat ->
  nth k l' d = nth k l d.
Proof.
  unfold assign_slice. intros H Hk.
  pose proof (slice_bound_le (length l) start) as Ha.
  set (a := slice_bound (length l) start) in *.
  assert (Hfirst : length (firstn a l) = a) by (rewrite length_firstn; lia).
  assert (Hnth : forall t, nth k (firstn a l ++ t) d = nth k l d).
  { intros t. rewrite app_nth1 by lia. rewrite nth_firstn.
    destruct (Nat.ltb_spec k a); [reflexivity|lia]. }
  destruct (_ =? _)%nat.
  - injection H as <-. apply Hnth.
  - destruct vals as [|v [|? ?]]; try discriminate.
    injection H as <-. apply Hnth.
Qed.

(** The first statement of the band shaping multiplies bin 0 by zero, and
    no later one writes there. *)
Lemma shape_band_scales_dc (Nfft : nat) (low left right high : Z)
    (row out : list Cx) :
  shape_band Nfft low left right high row = Ok out ->
  (1 <= length row)%nat -> 1 <= low -> 1 <= right -> 1 <= high ->
  nth 0 out czero = cmul0 (nth 0 row czero).
Proof.
  unfold shape_band. intros H Hlen Hlow Hright Hhigh.
  destruct (assign_slice row 0 low _) as [r1|] eqn:E1; cbn [bind] in H;
    [|discriminate].
  destruct (cos_taper taper_left _) as [tl|] eqn:Et; cbn [bind] in H;
    [|discriminate].
  assert (Hleft : 1 <= left).
  { unfold cos_taper in Et. destruct (Z.ltb_spec (left - low) 0); [discriminate|lia]. }
  destruct (broadcast cscale tl _) as [v1|]; cbn [bind] in H; [|discriminate].
  destruct (assign_slice r1 low left v1) as [r2|] eqn:E2; cbn [bind] in H;
    [|discriminate].
  destruct (assign_slice r2 left right _) as [r3|] eqn:E3; cbn [bind] in H;
    [|discriminate].
  destruct (cos_taper taper_right _) as [tr|]; cbn [bind] in H; [|discriminate].
  destruct (broadcast cscale tr _) as [v2|]; cbn [bind] in H; [|discriminate].
  destruct (assign_slice r3 right high v2) as [r4|] eqn:E4; cbn [bind] in H;
    [|discriminate].
  pose proof (assign_slice_length _ _ _ _ _ E1) as L1.
  pose proof (assign_slice_length _ _ _ _ _ E2) as L2.
  pose proof (assign_slice_length _ _ _ _ _ E3) as L3.
  pose proof (assign_slice_length _ _ _ _ _ E4) as L4.
  rewrite (assign_slice_before _ _ _ _ _ 0 czero H)
    by (apply slice_bound_pos; [lia|exact Hhigh]).
  rewrite (assign_slice_before _ _ _ _ _ 0 czero E4)
    by (apply slice_bound_pos; [lia|exact Hright]).
  rewrite (assign_slice_before _ _ _ _ _ 0 czero E3)
    by (apply slice_bound_pos; [lia|exact Hleft]).
  rewrite (assign_slice_before _ _ _ _ _ 0 czero E2)
    by (apply slice_bound_pos; [lia|exact Hlow]).
  clear - E1 Hlen Hlow.
  unfold assign_slice in E1. rewrite length_map, py_slice_length in E1.
  rewrite Nat.eqb_refl in E1. injection E1 as <-.
  pose proof (slice_bound_pos (length row) low Hlen Hlow) as Hb.
  assert (E0 : slice_bound (length row) 0 = 0%nat).
  { unfold slice_bound. destruct (Z.ltb_spec 0 0); lia. }
  rewrite E0. cbn [firstn app].
  rewrite app_nth1 by (rewrite length_map, py_slice_length, E0; lia).
  destruct row as [|z row]; [cbn in Hlen; lia|].
  unfold py_slice. rewrite E0. cbn [skipn].
  destruct (slice_bound (length (z :: row)) low - 0)%nat eqn:Eb; [lia|].
  reflexivity.
Qed.

Lemma where_from_lower (i : nat) (mask : list bool) (k : nat) :
  In k (where_from i mask) -> (i <= k)%nat.
Proof.
  intros H. pose proof (where_from_bound i mask) as Hb.
  rewrite Forall_forall in Hb. specialize (Hb k H). lia.
Qed.

Lemma where_from_head_least (i : nat) (mask : list bool) (a k : nat) (rest : list nat) :
  where_from i mask = a :: rest -> In k (a :: rest) -> (a <= k)%nat.
Proof.
  revert i. induction mask as [|b mask IH]; intros i; cbn [where_from]; [discriminate|].
  destruct b; cbn [app].
  - intros [= <- <-] [<-|Hk]; [lia|].
    apply where_from_lower in Hk. lia.
  - apply IH.
Qed.

(** The band limits that [whiten] derives from a band that holds a bin. *)
Lemma band_limits (n : nat) (mask : list bool) (J0 Jlast : nat) :
  (length mask <= n / 2)%nat ->
  py_getitem (np_where mask) 0 = Ok J0 ->
  py_getitem (np_where mask) (-1) = Ok Jlast ->
  (J0 <= Jlast)%nat /\ (1 <= n / 2)%nat.
Proof.
  intros Hlen H0 Hl.
  destruct (np_where mask) as [|a rest] eqn:EJ; [discriminate|].
  change (py_getitem (a :: rest) 0) with (py_getitem (a :: rest) (Z.of_nat 0)) in H0.
  rewrite py_getitem_nat in H0. cbn [nth_error] in H0. injection H0 as ->.
  apply py_getitem_In in Hl. split.
  - eapply where_from_head_least; [exact EJ|exact Hl].
  - destruct mask; [discriminate|]. cbn [length] in Hlen. lia.
Qed.

Lemma mirror_slice_length (n : nat) (row : list Cx) :
  length row = n -> n <> 0%nat ->
  length (map cconj (py_slice row 1 (Z.of_nat (n / 2)))) = (n / 2 - 1)%nat.
Proof.
  intros Hlen Hn. rewrite length_map, py_slice_length, Hlen.
  pose proof (Nat.Div0.mul_div_le n 2).
  unfold slice_bound.
  destruct (Z.ltb_spec (Z.of_nat (n / 2)) 0); destruct (Z.ltb_spec 1 0); lia.
Qed.

(** The mirror assignment, when it succeeds, starts after bin 0. *)
Lemma mirror_start_pos (n : nat) (row vals o : list Cx) :
  length row = n -> n <> 0%nat -> length vals = (n / 2 - 1)%nat ->
  assign_slice row (- Z.of_nat (n / 2) + 1) (Z.of_nat (length row)) vals = Ok o ->
  (1 <= slice_bound (length row) (- Z.of_nat (n / 2) + 1))%nat.
Proof.
  intros Hlen Hn Hvals Ho. rewrite Hlen in *.
  pose proof (Nat.Div0.mul_div_le n 2) as Hdiv.
  destruct (Nat.eq_dec (n / 2) 1) as [E|E].
  - exfalso. rewrite E in *. cbn [Z.of_nat Pos.of_succ_nat Z.opp Z.add Z.pos_sub] in Ho.
    unfold assign_slice in Ho. rewrite Hlen, Hvals in Ho.
    assert (E0 : slice_bound n 0 = 0%nat).
    { unfold slice_bound. destruct (Z.ltb_spec 0 0); lia. }
    assert (En : slice_bound n (Z.of_nat n) = n).
    { unfold slice_bound. destruct (Z.ltb_spec (Z.of_nat n) 0); lia. }
    rewrite E0, En in Ho.
    destruct (Nat.eqb_spec (1 - 1) (n - 0)); [lia|].
    destruct vals; [discriminate|cbn in Hvals; lia].
  - unfold slice_bound.
    destruct (Z.ltb_spec (- Z.of_nat (n / 2) + 1) 0); lia.
Qed.

Lemma Forall2_combine_fst {A B C : Type} (P : A * B -> C -> Prop)
    (Q : A -> C -> Prop) (l : list A) (r : list B) (o : list C) :
  length l = length r ->
  Forall2 P (combine l r) o ->
  (forall p y, In p (combine l r) -> P p y -> Q (fst p) y) ->
  Forall2 Q l o.
Proof.
  revert r o. induction l as [|a l IH]; intros [|b r] o Hlen H HPQ;
    cbn [combine length] in *; try discriminate.
  - inversion H. constructor.
  - inversion H as [|p y ps ys Hp Hrest]; subst. constructor.
    + apply (HPQ (a, b) y); [left; reflexivity|exact Hp].
    + apply (IH r); [lia|exact Hrest|].
      intros p y' Hin Hp'. apply HPQ; [right; exact Hin|exact Hp'].
Qed.

Lemma Forall2_compose {A B C : Type} (P : A -> B -> Prop) (Q : B -> C -> Prop)
    (R : A -> C -> Prop) (a : list A) (b : list B) (c : list C) :
  Forall2 P a b -> Forall2 Q b c ->
  (forall x y z, P x y -> Q y z -> R x z) -> Forall2 R a c.
Proof.
  intros H. revert c.
  induction H; intros c HQ HR; inversion HQ; subst; constructor; eauto.
Qed.

(** X21. What whitening does to the mean: when the band is shaped, bin 0 of
    every row that [whiten] returns is bin 0 of the transform of that row
    times zero, the outcome of [FFTRawSign[0:low] *= 0]; no later
    statement writes there. *)
Theorem whiten_dc_times_zero (data : ndarray Re) (delta freqmin freqmax : Q)
    (Nfft : option nat) (out : ndarray Cx) :
  whiten data delta freqmin freqmax true Nfft = Ok out ->
  let n := fft_size data Nfft in
  match data, out with
  | Arr1 v, Arr1 o => nth 0 o czero = cmul0 (fft_bin n v 0)
  | Arr2 m, Arr2 o =>
      Forall2 (fun x row => nth 0 row czero = cmul0 (fft_bin n x 0)) m o
  | _, _ => False
  end.
Proof.
  unfold whiten.
  change (match Nfft with
          | Some n => n
          | None => next_fast_len
              match data with Arr1 v => length v | Arr2 m => ncols m end
          end) with (fft_size data Nfft).
  set (n := fft_size data Nfft). cbv zeta.
  destruct (freqVec n delta) as [freqs|] eqn:Ef; cbn [bind]; [|discriminate].
  destruct (py_getitem _ 0) as [J0|] eqn:E0; cbn [bind]; [|discriminate].
  destruct (py_getitem _ (-1)) as [Jlast|] eqn:El; cbn [bind]; [|discriminate].
  destruct (Nat.eqb_spec n 0) as [|Hn]; [discriminate|].
  destruct (fun Hlen => band_limits n _ J0 Jlast Hlen E0 El) as [HJ Hh].
  { unfold freqVec in Ef. destruct (grid_spacing n delta); [|discriminate].
    injection Ef as <-. now rewrite !length_map, length_seq. }
  set (low := if Z.of_nat J0 - 100 <=? 0 then 1 else Z.of_nat J0 - 100).
  set (high := if Z.of_nat n <? 2 * (Z.of_nat Jlast + 100)
               then Z.of_nat (n / 2) else Z.of_nat Jlast + 100).
  assert (Hlow : 1 <= low).
  { unfold low. destruct (Z.leb_spec (Z.of_nat J0 - 100) 0); lia. }
  assert (Hhigh : 1 <= high).
  { unfold high. destruct (Z.ltb_spec (Z.of_nat n) (2 * (Z.of_nat Jlast + 100))); lia. }
  assert (Hdc : forall x, nth 0 (fft n x) czero = fft_bin n x 0).
  { intros x. unfold fft. destruct n; [lia|reflexivity]. }
  assert (Hband : forall x row,
            shape_band n low (Z.of_nat J0) (Z.of_nat Jlast) high (fft n x) = Ok row ->
            nth 0 row czero = cmul0 (fft_bin n x 0) /\ length row = n).
  { intros x row Hrow.
    assert (HJ1 : 1 <= Z.of_nat Jlast).
    { destruct (Z.le_gt_cases 1 (Z.of_nat Jlast)) as [|Hz]; [assumption|].
      exfalso. assert (J0 = 0%nat) by lia. subst J0.
      assert (low = 1) by reflexivity.
      assert (Jlast = 0%nat) by lia. subst Jlast.
      replace low with 1 in Hrow by assumption.
      change (Z.of_nat 0) with 0 in Hrow.
      rewrite shape_band_from_dc in Hrow. discriminate. }
    split.
    - rewrite <- Hdc.
      apply (shape_band_scales_dc n low (Z.of_nat J0) (Z.of_nat Jlast) high
               (fft n x) row Hrow); try assumption.
      rewrite fft_length. lia.
    - apply shape_band_length in Hrow. rewrite Hrow. apply fft_length. }
  pose proof (Nat.Div0.mul_div_le n 2) as Hdiv.
  destruct data as [v|m].
  - destruct (shape_band n _ _ _ _ (fft n v)) as [shaped|] eqn:Es;
      cbn [bind]; [|discriminate].
    destruct (hermitian_1d n shaped) as [o|] eqn:Eh; cbn [bind]; [|discriminate].
    intros [= <-].
    destruct (Hband v shaped Es) as [Hz Hlen].
    etransitivity; [|exact Hz]. unfold hermitian_1d, assign_slice_from in Eh.
    apply (assign_slice_before _ _ _ _ _ 0 czero Eh).
    refine (mirror_start_pos n shaped _ o Hlen Hn _ Eh).
    rewrite length_rev. now apply mirror_slice_length.
  - destruct (sequence _) as [shaped|] eqn:Es; cbn [bind]; [|discriminate].
    destruct (hermitian_2d n shaped) as [o|] eqn:Eh; cbn [bind]; [|discriminate].
    intros [= <-].
    apply sequence_Forall2, Forall2_map_left, Forall2_map_left in Es.
    assert (Es' : Forall2 (fun x s => nth 0 s czero = cmul0 (fft_bin n x 0) /\
                                      length s = n) m shaped).
    { eapply Forall2_impl; [|exact Es]. intros x s Hs. now apply Hband. }
    assert (Hshaped : Forall (fun row => length row = n) shaped).
    { eapply Forall2_right_Forall; [exact Es'|]. intros r s _ [_ Hs]. exact Hs. }
    unfold hermitian_2d in Eh.
    apply sequence_Forall2, Forall2_map_left in Eh.
    apply (Forall2_compose _ (fun s orow => nth 0 orow czero = nth 0 s czero) _
             m shaped o Es').
    + eapply Forall2_combine_fst; [|exact Eh|].
      * now rewrite length_rev, length_map.
      * intros [row vals] orow Hin Ho. cbn [fst snd] in Ho |- *.
        rewrite Forall_forall in Hshaped.
        pose proof (Hshaped row (in_combine_l _ _ _ _ Hin)) as Hlen.
        unfold assign_slice_from in Ho.
        apply (assign_slice_before _ _ _ _ _ 0 czero Ho).
        apply (mirror_start_pos n row vals orow Hlen Hn); [|exact Ho].
        apply in_combine_r, in_rev, in_map_iff in Hin as (r' & <- & Hr').
        apply mirror_slice_length; [|exact Hn]. now apply Hshaped.
    + intros x s orow [Hz _] Ho. now rewrite Ho.
Qed.

End WhitenerMore.

Lemma whiten_two_frames_real :
  whiten (num := real_numeric) (Arr2 two_frames) 1 (1 # 10) (3 # 10) true None =
    Ok (Arr2 two_frames_whitened).
Proof. exact (whiten_two_frames (num := real_numeric) 1 0 0 0 0 1 0 0)%R. Qed.

Lemma whiten_keeps_shape_witness :
  length two_frames_whitened = length two_frames /\
  Forall (fun row => length row = fft_size (Arr2 two_frames) None)
         two_frames_whitened.
Proof.
  apply (whiten_keeps_shape (num := real_numeric) (Arr2 two_frames) 1 (1 # 10)
           (3 # 10) true None (Arr2 two_frames_whitened)).
  exact whiten_two_frames_real.
Defined.

Lemma whiten_empty_band_witness :
  whiten (num := real_numeric) (Arr2 two_frames) 1 (3 # 10) (1 # 10) false None =
    Raise IndexError.
Proof.
  eapply (whiten_empty_band (num := real_numeric) (Arr2 two_frames) 1 (3 # 10)
            (1 # 10) false None).
  - reflexivity.
  - repeat constructor.
Defined.

Lemma whiten_band_from_dc_witness :
  whiten (num := real_numeric) (Arr2 two_frames) 1 0 (3 # 10) true None =
    Raise (ValueError "Number of samples, -1, must be non-negative.").
Proof.
  eapply (whiten_band_from_dc (num := real_numeric) (Arr2 two_frames) 1 0
            (3 # 10) None).
  - cbn. lia.
  - reflexivity.
  - discriminate.
  - discriminate.
  - discriminate.
Defined.

Lemma whiten_2d_mirrors_rows_witness :
  nth 3 (nth 0 two_frames_whitened []) RC_zero =
    RC_conj (nth 1 (nth 1 two_frames_whitened []) RC_zero).
Proof.
  apply (whiten_2d_mirrors_rows (num := real_numeric) two_frames 1 (1 # 10)
           (3 # 10) None two_frames_whitened whiten_two_frames_real 0 1).
  - cbn. lia.
  - cbn. lia.
Defined.

Lemma whiten_dc_times_zero_witness :
  Forall2 (fun x row =>
             nth 0 row RC_zero =
               cmul0 (Numeric := real_numeric)
                 (fft_bin (fft_size (Arr2 two_frames) None) x 0))
          two_frames two_frames_whitened.
Proof.
  apply (whiten_dc_times_zero (num := real_numeric) (Arr2 two_frames) 1 (1 # 10)
           (3 # 10) None (Arr2 two_frames_whitened)).
  exact whiten_two_frames_real.
Defined.

(** ** Correlation engine, continued *)

Lemma combine_map_right {A B C : Type} (g : B -> C) (l : list A) (l' : list B) :
  combine l (map g l') = map (fun p => (fst p, g (snd p))) (combine l l').
Proof.
  revert l'. induction l as [|a l IH]; intros [|b l']; cbn [combine map];
    try reflexivity.
  now rewrite IH.
Qed.

(** Broadcasting two arrays of one shape pairs their entries. *)
Lemma broadcast2_rows {A B C : Type} (f : A -> B -> C)
    (x : list (list A)) (y : list (list B)) (c : nat) :
  length x = length y ->
  Forall (fun row => length row = c) x -> Forall (fun row => length row = c) y ->
  broadcast2 f x y =
    Ok (map (fun p => map (fun q => f (fst q) (snd q)) (combine (fst p) (snd p)))
            (combine x y)).
Proof.
  intros Hlen Hx Hy. unfold broadcast2.
  rewrite (broadcast_same_length _ x y Hlen). cbn [bind].
  apply sequence_map_ok.
  apply Forall_forall. intros [r s] Hin. cbn [fst snd].
  apply broadcast_same_length.
  rewrite Forall_forall in Hx, Hy.
  rewrite (Hx r (in_combine_l _ _ _ _ Hin)), (Hy s (in_combine_r _ _ _ _ Hin)).
  reflexivity.
Qed.

Section CorrelationMore.

Context {num : Numeric}.
Variable smooth : list Re -> nat -> list Re.

(** X23. Plain cross-correlation of two 2-D spectra of one shape, window by
    window: row [i] of the result holds the lags [-m, ..., m] of the real
    part of the inverse transform of [fft1[i] * conj(fft2[i])], lag 0 at
    index [m], the negative lags taken from the end of the transform;
    [m] is [maxlag] rounded. *)
Theorem correlate_lags_centered (x y : list (list Cx)) (maxlag : Q)
    (Nfft : option nat) :
  same_shape (Arr2 x) (Arr2 y) ->
  0 <= np_round maxlag ->
  2 * np_round maxlag + 2 <= Z.of_nat (ncols x) ->
  (ncols x <= fft_size (Arr2 x) Nfft)%nat ->
  correlate smooth (Arr2 x) (Arr2 y) maxlag Nfft "cross_correlation" =
    Ok (Arr2 (map (fun p =>
                     centered_lags (Z.to_nat (np_round maxlag))
                       (map creal (ifft (fft_size (Arr2 x) Nfft)
                                     (cross_spectrum (fst p) (snd p)))))
                  (combine x y))).
Proof.
  intros (Hlen & Hx & Hy) H0 Hfit Hn. unfold correlate.
  change (match Nfft with
          | Some n => n
          | None => next_fast_len (ncols x)
          end) with (fft_size (Arr2 x) Nfft).
  set (n := fft_size (Arr2 x) Nfft) in *. cbv zeta.
  replace (String.eqb "cross_correlation" "deconv") with false by reflexivity.
  replace (String.eqb "cross_correlation" "coherence") with false by reflexivity.
  cbn [np_map np_binop].
  rewrite (broadcast2_rows cmul x (map (map cconj) y) (ncols x)).
  2:{ now rewrite length_map. }
  2:{ exact Hx. }
  2:{ apply Forall_map. eapply Forall_impl; [|exact Hy].
      cbn beta. intros row Hrow. now rewrite length_map. }
  cbn [bind]. unfold ifft_axis.
  destruct (Nat.eqb_spec n 0); [lia|].
  cbn [bind np_map].
  rewrite combine_map_right, !map_map. cbn [fst snd].
  rewrite (sequence_map_ok _
             (fun p => centered_lags (Z.to_nat (np_round maxlag))
                         (map creal (ifft n (cross_spectrum (fst p) (snd p)))))).
  - reflexivity.
  - apply Forall_forall. intros [r s] _. cbn [fst snd].
    unfold cross_spectrum. rewrite combine_map_right, map_map. cbn [fst snd].
    apply lag_window_centered; [exact H0|exact Hfit|].
    rewrite length_map, ifft_length. exact Hn.
Qed.

End CorrelationMore.

Lemma correlate_lags_centered_witness :
  correlate (num := real_numeric) boxcar_smooth (Arr2 spectrum8_rows)
    (Arr2 spectrum8_rows) (11 # 4) None "cross_correlation" =
    Ok (Arr2 (map (fun p =>
                     centered_lags (Z.to_nat (np_round (11 # 4)))
                       (map fst (ifft (num := real_numeric)
                                   (fft_size (Arr2 spectrum8_rows) None)
                                   (cross_spectrum (num := real_numeric)
                                      (fst p) (snd p)))))
                  (combine spectrum8_rows spectrum8_rows))).
Proof.
  apply (correlate_lags_centered (num := real_numeric) boxcar_smooth
           spectrum8_rows spectrum8_rows (11 # 4) None).
  - cbn. repeat split; repeat constructor.
  - change (0 <= 3)%Z. lia.
  - change (2 * 3 + 2 <= 8)%Z. lia.
  - cbn. lia.
Defined.

(** *** The three methods on 2-D spectra *)

Lemma broadcast_row_scalar {A B C : Type} (f : A -> B -> C) (r : list A) (b : B) :
  exists l, broadcast f r [b] = Ok l /\ length l = length r.
Proof.
  unfold broadcast. destruct (Nat.eqb_spec (length r) (length [b])) as [E|E].
  - eexists. split; [reflexivity|].
    rewrite length_map, length_combine, E. apply Nat.min_id.
  - destruct r as [|a [|a' r]].
    + eexists. split; reflexivity.
    + cbn in E. congruence.
    + eexists. split; [reflexivity|]. now rewrite length_map.
Qed.

(** Adding a column to an array of as many rows keeps the shape. *)
Lemma broadcast2_column {A B C : Type} (f : A -> B -> C)
    (x : list (list A)) (col : list (list B)) (r c : nat) :
  has_shape r c x -> has_shape r 1 col ->
  exists m, broadcast2 f x col = Ok m /\ has_shape r c m.
Proof.
  intros [Hr Hx] [Hr' Hcol]. unfold broadcast2.
  rewrite (broadcast_same_length _ x col) by congruence. cbn [bind].
  subst r. revert col Hr' Hcol.
  induction Hx as [|row x Hrow Hx IH]; intros [|s col] Hlen Hcol;
    try discriminate; cbn [combine map sequence].
  - exists []. repeat split; constructor.
  - inversion Hcol as [|? ? Hs Hcol']; subst. cbn [fst snd].
    destruct s as [|b [|b' s]]; try discriminate Hs.
    destruct (broadcast_row_scalar f row b) as (l & -> & Hl). cbn [bind].
    destruct (IH col ltac:(cbn in Hlen; lia) Hcol') as (m & -> & Hm & Hall).
    cbn [bind]. eexists. split; [reflexivity|]. split.
    + cbn [length]. now rewrite Hm.
    + constructor; [now rewrite Hl|exact Hall].
Qed.

Lemma has_shape_map {A B : Type} (f : list A -> list B) (r c : nat)
    (m : list (list A)) :
  (forall row, length (f row) = length row) ->
  has_shape r c m -> has_shape r c (map f m).
Proof.
  intros Hf [Hr Hall]. split; [now rewrite length_map|].
  apply Forall_map. eapply Forall_impl; [|exact Hall].
  cbn beta. intros row Hrow. now rewrite Hf.
Qed.

Lemma has_shape_ncols {A : Type} (r c : nat) (m : list (list A)) :
  has_shape r c m -> (1 <= r)%nat -> ncols m = c.
Proof.
  intros [Hr Hall] Hpos. destruct m as [|row m]; [cbn in Hr; lia|].
  now inversion Hall.
Qed.

Section CorrelationMethods.

Context {num : Numeric}.
Variable smooth : list Re -> nat -> list Re.
Hypothesis smooth_length : forall row half_win,
  length (smooth row half_win) = length row.

Lemma smoothed_shape (r c : nat) (f : list (list Cx)) :
  has_shape r c f ->
  has_shape r c (map (fun row => smooth row 20) (map (map cabs) f)).
Proof.
  intros H. apply has_shape_map; [intros row; apply smooth_length|].
  apply has_shape_map; [intros row; apply length_map|exact H].
Qed.

Lemma regulariser_shape (r c : nat) (f : list (list Cx)) :
  has_shape r c f ->
  exists reg, regulariser smooth (Arr2 f) = Ok (Arr2 reg) /\ has_shape r 1 reg.
Proof.
  intros H. unfold regulariser. cbn [np_map np_smooth mean_axis1 bind column].
  eexists. split; [reflexivity|].
  destruct (smoothed_shape r c f H) as [Hr _].
  split.
  - now rewrite !length_map in *.
  - rewrite !Forall_map. apply Forall_forall. intros row _. reflexivity.
Qed.

Lemma coherence_divisor_shape (r c : nat) (f : list (list Cx)) :
  has_shape r c f ->
  exists d, coherence_divisor smooth (Arr2 f) = Ok (Arr2 d) /\ has_shape r c d.
Proof.
  intros H. unfold coherence_divisor.
  destruct (regulariser_shape r c f H) as (reg & -> & Hreg). cbn [bind].
  cbn [np_map np_smooth np_binop].
  destruct (broadcast2_column radd _ reg r c (smoothed_shape r c f H) Hreg)
    as (m & -> & Hm).
  cbn [bind]. eauto.
Qed.

Lemma deconv_divisor_shape (r c : nat) (f1 f2 : list (list Cx)) :
  has_shape r c f1 -> has_shape r c f2 ->
  exists d, deconv_divisor smooth (Arr2 f1) (Arr2 f2) = Ok (Arr2 d) /\
            has_shape r c d.
Proof.
  intros H1 H2. unfold deconv_divisor.
  destruct (regulariser_shape r c f1 H1) as (reg & -> & Hreg). cbn [bind].
  cbn [np_map np_smooth np_binop].
  destruct (broadcast2_column radd
              (map (map rsquare)
                 (map (fun row => smooth row 20) (map (map cabs) f2)))
              reg r c) as (m & -> & Hm).
  - apply has_shape_map; [intros row; apply length_map|].
    now apply smoothed_shape.
  - exact Hreg.
  - cbn [bind]. eauto.
Qed.

Lemma np_inplace_same_shape {A B : Type} (g : A -> B -> A) (r c : nat)
    (m : list (list A)) (d : list (list B)) :
  has_shape r c m -> has_shape r c d ->
  exists m', np_inplace g (Arr2 m) (Arr2 d) = Ok (Arr2 m') /\ has_shape r c m'.
Proof.
  intros [Hr Hm] [Hr' Hd]. unfold np_inplace. cbn [np_binop].
  destruct (broadcast2_same_shape g m d c) as (m' & -> & Hlen & Hall);
    [congruence|exact Hm|exact Hd|].
  cbn [bind shape].
  assert (Hshape : has_shape r c m') by (split; [congruence|exact Hall]).
  assert (Hcols : ncols m' = ncols m).
  { destruct m as [|row m], m' as [|row' m'']; try discriminate Hlen;
      [reflexivity|].
    inversion Hm; inversion Hall; subst. cbn [ncols]. congruence. }
  rewrite Hlen, Hcols. unfold list_nat_eqb.
  destruct (list_eq_dec Nat.eq_dec _ _); [eauto|congruence].
Qed.

(** X24. On 2-D spectra of one shape, with at least one bin and a smoothing
    that keeps the length of a row, [correlate] returns with every
    method: the regularising column of ['deconv'] and ['coherence']
    broadcasts against the divisor, and the division in place keeps the
    shape. *)
Theorem correlate_2d_methods_return (x y : list (list Cx)) (maxlag : Q)
    (method : string) :
  same_shape (Arr2 x) (Arr2 y) -> (1 <= ncols x)%nat ->
  exists out, correlate smooth (Arr2 x) (Arr2 y) maxlag None method = Ok (Arr2 out) /\
              length out = length x.
Proof.
  intros (Hlen & Hx & Hy) Hc. unfold correlate.
  set (r := length x). set (c := ncols x) in *.
  assert (Sx : has_shape r c x) by (split; [reflexivity|exact Hx]).
  assert (Sy : has_shape r c y) by (split; [now symmetry|exact Hy]).
  cbn [np_map np_binop].
  destruct (broadcast2_same_shape cmul x (map (map cconj) y) c)
    as (m & -> & Hm & Hall).
  { now rewrite length_map. }
  { exact Hx. }
  { apply Forall_map. eapply Forall_impl; [|exact Hy].
    cbn beta. intros row Hrow. now rewrite length_map. }
  cbn [bind].
  assert (Sm : has_shape r c m) by (split; assumption).
  assert (Hdiv : exists m',
    (if String.eqb method "deconv" then
       d <- deconv_divisor smooth (Arr2 x) (Arr2 y) ;;
       np_inplace cdiv_re (Arr2 m) d
     else if String.eqb method "coherence" then
       d1 <- coherence_divisor smooth (Arr2 x) ;;
       corr <- np_inplace cdiv_re (Arr2 m) d1 ;;
       d2 <- coherence_divisor smooth (Arr2 y) ;;
       np_inplace cdiv_re corr d2
     else Ok (Arr2 m)) = Ok (Arr2 m') /\ has_shape r c m').
  { destruct (String.eqb method "deconv").
    - destruct (deconv_divisor_shape r c x y Sx Sy) as (d & -> & Sd). cbn [bind].
      now apply np_inplace_same_shape.
    - destruct (String.eqb method "coherence"); [|eauto].
      destruct (coherence_divisor_shape r c x Sx) as (d1 & -> & Sd1). cbn [bind].
      destruct (np_inplace_same_shape cdiv_re r c m d1 Sm Sd1) as (m1 & -> & Sm1).
      cbn [bind].
      destruct (coherence_divisor_shape r c y Sy) as (d2 & -> & Sd2). cbn [bind].
      now apply np_inplace_same_shape. }
  destruct Hdiv as (m' & -> & [Hr' _]). cbn [bind].
  unfold ifft_axis.
  pose proof (next_fast_len_ge c) as Hfast.
  destruct (Nat.eqb_spec (next_fast_len c) 0); [lia|].
  cbn [bind np_map].
  destruct (sequence_all_ok
              (map (lag_window c (np_round maxlag))
                 (map (map creal) (map (ifft (next_fast_len c)) m'))))
    as [rows Hrows].
  - rewrite !Forall_map. apply Forall_forall. intros row _.
    apply lag_window_succeeds. rewrite length_map, ifft_length. lia.
  - rewrite Hrows. cbn [bind]. exists rows. split; [reflexivity|].
    apply sequence_Forall2, Forall2_length in Hrows.
    rewrite !length_map in Hrows. congruence.
Qed.

End CorrelationMethods.

Lemma boxcar_smooth_length {num : Numeric} (row : list Re) (half_win : nat) :
  length (boxcar_smooth row half_win) = length row.
Proof. unfold boxcar_smooth. now rewrite length_map, length_seq. Qed.

Lemma correlate_2d_methods_return_witness :
  exists out,
    correlate (num := real_numeric) boxcar_smooth (Arr2 spectrum8_rows)
      (Arr2 spectrum8_rows) (11 # 4) None "deconv" = Ok (Arr2 out) /\
    length out = length spectrum8_rows.
Proof.
  apply (correlate_2d_methods_return (num := real_numeric) boxcar_smooth
           boxcar_smooth_length spectrum8_rows spectrum8_rows (11 # 4) "deconv").
  - cbn. repeat split; repeat constructor.
  - cbn. lia.
Defined.

(** ** The sample matrix of [process_cc] *)

Lemma fold_left_Zmax_ge (l : list Z) (a : Z) : a <= fold_left Z.max l a.
Proof.
  revert a. induction l as [|x l IH]; intros a; cbn [fold_left]; [lia|].
  specialize (IH (Z.max a x)). lia.
Qed.

Lemma fold_left_Zmax_lengths {A : Type} (traces : list (list A)) (a : nat) :
  fold_left Z.max (map (fun d => Z.of_nat (length d)) traces) (Z.of_nat a) =
    Z.of_nat (Nat.max a (longest traces)).
Proof.
  revert a. induction traces as [|d traces IH]; intros a; cbn [map fold_left].
  - unfold longest. cbn. f_equal. lia.
  - replace (Z.max (Z.of_nat a) (Z.of_nat (length d)))
      with (Z.of_nat (Nat.max a (length d))) by lia.
    rewrite IH. unfold longest. cbn [map fold_right]. f_equal. lia.
Qed.

Lemma longest_ge {A : Type} (traces : list (list A)) (d : list A) :
  In d traces -> (length d <= longest traces)%nat.
Proof.
  unfold longest. induction traces as [|d' traces IH]; cbn [In map fold_right];
    [tauto|].
  intros [->|H]; [lia|]. specialize (IH H). lia.
Qed.

Lemma skipn_repeat_zero {A : Type} (zero : A) (n k : nat) :
  skipn k (repeat zero n) = repeat zero (n - k).
Proof.
  revert k. induction n as [|n IH]; intros [|k]; cbn [repeat skipn Nat.sub];
    try reflexivity.
  apply IH.
Qed.

Lemma fill_rows_pads {A : Type} (zero : A) (Nt : nat) (traces : list (list A)) :
  Forall (fun d => (length d <= Nt)%nat) traces ->
  fill_rows zero Nt traces =
    Ok (map (fun d => d ++ repeat zero (Nt - length d)) traces).
Proof.
  intros H. induction H as [|d traces Hd _ IH]; cbn [fill_rows map]; [reflexivity|].
  unfold assign_slice. rewrite repeat_length.
  assert (E0 : slice_bound Nt 0 = 0%nat).
  { unfold slice_bound. destruct (Z.ltb_spec 0 0); lia. }
  assert (Ed : slice_bound Nt (Z.of_nat (length d)) = length d).
  { unfold slice_bound. destruct (Z.ltb_spec (Z.of_nat (length d)) 0); lia. }
  rewrite E0, Ed, Nat.sub_0_r, Nat.eqb_refl. cbn [bind firstn app Nat.add].
  rewrite IH. cbn [bind]. now rewrite skipn_repeat_zero.
Qed.

(** X25. The sample matrix that [process_cc] builds from the windows of a
    stream that is not empty: one row per window, every row as long as
    the longest window, each holding the samples of its window from
    column 0 on and zeros after them. No window is cut. *)
Theorem sample_matrix_pads (A : Type) (zero : A) (traces : list (list A)) :
  traces <> [] ->
  sample_matrix zero traces =
    Ok (map (fun d => d ++ repeat zero (longest traces - length d)) traces) /\
  has_shape (length traces) (longest traces)
    (map (fun d => d ++ repeat zero (longest traces - length d)) traces).
Proof.
  intros Hne. split.
  - unfold sample_matrix. destruct traces as [|d traces]; [contradiction|].
    cbn [map np_max bind].
    rewrite (fold_left_Zmax_lengths traces (length d)), Nat2Z.id.
    replace (Nat.max (length d) (longest traces)) with (longest (d :: traces))
      by reflexivity.
    apply (fill_rows_pads zero (longest (d :: traces)) (d :: traces)).
    apply Forall_forall. intros d' Hd'.
    now apply longest_ge.
  - split; [now rewrite length_map|].
    apply Forall_map, Forall_forall. intros d Hd.
    rewrite length_app, repeat_length.
    pose proof (longest_ge traces d Hd). lia.
Qed.

Lemma sample_matrix_pads_witness :
  sample_matrix 0 [[1; 2; 3]; [4]] =
    Ok (map (fun d => d ++ repeat 0 (longest [[1; 2; 3]; [4]] - length d))
            [[1; 2; 3]; [4]]) /\
  has_shape (length [[1; 2; 3]; [4]]) (longest [[1; 2; 3]; [4]])
    (map (fun d => d ++ repeat 0 (longest [[1; 2; 3]; [4]] - length d))
         [[1; 2; 3]; [4]]).
Proof. apply (sample_matrix_pads Z 0 [[1; 2; 3]; [4]]). discriminate. Defined.

(** ** The 1-D branch of the whitener on an example *)

Lemma whiten_one_frame_real :
  whiten (num := real_numeric) (Arr1 one_frame) 1 (1 # 10) (3 # 10) true None =
    Ok (Arr1 one_frame_whitened).
Proof. exact (whiten_one_frame_1d (num := real_numeric) one_frame eq_refl). Qed.

(** X22. [whiten_1d_mirrors] on one frame of eight samples: bin 7 of the
    whitened spectrum is the conjugate of bin 1. *)
Lemma whiten_1d_mirrors_witness :
  nth (8 - 1) one_frame_whitened RC_zero = RC_conj (nth 1 one_frame_whitened RC_zero).
Proof.
  apply (whiten_1d_mirrors (num := real_numeric) one_frame 1 (1 # 10) (3 # 10)
           None one_frame_whitened whiten_one_frame_real 1).
  cbn. lia.
Defined.
